(** * Travel planner agent: JSON repair pipeline, transport and ReAct loop

    A shallow embedding of [travel_planner/agent/llm_client.py] and
    [travel_planner/agent/runner.py].

    - Python [str] values are sequences of Unicode code points: [text] is
      [list N].
    - Values produced by [json.loads] are the inductive [Json].
    - Exceptions are values of [Exn]; code that may raise returns [Res].
    - Mutable objects ([self.collected_info], [self.action_history], the
      [logs] list) are threaded explicitly through a state record. *)

From Stdlib Require Import String Ascii.
From Stdlib Require Import ZArith NArith Lia Bool Arith List.
From Equations Require Import Equations.
Import ListNotations.

Set Implicit Arguments.
Set Warnings "-register-all".
Local Open Scope N_scope.

(* ===================================================================== *)
(** * Text: Python strings as code-point sequences *)
(* ===================================================================== *)

Module Text.

Definition char := N.
Definition text := list char.

(** A Rocq string literal read as a Python string (one code point per
    byte of the literal). *)
Definition py (s : string) : text := map N_of_ascii (list_ascii_of_string s).

(** The same, for literals that contain double quotes: an apostrophe in
    the literal stands for the double quote of the Python text. *)
Definition pyq (s : string) : text :=
  map (fun c => if c =? 39 then 34 else c) (py s).

Definition LBRACE : char := 123.
Definition RBRACE : char := 125.
Definition RBRACKET : char := 93.
Definition QUOTE : char := 34.
Definition BACKSLASH : char := 92.
Definition COMMA : char := 44.
Definition CR : char := 13.
Definition LF : char := 10.
Definition TAB : char := 9.

Definition text_eqb (a b : text) : bool :=
  if list_eq_dec N.eq_dec a b then true else false.

(** [str.isspace] on one code point: the characters removed by
    [str.strip()] and matched by [\s] in a [str] pattern. *)
Definition isspace (c : char) : bool :=
  ((9 <=? c) && (c <=? 13)) || ((28 <=? c) && (c <=? 32))
  || (c =? 133) || (c =? 160) || (c =? 5760)
  || ((8192 <=? c) && (c <=? 8202))
  || (c =? 8232) || (c =? 8233) || (c =? 8239) || (c =? 8287) || (c =? 12288).

Fixpoint lstrip (s : text) : text :=
  match s with
  | c :: s' => if isspace c then lstrip s' else s
  | [] => []
  end.

Definition rstrip (s : text) : text := rev (lstrip (rev s)).

(** [s.strip()] *)
Definition strip (s : text) : text := rstrip (lstrip s).

Fixpoint startswith (p s : text) : bool :=
  match p, s with
  | [], _ => true
  | a :: p', b :: s' => (a =? b) && startswith p' s'
  | _ :: _, [] => false
  end.

Definition endswith (p s : text) : bool := startswith (rev p) (rev s).

(** [s[a:b]] for [0 <= a], [0 <= b]. *)
Definition slice (s : text) (a b : nat) : text := firstn (b - a) (skipn a s).

(** [s[:-n]] for [0 < n]. *)
Definition drop_last (n : nat) (s : text) : text := firstn (length s - n) s.

(** [s[-n:]] for [0 < n]. *)
Definition last_chars (n : nat) (s : text) : text := skipn (length s - n) s.

(** [s.find(c)] for a one-character needle: [None] stands for [-1]. *)
Fixpoint find (c : char) (s : text) : option nat :=
  match s with
  | [] => None
  | x :: s' => if x =? c then Some 0%nat
               else match find c s' with
                    | Some i => Some (S i)
                    | None => None
                    end
  end.

(** [s.rfind(c)]. *)
Fixpoint rfind (c : char) (s : text) : option nat :=
  match s with
  | [] => None
  | x :: s' => match rfind c s' with
               | Some i => Some (S i)
               | None => if x =? c then Some 0%nat else None
               end
  end.

End Text.
Import Text.

(* ===================================================================== *)
(** * The textual helpers of llm_client.py *)
(* ===================================================================== *)

Module LLMText.

(** [_strip_code_fences] *)
Definition _strip_code_fences (t : text) : text :=
  let cleaned := strip t in
  let cleaned := if startswith (py "```json") cleaned then skipn 7 cleaned else cleaned in
  let cleaned := if startswith (py "```") cleaned then skipn 3 cleaned else cleaned in
  let cleaned := if endswith (py "```") cleaned then drop_last 3 cleaned else cleaned in
  strip cleaned.

(** [_extract_json_object]: the text between the first opening brace and
    the last closing brace. *)
Definition _extract_json_object (t : text) : option text :=
  match t with
  | [] => None
  | _ =>
    match find LBRACE t, rfind RBRACE t with
    | Some start, Some e =>
        if (e <=? start)%nat then None else Some (strip (slice t start (e + 1)))
    | _, _ => None
    end
  end.

(** The [for i in range(start, len(text))] loop of
    [_find_first_complete_json_object]: [rest] is [text[i:]]; the result
    is the index [i] at which the function returns, if it does. *)
Fixpoint scan_object (rest : text) (i : nat) (depth : Z)
         (in_string escaped : bool) : option nat :=
  match rest with
  | [] => None
  | ch :: rest' =>
    if in_string then
      if escaped then scan_object rest' (S i) depth true false
      else if ch =? BACKSLASH then scan_object rest' (S i) depth true true
      else if ch =? QUOTE then scan_object rest' (S i) depth false escaped
      else scan_object rest' (S i) depth true escaped
    else
      if ch =? QUOTE then scan_object rest' (S i) depth true escaped
      else if ch =? LBRACE then scan_object rest' (S i) (depth + 1)%Z false escaped
      else if ch =? RBRACE then
        let depth := (depth - 1)%Z in
        if (depth =? 0)%Z then Some i
        else scan_object rest' (S i) depth false escaped
      else scan_object rest' (S i) depth false escaped
  end.

(** [_find_first_complete_json_object] *)
Definition _find_first_complete_json_object (t : text) : option text :=
  match t with
  | [] => None
  | _ =>
    match find LBRACE t with
    | None => None
    | Some start =>
      match scan_object (skipn start t) start 0%Z false false with
      | Some i => Some (strip (slice t start (i + 1)))
      | None => None
      end
    end
  end.

(** [_is_likely_truncated_json] *)
Definition _is_likely_truncated_json (t : text) : bool :=
  match t with
  | [] => false
  | _ =>
    match find LBRACE t with
    | None => false
    | Some _ =>
      match _find_first_complete_json_object t with
      | None => true
      | Some _ => false
      end
    end
  end.

(** [_escape_control_chars_in_strings]: the [while i < len(text)] loop,
    [rest] being [text[i:]]. *)
Definition hex_digit (n : N) : char := if n <? 10 then 48 + n else 87 + n.

(** [f"\\u{ord(ch):04x}"] for [ord(ch) < 0x20]. *)
Definition unicode_escape (ch : char) : text :=
  [BACKSLASH; 117; 48; 48; hex_digit (ch / 16); hex_digit (ch mod 16)].

Fixpoint escape_loop (rest : text) (in_string escaped : bool) : text :=
  match rest with
  | [] => []
  | ch :: rest' =>
    if in_string then
      if escaped then ch :: escape_loop rest' true false
      else if ch =? BACKSLASH then ch :: escape_loop rest' true true
      else if ch =? QUOTE then ch :: escape_loop rest' false escaped
      else if ch =? CR then
        match rest' with
        | nx :: rest'' =>
            if nx =? LF then [BACKSLASH; 110] ++ escape_loop rest'' true escaped
            else [BACKSLASH; 110] ++ escape_loop rest' true escaped
        | [] => [BACKSLASH; 110] ++ escape_loop rest' true escaped
        end
      else if ch =? LF then [BACKSLASH; 110] ++ escape_loop rest' true escaped
      else if ch =? TAB then [BACKSLASH; 116] ++ escape_loop rest' true escaped
      else if ch <? 32 then unicode_escape ch ++ escape_loop rest' true escaped
      else ch :: escape_loop rest' true escaped
    else
      ch :: escape_loop rest' (ch =? QUOTE) escaped
  end.

Definition _escape_control_chars_in_strings (t : text) : text :=
  match t with
  | [] => t
  | _ => escape_loop t false false
  end.

(** ** [_TRAILING_COMMA_RE = re.compile(r",(\s*[}\]])")] *)

Definition is_closer (c : char) : bool := (c =? RBRACE) || (c =? RBRACKET).

(** The greedy [\s*]: the longest run of whitespace and what follows it. *)
Fixpoint take_spaces (s : text) : text * text :=
  match s with
  | c :: s' =>
      if isspace c then let (w, r) := take_spaces s' in (c :: w, r)
      else ([], s)
  | [] => ([], [])
  end.

(** A match of the pattern anchored at the head of [s]: group 1 and the
    text after the match.  The closing characters are not whitespace, so
    the greedy run is the only way the pattern can match. *)
Definition match_trailing_comma (s : text) : option (text * text) :=
  match s with
  | c :: s' =>
      if c =? COMMA then
        let (w, r) := take_spaces s' in
        match r with
        | d :: r' => if is_closer d then Some (w ++ [d], r') else None
        | [] => None
        end
      else None
  | [] => None
  end.

Definition inspect {A} (a : A) : {b | a = b} := exist _ a eq_refl.

Lemma take_spaces_length s :
  (length (fst (take_spaces s)) + length (snd (take_spaces s)) = length s)%nat.
Proof.
  induction s as [|c s IH]; simpl; [reflexivity|].
  destruct (isspace c); simpl; [|reflexivity].
  destruct (take_spaces s); simpl in *; lia.
Qed.

Lemma match_trailing_comma_shorter s g r :
  match_trailing_comma s = Some (g, r) -> (length r < length s)%nat.
Proof.
  destruct s as [|c s']; simpl; [discriminate|].
  destruct (c =? COMMA); [|discriminate].
  pose proof (take_spaces_length s') as L.
  destruct (take_spaces s') as [w q]; simpl in L.
  destruct q as [|d q']; [discriminate|].
  destruct (is_closer d); [|discriminate].
  intros E; inversion E; subst. simpl in L. lia.
Qed.

(** [_TRAILING_COMMA_RE.sub(r"\1", s)]: the leftmost matches, left to
    right and without overlap, each replaced by its group 1. *)
Equations sub_trailing_comma (s : text) : text by wf (length s) lt :=
  sub_trailing_comma [] := [];
  sub_trailing_comma (c :: s') with inspect (match_trailing_comma (c :: s')) := {
    | exist _ (Some (g, r)) H := g ++ sub_trailing_comma r;
    | exist _ None _ := c :: sub_trailing_comma s' }.
Next Obligation.
  exact (match_trailing_comma_shorter (c :: s') H).
Qed.

Lemma match_trailing_comma_lengths s g r :
  match_trailing_comma s = Some (g, r) ->
  S (length g + length r) = length s.
Proof.
  destruct s as [|c s']; simpl; [discriminate|].
  destruct (c =? COMMA); [|discriminate].
  pose proof (take_spaces_length s') as L.
  destruct (take_spaces s') as [w q]; simpl in L.
  destruct q as [|d q']; [discriminate|].
  destruct (is_closer d); [|discriminate].
  intros E; inversion E; subst. rewrite length_app. simpl in *. lia.
Qed.

Lemma sub_trailing_comma_length s :
  (length (sub_trailing_comma s) <= length s)%nat
  /\ (length (sub_trailing_comma s) = length s -> sub_trailing_comma s = s).
Proof.
  funelim (sub_trailing_comma s).
  - split; reflexivity.
  - match goal with
    | E : match_trailing_comma _ = Some _, IH : _ /\ _ |- _ =>
        pose proof (match_trailing_comma_lengths _ E) as L; destruct IH as [Hle _]
    end.
    rewrite length_app. simpl in *. split; lia.
  - match goal with IH : _ /\ _ |- _ => destruct IH as [Hle Heq] end.
    simpl. split; [lia|].
    intros E. f_equal. apply Heq. lia.
Qed.

Lemma sub_trailing_comma_shrinks s :
  text_eqb (sub_trailing_comma s) s = false ->
  (length (sub_trailing_comma s) < length s)%nat.
Proof.
  intros E. destruct (sub_trailing_comma_length s) as [Hle Heq].
  destruct (Nat.eq_dec (length (sub_trailing_comma s)) (length s)) as [L|L]; [|lia].
  apply Heq in L. rewrite L in E. unfold text_eqb in E.
  destruct (list_eq_dec N.eq_dec s s); congruence.
Qed.

(** The [while previous != current] loop of [_remove_trailing_commas]:
    one more pass, and the loop stops when the pass changed nothing. *)
Equations remove_loop (current : text) : text by wf (length current) lt :=
  remove_loop current with inspect (text_eqb (sub_trailing_comma current) current) := {
    | exist _ true _ := sub_trailing_comma current;
    | exist _ false H := remove_loop (sub_trailing_comma current) }.
Next Obligation.
  exact (sub_trailing_comma_shrinks current H).
Qed.

(** [_remove_trailing_commas] *)
Definition _remove_trailing_commas (t : text) : text :=
  match t with
  | [] => t
  | _ => remove_loop t
  end.

End LLMText.
Import LLMText.

(* ===================================================================== *)
(** * Python values and exceptions *)
(* ===================================================================== *)

Module Py.

(** The values [json.loads] builds, which are also the values the agent
    stores and passes around.  A float is kept as a decimal mantissa and
    exponent; a [dict] is an association list in insertion order, without
    repeated keys when built by [dict_set]. *)
Inductive Json : Type :=
| JNull
| JBool (b : bool)
| JInt (n : Z)
| JFloat (mantissa exponent : Z)
| JStr (s : text)
| JArr (items : list Json)
| JObj (fields : list (text * Json)).

(** Python truth value: [bool(v)]. *)
Definition truthy (v : Json) : bool :=
  match v with
  | JNull => false
  | JBool b => b
  | JInt n => negb (n =? 0)%Z
  | JFloat m _ => negb (m =? 0)%Z
  | JStr s => match s with [] => false | _ => true end
  | JArr l => match l with [] => false | _ => true end
  | JObj f => match f with [] => false | _ => true end
  end.

Fixpoint dict_lookup (k : text) (f : list (text * Json)) : option Json :=
  match f with
  | [] => None
  | (k', v) :: f' => if text_eqb k' k then Some v else dict_lookup k f'
  end.

(** [d[k] = v] *)
Fixpoint dict_set (k : text) (v : Json) (f : list (text * Json)) : list (text * Json) :=
  match f with
  | [] => [(k, v)]
  | (k', v') :: f' => if text_eqb k' k then (k, v) :: f' else (k', v') :: dict_set k v f'
  end.

(** The templates of the messages the code raises with; [str(e)] of an
    exception is its message. *)
Inductive Msg : Type :=
| MsgTimeout (timeout_s max_tokens : Z)
| MsgNetwork (max_retries : Z) (detail : text)
| MsgRateLimit
| MsgAuth
| MsgHTTP (status : option Z) (detail : text)   (* [None]: the word unknown *)
| MsgRequest (detail : text)
| MsgJSONParse (max_tokens : Z)
| MsgText (t : text).

Inductive ExnClass : Type :=
| RuntimeError
| JSONParseError (response cleaned : text)   (* a subclass of ValueError *)
| ValueError
| ValidationError
| AttributeError
| TypeError
| KeyError
| OtherException.

Record Exn : Type := mkExn { exn_class : ExnClass; exn_msg : Msg }.

Inductive Res (A : Type) : Type :=
| Ok (a : A)
| Raise (e : Exn).
Arguments Ok {A} a.
Arguments Raise {A} e.

(** [v.get(k, default)]: only a [dict] has the method. *)
Definition py_get (v : Json) (k : text) (default : Json) : Res Json :=
  match v with
  | JObj f => Ok (match dict_lookup k f with Some x => x | None => default end)
  | _ => Raise (mkExn AttributeError (MsgText (py "object has no attribute 'get'")))
  end.

(** [len(v)] *)
Definition py_len (v : Json) : Res nat :=
  match v with
  | JStr s => Ok (length s)
  | JArr l => Ok (length l)
  | JObj f => Ok (length f)
  | _ => Raise (mkExn TypeError (MsgText (py "object has no len()")))
  end.

(** [for x in v]: the items the loop visits. *)
Definition py_iter (v : Json) : Res (list Json) :=
  match v with
  | JStr s => Ok (map (fun c => JStr [c]) s)
  | JArr l => Ok l
  | JObj f => Ok (map (fun kv => JStr (fst kv)) f)
  | _ => Raise (mkExn TypeError (MsgText (py "object is not iterable")))
  end.

End Py.
Import Py.

(* ===================================================================== *)
(** * Backend transport: [LLMClient._generate_mistral] *)
(* ===================================================================== *)

Module Transport.

(** A [requests.Response], by its status code. *)
Record Response : Type := { status_code : Z }.

(** The truth value of a [requests.Response] is its [ok] property:
    false exactly when [raise_for_status()] raises, that is for a status
    code from 400 to 599. *)
Definition Response_bool (r : Response) : bool :=
  negb ((400 <=? status_code r)%Z && (status_code r <? 600)%Z).

(** What one [requests.post] followed by [raise_for_status()], [json()]
    and the extraction of the content does. *)
Inductive PostOutcome : Type :=
| Replied (content : text)
| RaisesTimeout
| RaisesConnectionError (e : text)
| RaisesHTTPError (response : option Response) (e : text)
| RaisesRequestException (e : text)
| RaisesOther (e : Exn).

Definition max_retries : Z := 5.

Section GenerateMistral.
Variable timeout_s : Z.
Variable max_tokens : Z.
(** The outcome of the request sent at each attempt. *)
Variable post : Z -> PostOutcome.

(** The [except requests.HTTPError as e] handler. *)
Definition http_error_message (response : option Response) (e : text) : Msg :=
  let status_code :=
    match response with
    | Some r => if Response_bool r then Some (status_code r) else None
    | None => None
    end in
  match status_code with
  | Some 429%Z => MsgRateLimit
  | Some 401%Z => MsgAuth
  | _ => MsgHTTP status_code e
  end.

(** [for attempt in range(max_retries)]: the result ([None] when the
    loop runs out, where Python returns [None]) and the waits passed
    to [time.sleep], in order. *)
Fixpoint retry_loop (attempts : list Z) (slept : list Z)
  : option (Res text) * list Z :=
  match attempts with
  | [] => (None, slept)
  | attempt :: rest =>
    match post attempt with
    | Replied content => (Some (Ok (strip content)), slept)
    | RaisesTimeout =>
        (Some (Raise (mkExn RuntimeError (MsgTimeout timeout_s max_tokens))), slept)
    | RaisesConnectionError e =>
        if (attempt <? max_retries - 1)%Z then
          let wait_time := ((attempt + 1) * 3)%Z in
          retry_loop rest (slept ++ [wait_time])
        else
          (Some (Raise (mkExn RuntimeError (MsgNetwork max_retries e))), slept)
    | RaisesHTTPError response e =>
        (Some (Raise (mkExn RuntimeError (http_error_message response e))), slept)
    | RaisesRequestException e =>
        (Some (Raise (mkExn RuntimeError (MsgRequest e))), slept)
    | RaisesOther e => (Some (Raise e), slept)
    end
  end.

Definition _generate_mistral : option (Res text) * list Z :=
  retry_loop (map Z.of_nat (seq 0 (Z.to_nat max_retries))) [].

End GenerateMistral.

End Transport.
Import Transport.

(* ===================================================================== *)
(** * The repair pipeline: [LLMClient.generate_json] *)
(* ===================================================================== *)

Module LLMClient.

Inductive Prompt : Type :=
| UserPrompt (p : text)
| ContinuationPrompt (tail : text).   (* the fixed instructions, then [tail] *)

(** The arguments of [self.generate]; the temperature is in tenths. *)
Record GenRequest : Type := {
  prompt : Prompt;
  system : option text;
  temperature_tenths : Z;
  json_mode : bool;
  max_tokens : Z }.

(** [if s: try: return json.loads(s) except JSONDecodeError: pass] for an
    optional string [s]: the parsed value, if that returns. *)
Definition loads_if (json_loads : text -> option Json) (s : option text) : option Json :=
  match s with
  | Some ((_ :: _) as c) => json_loads c
  | _ => None
  end.

(** [a or b] on optional strings. *)
Definition py_or (a : option text) (b : option text) : option text :=
  match a with
  | Some (_ :: _) => a
  | _ => b
  end.

Section GenerateJson.
(** [json.loads]: [None] stands for [JSONDecodeError]. *)
Variable json_loads : text -> option Json.
(** [self.generate], by the number of calls this call of
    [generate_json] made before. *)
Variable generate : nat -> GenRequest -> Res text.

Variable the_prompt : text.
Variable the_system : option text.
Variable the_temperature : Z.
Variable the_max_tokens : Z.
Variable max_continuations : Z.

Definition continuation_request (tail : text) : GenRequest :=
  {| prompt := ContinuationPrompt tail;
     system := the_system;
     temperature_tenths := 0;
     json_mode := false;
     max_tokens := Z.max 500 (Z.min 2000 the_max_tokens) |}.

(** [for i in range(max_continuations)]: [Ok (Some v)] when the loop
    returns [v], [Ok None] when it ends, with the text accumulated. *)
Fixpoint continuation_loop (rounds : list Z) (calls : nat) (tail combined : text)
  : Res (option Json) * text :=
  match rounds with
  | [] => (Ok None, combined)
  | i :: rest =>
    match generate calls (continuation_request tail) with
    | Raise e => (Raise e, combined)
    | Ok continuation =>
      let combined := combined ++ _strip_code_fences continuation in
      match _find_first_complete_json_object combined with
      | Some ((_ :: _) as complete_after) =>
        match json_loads complete_after with
        | Some v => (Ok (Some v), combined)
        | None =>
            if (i <? max_continuations - 1)%Z
            then continuation_loop rest (S calls) tail combined
            else (Ok None, combined)
        end
      | _ => continuation_loop rest (S calls) tail combined
      end
    end
  end.

(** The handler of the [JSONDecodeError] of [json.loads(response)]. *)
Definition repair (response : text) : Res Json :=
  let cleaned := _strip_code_fences response in
  match json_loads cleaned with
  | Some v => Ok v
  | None =>
    let extracted := _extract_json_object cleaned in
    match loads_if json_loads extracted with
    | Some v => Ok v
    | None =>
      let complete := _find_first_complete_json_object cleaned in
      match loads_if json_loads complete with
      | Some v => Ok v
      | None =>
        let continued :=
          if (0 <? max_continuations)%Z && _is_likely_truncated_json cleaned then
            continuation_loop (map Z.of_nat (seq 0 (Z.to_nat max_continuations)))
                              1%nat (last_chars 1000 cleaned) cleaned
          else (Ok None, cleaned) in
        match continued with
        | (Raise e, _) => Raise e
        | (Ok (Some v), _) => Ok v
        | (Ok None, combined) =>
          let candidate :=
            match py_or (py_or complete extracted) (Some combined) with
            | Some c => c
            | None => combined
            end in
          let repaired :=
            _remove_trailing_commas (_escape_control_chars_in_strings candidate) in
          match json_loads repaired with
          | Some v => Ok v
          | None =>
              Raise (mkExn (JSONParseError response
                              (match repaired with [] => cleaned | _ => repaired end))
                           (MsgJSONParse the_max_tokens))
          end
        end
      end
    end
  end.

Definition generate_json : Res Json :=
  match generate 0%nat {| prompt := UserPrompt the_prompt;
                          system := the_system;
                          temperature_tenths := the_temperature;
                          json_mode := true;
                          max_tokens := the_max_tokens |} with
  | Raise e => Raise e
  | Ok response =>
    let cleaned0 := _strip_code_fences response in
    let complete0 := _find_first_complete_json_object cleaned0 in
    match loads_if json_loads complete0 with
    | Some v => Ok v
    | None =>
      match json_loads response with
      | Some v => Ok v
      | None => repair response
      end
    end
  end.

End GenerateJson.

End LLMClient.
Import LLMClient.

(* ===================================================================== *)
(** * A reader for a fragment of JSON *)
(* ===================================================================== *)

(** [json.loads] is a parameter of the pipeline above.  This reader is
    one instance, used to run the pipeline on concrete replies: it reads
    JSON without fractions, exponents and [\u] escapes as [json.loads]
    does, and rejects everything else. *)
Module JsonReader.

(** The whitespace of JSON: space, tab, line feed, carriage return. *)
Fixpoint skip_ws (s : text) : text :=
  match s with
  | c :: s' => if (c =? 32) || (c =? 9) || (c =? 10) || (c =? 13) then skip_ws s' else s
  | [] => []
  end.

(** The characters of a string literal after its opening quote. *)
Fixpoint read_string (s : text) (acc : text) : option (text * text) :=
  match s with
  | [] => None
  | c :: s' =>
    if c =? QUOTE then Some (rev acc, s')
    else if c =? BACKSLASH then
      match s' with
      | e :: s'' =>
        if e =? QUOTE then read_string s'' (QUOTE :: acc)
        else if e =? BACKSLASH then read_string s'' (BACKSLASH :: acc)
        else if e =? 47 then read_string s'' (47 :: acc)
        else if e =? 98 then read_string s'' (8 :: acc)
        else if e =? 102 then read_string s'' (12 :: acc)
        else if e =? 110 then read_string s'' (10 :: acc)
        else if e =? 114 then read_string s'' (13 :: acc)
        else if e =? 116 then read_string s'' (9 :: acc)
        else None
      | [] => None
      end
    else if c <? 32 then None
    else read_string s' (c :: acc)
  end.

Definition is_digit (c : char) : bool := (48 <=? c) && (c <=? 57).

Fixpoint read_digits (s : text) (acc : Z) : Z * text :=
  match s with
  | c :: s' => if is_digit c then read_digits s' (acc * 10 + Z.of_N (c - 48))%Z
               else (acc, s)
  | [] => (acc, [])
  end.

(** An integer literal: an optional minus, then [0] or digits without a
    leading zero; a fraction or an exponent is outside the fragment. *)
Definition read_int (s : text) : option (Z * text) :=
  let (neg, s1) := match s with
                   | c :: s' => if c =? 45 then (true, s') else (false, s)
                   | [] => (false, s)
                   end in
  match s1 with
  | d :: s2 =>
    if is_digit d then
      let (n, r) := if d =? 48 then (0%Z, s2) else read_digits s1 0%Z in
      match r with
      | c :: _ =>
          if (c =? 46) || (c =? 101) || (c =? 69) || is_digit c then None
          else Some (if neg then (- n)%Z else n, r)
      | [] => Some (if neg then (- n)%Z else n, r)
      end
    else None
  | [] => None
  end.

Section Containers.
Variable read_value : text -> option (Json * text).

(** The items of an array after the first value has been announced. *)
Fixpoint read_items (fuel : nat) (s : text) (acc : list Json) : option (Json * text) :=
  match fuel with
  | O => None
  | S fuel' =>
    match read_value s with
    | Some (v, r) =>
      match skip_ws r with
      | c :: r' =>
          if c =? COMMA then read_items fuel' (skip_ws r') (v :: acc)
          else if c =? RBRACKET then Some (JArr (rev (v :: acc)), r')
          else None
      | [] => None
      end
    | None => None
    end
  end.

(** The members of an object, [s] starting at a key's opening quote. *)
Fixpoint read_members (fuel : nat) (s : text) (acc : list (text * Json))
  : option (Json * text) :=
  match fuel with
  | O => None
  | S fuel' =>
    match s with
    | q :: s1 =>
      if q =? QUOTE then
        match read_string s1 [] with
        | Some (k, s2) =>
          match skip_ws s2 with
          | c :: s3 =>
            if c =? 58 then
              match read_value (skip_ws s3) with
              | Some (v, r) =>
                match skip_ws r with
                | d :: r' =>
                    if d =? COMMA then read_members fuel' (skip_ws r') (dict_set k v acc)
                    else if d =? RBRACE then Some (JObj (dict_set k v acc), r')
                    else None
                | [] => None
                end
              | None => None
              end
            else None
          | [] => None
          end
        | None => None
        end
      else None
    | [] => None
    end
  end.
End Containers.

Fixpoint read_value (fuel : nat) (s : text) : option (Json * text) :=
  match fuel with
  | O => None
  | S fuel' =>
    match s with
    | [] => None
    | c :: r =>
      if c =? QUOTE then
        match read_string r [] with
        | Some (str, r') => Some (JStr str, r')
        | None => None
        end
      else if c =? LBRACE then
        match skip_ws r with
        | d :: r' =>
            if d =? RBRACE then Some (JObj [], r')
            else read_members (read_value fuel') (length r) (skip_ws r) []
        | [] => None
        end
      else if c =? 91 then
        match skip_ws r with
        | d :: r' =>
            if d =? RBRACKET then Some (JArr [], r')
            else read_items (read_value fuel') (length r) (skip_ws r) []
        | [] => None
        end
      else if startswith (py "null") s then Some (JNull, skipn 4 s)
      else if startswith (py "true") s then Some (JBool true, skipn 4 s)
      else if startswith (py "false") s then Some (JBool false, skipn 5 s)
      else
        match read_int s with
        | Some (n, r') => Some (JInt n, r')
        | None => None
        end
    end
  end.

(** One value between optional whitespace, and nothing after it. *)
Definition json_loads (s : text) : option Json :=
  match read_value (S (length s)) (skip_ws s) with
  | Some (v, r) => match skip_ws r with [] => Some v | _ => None end
  | None => None
  end.

End JsonReader.

(* ===================================================================== *)
(** * The ReAct runner: [TravelPlannerAgent] *)
(* ===================================================================== *)

Module Runner.

(** The [dict] that [tools.geocode.geocode] builds. *)
Record GeoResult : Type := {
  geo_name : Json; geo_country : Json; geo_lat : Json; geo_lon : Json; geo_admin1 : Json }.

Definition geo_dict (g : GeoResult) : Json :=
  JObj [(py "name", geo_name g); (py "country", geo_country g);
        (py "lat", geo_lat g); (py "lon", geo_lon g); (py "admin1", geo_admin1 g)].

(** One item of the list that [tools.weather.get_weather] builds. *)
Record WeatherDay : Type := {
  w_date : Json; w_temp_min : Json; w_temp_max : Json;
  w_precipitation_probability : Json; w_wind_speed : Json; w_description : Json }.

Definition weather_dict (w : WeatherDay) : Json :=
  JObj [(py "date", w_date w); (py "temp_min", w_temp_min w);
        (py "temp_max", w_temp_max w);
        (py "precipitation_probability", w_precipitation_probability w);
        (py "wind_speed", w_wind_speed w); (py "description", w_description w)].

(** [self.collected_info]: the keys set when a run starts, and the keys
    ["geocode"], ["weather"], ["weather_unavailable"] and ["itinerary"],
    absent ([None], [false]) until an action sets them. *)
Record Ctx : Type := {
  destination : text;
  start_date : text;
  end_date : text;
  profile : text;
  budget : text;
  interests : list text;
  pace : text;
  constraints : text;
  ci_geocode : option GeoResult;
  ci_weather : option (list WeatherDay);
  ci_weather_unavailable : bool;
  ci_itinerary : option Json }.

Definition set_geocode (g : GeoResult) (c : Ctx) : Ctx :=
  {| destination := destination c; start_date := start_date c; end_date := end_date c;
     profile := profile c; budget := budget c; interests := interests c; pace := pace c;
     constraints := constraints c;
     ci_geocode := Some g; ci_weather := ci_weather c;
     ci_weather_unavailable := ci_weather_unavailable c; ci_itinerary := ci_itinerary c |}.

Definition set_weather (w : list WeatherDay) (c : Ctx) : Ctx :=
  {| destination := destination c; start_date := start_date c; end_date := end_date c;
     profile := profile c; budget := budget c; interests := interests c; pace := pace c;
     constraints := constraints c;
     ci_geocode := ci_geocode c; ci_weather := Some w;
     ci_weather_unavailable := ci_weather_unavailable c; ci_itinerary := ci_itinerary c |}.

Definition set_weather_unavailable (c : Ctx) : Ctx :=
  {| destination := destination c; start_date := start_date c; end_date := end_date c;
     profile := profile c; budget := budget c; interests := interests c; pace := pace c;
     constraints := constraints c;
     ci_geocode := ci_geocode c; ci_weather := ci_weather c;
     ci_weather_unavailable := true; ci_itinerary := ci_itinerary c |}.

Definition set_itinerary (i : Json) (c : Ctx) : Ctx :=
  {| destination := destination c; start_date := start_date c; end_date := end_date c;
     profile := profile c; budget := budget c; interests := interests c; pace := pace c;
     constraints := constraints c;
     ci_geocode := ci_geocode c; ci_weather := ci_weather c;
     ci_weather_unavailable := ci_weather_unavailable c; ci_itinerary := Some i |}.

(** [collected_info.get("itinerary", {})] and [.get("weather", [])]. *)
Definition get_itinerary (c : Ctx) : Json :=
  match ci_itinerary c with Some i => i | None => JObj [] end.
Definition get_weather_list (c : Ctx) : list WeatherDay :=
  match ci_weather c with Some w => w | None => [] end.

(** One entry of [self.action_history]: the three values the entry is
    formatted from. *)
Record ActionRecord : Type := {
  ar_action : Json; ar_input : Json; ar_result : Json }.

(** The messages passed to [self._log], one constructor per template. *)
Inductive LogEntry : Type :=
| LogIteration (n : nat)
| LogThought (thought : Json)
| LogAction (action input : Json)
| LogOverrideGeocodeDone
| LogOverrideWeatherDone
| LogOverrideWeatherUnavailable
| LogNewAction (action : Json) (input : option Json)
| LogFinish
| LogUnknownAction (action : Json)
| LogError (m : Msg)
| LogMaxIterations
| LogNoCity
| LogGeocodeObservation (city : Json) (g : GeoResult)
| LogCityNotFound (city : Json)
| LogMissingWeatherParameters
| LogWeatherObservation (first_days : list WeatherDay)
| LogWeatherWarning
| LogNoWeatherAdaptation
| LogPlanning
| LogDegradedPlan
| LogItineraryGenerated (days : nat)
| LogNotJSON (e : Exn) (attempt : Z)
| LogJSONRetry
| LogJSONRetryAttempt (attempt : Z)
| LogSelfCorrection
| LogDegradedCritique
| LogCritique
| LogValidationOK
| LogIssuesDetected (n : nat)
| LogIssue (type description : Json)
| LogCorrecting
| LogCorrected
| LogSelfCorrectionError (m : Msg)
| LogReturnOriginal.

(** The prompts sent through [self.llm.generate_json], by the values
    formatted into them. *)
Inductive AgentPrompt : Type :=
| ReactPlannerPrompt (collected_info : Ctx) (action_history : list ActionRecord)
| ItineraryGeneratorPrompt (collected_info : Ctx) (weather_data : option (list WeatherDay))
| CriticPrompt (itinerary : Json) (weather_data : option (list WeatherDay)) (budget pace : text)
| CorrectorPrompt (original_itinerary issues suggestions : Json).

Record JsonRequest : Type := {
  jr_prompt : AgentPrompt;
  jr_system : bool;                (* [system=SYSTEM_PROMPT] given *)
  jr_temperature_tenths : Z;
  jr_max_tokens : Z;
  jr_max_continuations : Z }.

(** The result bundle [plan_trip] returns; the wall-clock
    [execution_time] of the metrics is left out. *)
Record Metrics : Type := { iterations : nat; actions_count : nat }.

Record Bundle : Type := {
  b_itinerary : Json;
  b_logs : list LogEntry;
  b_weather : list WeatherDay;
  b_success : bool;
  b_error : option Msg;
  b_metrics : option Metrics }.

(** The constructor's keyword arguments. *)
Record Config : Type := {
  max_iterations : Z;
  enable_self_correction : bool;
  max_tokens_plan : Z;
  max_tokens_critic : Z;
  max_tokens_corrector : Z }.

Definition default_config : Config :=
  {| max_iterations := 5; enable_self_correction := true;
     max_tokens_plan := 8000; max_tokens_critic := 2000; max_tokens_corrector := 8000 |}.

(** The arguments of [plan_trip]. *)
Record TripArgs : Type := {
  a_destination : text; a_start_date : text; a_end_date : text;
  a_profile : text; a_budget : text; a_interests : list text;
  a_pace : text; a_constraints : text }.

(** The agent's mutable state during a run, with the local list [logs]
    and the number of calls made to the LLM client and to the tools. *)
Record Agent : Type := {
  action_history : list ActionRecord;
  collected_info : Ctx;
  logs : list LogEntry;
  llm_calls : nat;
  tool_calls : nat }.

(** ** State and exceptions *)

Definition M (A : Type) : Type := Agent -> Res A * Agent.

Definition ret {A} (a : A) : M A := fun st => (Ok a, st).
Definition raise {A} (e : Exn) : M A := fun st => (Raise e, st).
Definition bind {A B} (m : M A) (k : A -> M B) : M B :=
  fun st => match m st with
            | (Ok a, st') => k a st'
            | (Raise e, st') => (Raise e, st')
            end.
Definition lift {A} (r : Res A) : M A := fun st => (r, st).

(** [try: m except Exception as e: handler e] *)
Definition catch {A} (m : M A) (handler : Exn -> M A) : M A :=
  fun st => match m st with
            | (Ok a, st') => (Ok a, st')
            | (Raise e, st') => handler e st'
            end.

Notation "x <- m ;; k" := (bind m (fun x => k))
  (at level 61, m at next level, right associativity).
Notation "m ;;; k" := (bind m (fun _ => k))
  (at level 61, right associativity).

Definition with_logs (l : list LogEntry) (st : Agent) : Agent :=
  {| action_history := action_history st; collected_info := collected_info st;
     logs := l; llm_calls := llm_calls st; tool_calls := tool_calls st |}.

Definition with_info (c : Ctx) (st : Agent) : Agent :=
  {| action_history := action_history st; collected_info := c;
     logs := logs st; llm_calls := llm_calls st; tool_calls := tool_calls st |}.

Definition with_history (h : list ActionRecord) (st : Agent) : Agent :=
  {| action_history := h; collected_info := collected_info st;
     logs := logs st; llm_calls := llm_calls st; tool_calls := tool_calls st |}.

(** [self._log(logs, message)]; a log callback, if any, is taken to
    return normally. *)
Definition _log (message : LogEntry) : M unit :=
  fun st => (Ok tt, with_logs (logs st ++ [message]) st).

Fixpoint log_all (messages : list LogEntry) : M unit :=
  match messages with
  | [] => ret tt
  | m :: rest => _log m ;;; log_all rest
  end.

Definition get_info : M Ctx := fun st => (Ok (collected_info st), st).
Definition modify_info (f : Ctx -> Ctx) : M unit :=
  fun st => (Ok tt, with_info (f (collected_info st)) st).
Definition get_history : M (list ActionRecord) := fun st => (Ok (action_history st), st).

(** [action == name] for a value taken from the decision. *)
Definition action_is (action : Json) (name : text) : bool :=
  match action with
  | JStr s => text_eqb s name
  | _ => false
  end.

Definition GEOCODE : text := py "GEOCODE".
Definition WEATHER : text := py "WEATHER".
Definition PLAN : text := py "PLAN".
Definition FINISH : text := py "FINISH".

(** The override rules of [plan_trip]: the action and input to execute,
    and the lines logged while deciding. *)
Definition resolve_action (action action_input : Json) (info : Ctx)
  : Json * Json * list LogEntry :=
  match action_is action GEOCODE, ci_geocode info with
  | true, Some geocode_data =>
    match ci_weather info with
    | None =>
      let new_input :=
        JObj [(py "lat", geo_lat geocode_data); (py "lon", geo_lon geocode_data);
              (py "start_date", JStr (start_date info));
              (py "end_date", JStr (end_date info))] in
      (JStr WEATHER, new_input,
       [LogAction action action_input; LogOverrideGeocodeDone;
        LogNewAction (JStr WEATHER) (Some new_input)])
    | Some _ =>
      (JStr PLAN, JObj [],
       [LogAction action action_input; LogOverrideGeocodeDone;
        LogNewAction (JStr PLAN) None])
    end
  | _, _ =>
    if action_is action WEATHER
       && (match ci_weather info with Some _ => true | None => false end)
       && negb (ci_weather_unavailable info)
    then (JStr PLAN, JObj [],
          [LogAction action action_input; LogOverrideWeatherDone;
           LogNewAction (JStr PLAN) None])
    else if action_is action WEATHER && ci_weather_unavailable info
    then (JStr PLAN, JObj [],
          [LogAction action action_input; LogOverrideWeatherUnavailable;
           LogNewAction (JStr PLAN) None])
    else (action, action_input, [LogAction action action_input])
  end.

Section Agent.
Variable cfg : Config.
(** [self.llm.generate_json], by the number of calls made before. *)
Variable llm : nat -> JsonRequest -> Res Json.
(** The tools, by the number of tool calls made before. *)
Variable geocode : nat -> Json -> Res (option GeoResult).
Variable get_weather : nat -> Json -> Json -> Json -> Json -> Res (list WeatherDay).
(** [Itinerary.model_validate(x).model_dump()] *)
Variable model_validate : Json -> Res Json.

Definition call_llm (req : JsonRequest) : M Json :=
  fun st => (llm (llm_calls st) req,
             {| action_history := action_history st; collected_info := collected_info st;
                logs := logs st; llm_calls := S (llm_calls st);
                tool_calls := tool_calls st |}).

Definition call_tool {A} (tool : nat -> Res A) : M A :=
  fun st => (tool (tool_calls st),
             {| action_history := action_history st; collected_info := collected_info st;
                logs := logs st; llm_calls := llm_calls st;
                tool_calls := S (tool_calls st) |}).

(** [_execute_geocode] *)
Definition _execute_geocode (action_input : Json) : M Json :=
  city <- lift (py_get action_input (py "city") JNull) ;;
  if negb (truthy city) then
    _log LogNoCity ;;; ret JNull
  else
    result <- call_tool (fun n => geocode n city) ;;
    match result with
    | Some g =>
        modify_info (set_geocode g) ;;;
        _log (LogGeocodeObservation city g) ;;;
        ret (geo_dict g)
    | None =>
        _log (LogCityNotFound city) ;;; ret JNull
    end.

(** [_execute_weather] *)
Definition _execute_weather (action_input : Json) : M Json :=
  lat <- lift (py_get action_input (py "lat") JNull) ;;
  lon <- lift (py_get action_input (py "lon") JNull) ;;
  start_date <- lift (py_get action_input (py "start_date") JNull) ;;
  end_date <- lift (py_get action_input (py "end_date") JNull) ;;
  if negb (truthy lat && truthy lon && truthy start_date && truthy end_date) then
    _log LogMissingWeatherParameters ;;; ret JNull
  else
    weather <- call_tool (fun n => get_weather n lat lon start_date end_date) ;;
    match weather with
    | _ :: _ =>
        modify_info (set_weather weather) ;;;
        _log (LogWeatherObservation (firstn 3 weather)) ;;;
        ret (JArr (map weather_dict weather))
    | [] =>
        _log LogWeatherWarning ;;;
        _log LogNoWeatherAdaptation ;;;
        modify_info (set_weather []) ;;;
        modify_info set_weather_unavailable ;;;
        ret (JArr [])
    end.

(** The weather text formatted into a prompt: [None] when the code
    takes the degraded branch, which also logs [degraded]. *)
Definition weather_for_prompt (degraded : LogEntry) : M (option (list WeatherDay)) :=
  info <- get_info ;;
  let weather_data := get_weather_list info in
  let weather_unavailable := ci_weather_unavailable info in
  if weather_unavailable || (match weather_data with [] => true | _ => false end) then
    _log degraded ;;; ret None
  else ret (Some weather_data).

(** The body of the [try] of [_execute_plan]. *)
Definition plan_try (req : JsonRequest) : M Json :=
  itinerary <- call_llm req ;;
  itinerary <- lift (model_validate itinerary) ;;
  modify_info (set_itinerary itinerary) ;;;
  days <- lift (py_get itinerary (py "daily_plans") (JArr [])) ;;
  n <- lift (py_len days) ;;
  _log (LogItineraryGenerated n) ;;;
  ret itinerary.

Definition plan_max_retries : Z := 2.

(** [for attempt in range(max_retries)] of [_execute_plan]; when the
    loop runs out the function returns [None]. *)
Fixpoint plan_attempts (attempts : list Z) (req : JsonRequest) : M Json :=
  match attempts with
  | [] => ret JNull
  | attempt :: rest =>
    catch (plan_try req)
      (fun e =>
         match exn_class e with
         | JSONParseError _ _ =>
             _log (LogNotJSON e attempt) ;;;
             if (attempt <? plan_max_retries - 1)%Z then
               _log LogJSONRetry ;;; plan_attempts rest req
             else
               _log (LogError (exn_msg e)) ;;; raise e
         | ValueError | ValidationError =>
             if (attempt <? plan_max_retries - 1)%Z then
               _log (LogJSONRetryAttempt attempt) ;;; plan_attempts rest req
             else
               _log (LogError (exn_msg e)) ;;; raise e
         | _ => raise e
         end)
  end.

(** [_execute_plan] *)
Definition _execute_plan : M Json :=
  _log LogPlanning ;;;
  weather_str <- weather_for_prompt LogDegradedPlan ;;
  info <- get_info ;;
  plan_attempts (map Z.of_nat (seq 0 (Z.to_nat plan_max_retries)))
    {| jr_prompt := ItineraryGeneratorPrompt info weather_str;
       jr_system := false; jr_temperature_tenths := 5;
       jr_max_tokens := max_tokens_plan cfg; jr_max_continuations := 3 |}.

(** [for issue in issues: self._log(...)] *)
Fixpoint log_issues (issues : list Json) : M unit :=
  match issues with
  | [] => ret tt
  | issue :: rest =>
      type <- lift (py_get issue (py "type") JNull) ;;
      description <- lift (py_get issue (py "description") JNull) ;;
      _log (LogIssue type description) ;;;
      log_issues rest
  end.

(** The body of the [try] of [_self_correct]. *)
Definition self_correct_try (itinerary : Json) (weather_str : option (list WeatherDay))
  : M Json :=
  info <- get_info ;;
  critique <- call_llm
    {| jr_prompt := CriticPrompt itinerary weather_str (budget info) (pace info);
       jr_system := false; jr_temperature_tenths := 2;
       jr_max_tokens := max_tokens_critic cfg; jr_max_continuations := 1 |} ;;
  is_valid <- lift (py_get critique (py "is_valid") (JBool false)) ;;
  issues <- lift (py_get critique (py "issues") (JArr [])) ;;
  suggestions <- lift (py_get critique (py "suggestions") (JArr [])) ;;
  if truthy is_valid && negb (truthy issues) then
    _log LogValidationOK ;;; ret itinerary
  else
    n <- lift (py_len issues) ;;
    _log (LogIssuesDetected n) ;;;
    items <- lift (py_iter issues) ;;
    log_issues items ;;;
    _log LogCorrecting ;;;
    corrected <- call_llm
      {| jr_prompt := CorrectorPrompt itinerary issues suggestions;
         jr_system := false; jr_temperature_tenths := 4;
         jr_max_tokens := max_tokens_corrector cfg; jr_max_continuations := 1 |} ;;
    _log LogCorrected ;;;
    ret corrected.

(** What [_self_correct] does before its [try]: the weather text of
    the critique prompt. *)
Definition self_correct_prelude : M (option (list WeatherDay)) :=
  _log LogSelfCorrection ;;;
  weather_str <- weather_for_prompt LogDegradedCritique ;;
  _log LogCritique ;;;
  ret weather_str.

(** [_self_correct] *)
Definition _self_correct (itinerary : Json) : M Json :=
  weather_str <- self_correct_prelude ;;
  catch (self_correct_try itinerary weather_str)
    (fun e =>
       _log (LogSelfCorrectionError (exn_msg e)) ;;;
       _log LogReturnOriginal ;;;
       ret itinerary).

Definition record_action (action action_input result : Json) : M unit :=
  fun st => (Ok tt,
             with_history (action_history st ++
                           [{| ar_action := action; ar_input := action_input;
                               ar_result := result |}]) st).

(** The first half of the [try] of one iteration of [plan_trip]: the
    decision asked of the model, and the override rules applied to
    it.  The result is the action to execute and its input. *)
Definition decide_action : M (Json * Json) :=
  info <- get_info ;;
  history <- get_history ;;
  decision <- call_llm
    {| jr_prompt := ReactPlannerPrompt info history;
       jr_system := true; jr_temperature_tenths := 3;
       jr_max_tokens := 8000; jr_max_continuations := 1 |} ;;
  thought <- lift (py_get decision (py "thought") (JStr [])) ;;
  action <- lift (py_get decision (py "action") (JStr [])) ;;
  action_input <- lift (py_get decision (py "action_input") (JObj [])) ;;
  _log (LogThought thought) ;;;
  info <- get_info ;;
  let '(action, action_input, lines) := resolve_action action action_input info in
  log_all lines ;;;
  ret (action, action_input).

Definition plan_bundle (iteration : nat) (final_itinerary : Json) (st : Agent) : Bundle :=
  {| b_itinerary := final_itinerary;
     b_logs := logs st;
     b_weather := get_weather_list (collected_info st);
     b_success := true;
     b_error := None;
     b_metrics := Some {| iterations := iteration + 1;
                          actions_count := length (action_history st) |} |}.

Definition finish_bundle (st : Agent) : Bundle :=
  {| b_itinerary := get_itinerary (collected_info st);
     b_logs := logs st;
     b_weather := get_weather_list (collected_info st);
     b_success := true;
     b_error := None;
     b_metrics := None |}.

(** The second half: the action executed.  [Some b] when the iteration
    returns the bundle [b], [None] when it falls through to the next
    iteration after the entry appended to the history. *)
Definition execute_action (iteration : nat) (action action_input : Json)
  : M (option Bundle) :=
  if action_is action GEOCODE then
    result <- _execute_geocode action_input ;;
    record_action action action_input result ;;;
    ret None
  else if action_is action WEATHER then
    result <- _execute_weather action_input ;;
    record_action action action_input result ;;;
    ret None
  else if action_is action PLAN then
    result <- _execute_plan ;;
    final_itinerary <-
      (if enable_self_correction cfg then _self_correct result else ret result) ;;
    fun st => (Ok (Some (plan_bundle iteration final_itinerary st)), st)
  else if action_is action FINISH then
    _log LogFinish ;;;
    fun st => (Ok (Some (finish_bundle st)), st)
  else
    _log (LogUnknownAction action) ;;;
    record_action action action_input JNull ;;;
    ret None.

(** The body of the [try] of one iteration of [plan_trip]. *)
Definition iteration_try (iteration : nat) : M (option Bundle) :=
  decided <- decide_action ;;
  execute_action iteration (fst decided) (snd decided).

Inductive IterationOutcome : Type :=
| Continue
| Return (b : Bundle).

(** The bundle of the [except Exception as e] handler of [plan_trip]. *)
Definition abort_bundle (e : Exn) (st : Agent) : Bundle :=
  {| b_itinerary := JObj [];
     b_logs := logs st;
     b_weather := [];
     b_success := false;
     b_error := Some (exn_msg e);
     b_metrics := None |}.

(** One iteration of the [for] loop of [plan_trip]. *)
Definition iteration_step (iteration : nat) (st : Agent) : IterationOutcome * Agent :=
  let st := with_logs (logs st ++ [LogIteration (iteration + 1)]) st in
  match iteration_try iteration st with
  | (Ok None, st') => (Continue, st')
  | (Ok (Some b), st') => (Return b, st')
  | (Raise e, st') =>
      let st'' := with_logs (logs st' ++ [LogError (exn_msg e)]) st' in
      (Return (abort_bundle e st''), st'')
  end.

(** [for iteration in range(self.max_iterations)]: [Some b] when an
    iteration returns [b], [None] when the range is exhausted. *)
Fixpoint react_loop (range : list nat) (st : Agent) : option Bundle * Agent :=
  match range with
  | [] => (None, st)
  | iteration :: rest =>
    match iteration_step iteration st with
    | (Continue, st') => react_loop rest st'
    | (Return b, st') => (Some b, st')
    end
  end.

Definition initial_info (a : TripArgs) : Ctx :=
  {| destination := a_destination a; start_date := a_start_date a;
     end_date := a_end_date a; profile := a_profile a; budget := a_budget a;
     interests := a_interests a; pace := a_pace a; constraints := a_constraints a;
     ci_geocode := None; ci_weather := None; ci_weather_unavailable := false;
     ci_itinerary := None |}.

(** The state after the reset at the start of [plan_trip]. *)
Definition reset (a : TripArgs) (st : Agent) : Agent :=
  {| action_history := []; collected_info := initial_info a; logs := [];
     llm_calls := llm_calls st; tool_calls := tool_calls st |}.

(** The bundle returned after the loop. *)
Definition max_iterations_bundle (st : Agent) : Bundle :=
  {| b_itinerary := get_itinerary (collected_info st);
     b_logs := logs st;
     b_weather := get_weather_list (collected_info st);
     b_success := false;
     b_error := Some (MsgText (py "Max iterations"));
     b_metrics := None |}.

(** [plan_trip] *)
Definition plan_trip (a : TripArgs) (st : Agent) : Bundle * Agent :=
  match react_loop (seq 0 (Z.to_nat (max_iterations cfg))) (reset a st) with
  | (Some b, st') => (b, st')
  | (None, st') =>
      let st'' := with_logs (logs st' ++ [LogMaxIterations]) st' in
      (max_iterations_bundle st'', st'')
  end.

End Agent.

(** An agent before a run; [plan_trip] resets the history, the collected
    information and the logs. *)
Definition new_agent : Agent :=
  {| action_history := [];
     collected_info :=
       {| destination := []; start_date := []; end_date := []; profile := [];
          budget := []; interests := []; pace := []; constraints := [];
          ci_geocode := None; ci_weather := None; ci_weather_unavailable := false;
          ci_itinerary := None |};
     logs := []; llm_calls := 0%nat; tool_calls := 0%nat |}.

End Runner.

(* ===================================================================== *)
(** * The schema of models.py, for exactly typed input *)
(* ===================================================================== *)

(** [Itinerary.model_validate(x).model_dump()] is a parameter of the
    runner above.  This validator is one instance, used to run the agent
    on concrete replies: it follows the fields of [Activity], [DayPlan]
    and [Itinerary] (required fields, defaults, extra keys ignored) on
    input whose values have exactly the declared types; the coercions
    pydantic adds (a numeric string for an [int], and the like) are not
    modelled, and such input is rejected. *)
Module Schema.

Definition invalid {A} (field : text) : Res A :=
  Raise (mkExn ValidationError (MsgText field)).

Definition required_str (f : list (text * Json)) (k : text) : Res Json :=
  match dict_lookup k f with
  | Some (JStr s) => Ok (JStr s)
  | _ => invalid k
  end.

Definition optional_str (f : list (text * Json)) (k : text) : Res Json :=
  match dict_lookup k f with
  | None => Ok JNull
  | Some JNull => Ok JNull
  | Some (JStr s) => Ok (JStr s)
  | Some _ => invalid k
  end.

Definition res_bind {A B} (r : Res A) (k : A -> Res B) : Res B :=
  match r with
  | Ok a => k a
  | Raise e => Raise e
  end.

Fixpoint validate_all (check : Json -> Res Json) (l : list Json) : Res (list Json) :=
  match l with
  | [] => Ok []
  | x :: l' =>
      res_bind (check x) (fun y =>
      res_bind (validate_all check l') (fun ys => Ok (y :: ys)))
  end.

Definition list_field (check : Json -> Res Json) (required : bool)
           (f : list (text * Json)) (k : text) : Res Json :=
  match dict_lookup k f with
  | Some (JArr l) => res_bind (validate_all check l) (fun l' => Ok (JArr l'))
  | None => if required then invalid k else Ok (JArr [])
  | Some _ => invalid k
  end.

Definition validate_activity (v : Json) : Res Json :=
  match v with
  | JObj f =>
      res_bind (required_str f (py "name")) (fun name =>
      res_bind (required_str f (py "location")) (fun location =>
      res_bind (required_str f (py "duration")) (fun duration =>
      res_bind (required_str f (py "cost_estimate")) (fun cost_estimate =>
      res_bind (match dict_lookup (py "indoor") f with
                | Some (JBool b) => Ok (JBool b)
                | _ => invalid (py "indoor")
                end) (fun indoor =>
      res_bind (optional_str f (py "description")) (fun description =>
      Ok (JObj [(py "name", name); (py "location", location);
                (py "duration", duration); (py "cost_estimate", cost_estimate);
                (py "indoor", indoor); (py "description", description)])))))))
  | _ => invalid (py "Activity")
  end.

Definition activity_field (f : list (text * Json)) (k : text) : Res Json :=
  match dict_lookup k f with
  | Some v => validate_activity v
  | None => invalid k
  end.

Definition validate_day_plan (v : Json) : Res Json :=
  match v with
  | JObj f =>
      res_bind (match dict_lookup (py "day_number") f with
                | Some (JInt n) => Ok (JInt n)
                | _ => invalid (py "day_number")
                end) (fun day_number =>
      res_bind (required_str f (py "date")) (fun date =>
      res_bind (activity_field f (py "morning")) (fun morning =>
      res_bind (activity_field f (py "afternoon")) (fun afternoon =>
      res_bind (activity_field f (py "evening")) (fun evening =>
      res_bind (list_field validate_activity false f (py "alternatives")) (fun alternatives =>
      res_bind (optional_str f (py "notes")) (fun notes =>
      Ok (JObj [(py "day_number", day_number); (py "date", date);
                (py "morning", morning); (py "afternoon", afternoon);
                (py "evening", evening); (py "alternatives", alternatives);
                (py "notes", notes)]))))))))
  | _ => invalid (py "DayPlan")
  end.

Definition a_string (v : Json) : Res Json :=
  match v with
  | JStr s => Ok (JStr s)
  | _ => invalid (py "str")
  end.

Definition model_validate (v : Json) : Res Json :=
  match v with
  | JObj f =>
      res_bind (list_field validate_day_plan true f (py "daily_plans")) (fun daily_plans =>
      res_bind (list_field a_string false f (py "justifications")) (fun justifications =>
      res_bind (list_field a_string false f (py "checklist")) (fun checklist =>
      Ok (JObj [(py "daily_plans", daily_plans); (py "justifications", justifications);
                (py "checklist", checklist)]))))
  | _ => invalid (py "Itinerary")
  end.

End Schema.

(* ===================================================================== *)
(** * Scripted collaborators *)
(* ===================================================================== *)

(** Concrete clients and tools, to run the agent on: an LLM client that
    answers its calls from a script, a geocoder that knows one city and
    a weather service with a fixed answer. *)
Module Scenario.
Import Runner.

Definition timeout_error : Exn := mkExn RuntimeError (MsgTimeout 300 8000).

(** The n-th call gets the n-th entry of the script; a call past the
    script's end times out. *)
Definition scripted (script : list (Res Json)) : nat -> JsonRequest -> Res Json :=
  fun n _ => nth n script (Raise timeout_error).

Definition decision (action : text) (action_input : Json) : Json :=
  JObj [(py "thought", JStr (py "next")); (py "action", JStr action);
        (py "action_input", action_input)].

Definition paris : GeoResult :=
  {| geo_name := JStr (py "Paris"); geo_country := JStr (py "France");
     geo_lat := JFloat 488534 (-4); geo_lon := JFloat 23488 (-4);
     geo_admin1 := JStr (py "Ile-de-France") |}.

Definition geocode_paris : nat -> Json -> Res (option GeoResult) :=
  fun _ city => Ok (if action_is city (py "Paris") then Some paris else None).

Definition sunny : WeatherDay :=
  {| w_date := JStr (py "2025-12-20"); w_temp_min := JInt 3; w_temp_max := JInt 9;
     w_precipitation_probability := JInt 10; w_wind_speed := JInt 12;
     w_description := JStr (py "Froid - Sec") |}.

Definition weather_sunny : nat -> Json -> Json -> Json -> Json -> Res (list WeatherDay) :=
  fun _ _ _ _ _ => Ok [sunny].

Definition weather_none : nat -> Json -> Json -> Json -> Json -> Res (list WeatherDay) :=
  fun _ _ _ _ _ => Ok [].

Definition trip : TripArgs :=
  {| a_destination := py "Paris"; a_start_date := py "2025-12-20";
     a_end_date := py "2025-12-22"; a_profile := py "couple"; a_budget := py "moyen";
     a_interests := [py "gastronomie"]; a_pace := py "calme"; a_constraints := [] |}.

(** An itinerary without days, as the model sends it and as validation
    returns it. *)
Definition empty_plan : Json := JObj [(py "daily_plans", JArr [])].
Definition empty_plan_dumped : Json :=
  JObj [(py "daily_plans", JArr []); (py "justifications", JArr []);
        (py "checklist", JArr [])].

Definition critique_invalid : Json :=
  JObj [(py "is_valid", JBool false); (py "issues", JArr []);
        (py "suggestions", JArr [])].

(** A run that geocodes, fetches the weather and then times out. *)
Definition llm_then_timeout : nat -> JsonRequest -> Res Json :=
  scripted
    [Ok (decision GEOCODE (JObj [(py "city", JStr (py "Paris"))]));
     Ok (decision WEATHER
           (JObj [(py "lat", JInt 48); (py "lon", JInt 2);
                  (py "start_date", JStr (py "2025-12-20"));
                  (py "end_date", JStr (py "2025-12-22"))]))].

(** A run whose plan is generated and whose critique request times out. *)
Definition llm_critique_timeout : nat -> JsonRequest -> Res Json :=
  scripted [Ok empty_plan].

(** A run that plans at once, is told by the critique to correct the
    plan, and gets an empty object as the corrected itinerary. *)
Definition llm_corrects_to_empty : nat -> JsonRequest -> Res Json :=
  scripted [Ok (decision PLAN (JObj [])); Ok empty_plan; Ok critique_invalid; Ok (JObj [])].

(** A client whose call number [n] returns a critique that asks for a
    correction, and whose other calls return [corrected]. *)
Definition llm_correcting (n : nat) (corrected : Json) : nat -> JsonRequest -> Res Json :=
  fun k _ => if (k =? n)%nat then Ok critique_invalid else Ok corrected.

End Scenario.

(* ===================================================================== *)
(** * Specification-level notions *)
(* ===================================================================== *)

Module Spec.

(** The characters of a string value between its quotes: any character
    but a quote or a backslash, or a backslash and the character it
    escapes.  Braces are allowed. *)
Inductive string_body : text -> Prop :=
| sb_nil : string_body []
| sb_char c s : c <> QUOTE -> c <> BACKSLASH -> string_body s -> string_body (c :: s)
| sb_escape c s : string_body s -> string_body (BACKSLASH :: c :: s).

(** Text whose braces are balanced outside string values and whose
    string values are closed. *)
Inductive balanced : text -> Prop :=
| bal_nil : balanced []
| bal_char c s :
    c <> QUOTE -> c <> LBRACE -> c <> RBRACE -> balanced s -> balanced (c :: s)
| bal_string b s :
    string_body b -> balanced s -> balanced (QUOTE :: b ++ QUOTE :: s)
| bal_object b s :
    balanced b -> balanced s -> balanced (LBRACE :: b ++ RBRACE :: s).

(** A depth-balanced object: an opening brace, a balanced body, the
    closing brace. *)
Definition json_object (o : text) : Prop :=
  exists b, balanced b /\ o = LBRACE :: b ++ [RBRACE].

(** After optional whitespace comes a closing brace or bracket. *)
Definition closes_after (s : text) : bool :=
  match snd (take_spaces s) with
  | d :: _ => is_closer d
  | [] => false
  end.

(** Some comma of [s] is followed by optional whitespace and a closing
    brace or bracket. *)
Fixpoint has_trailing_comma (s : text) : bool :=
  match s with
  | [] => false
  | c :: s' => ((c =? COMMA) && closes_after s') || has_trailing_comma s'
  end.

Definition not_comma (c : char) : bool := negb (c =? COMMA).

(** The number of iterations a log records: its iteration headers. *)
Definition is_iteration_log (m : Runner.LogEntry) : bool :=
  match m with
  | Runner.LogIteration _ => true
  | _ => false
  end.

Definition count_iterations (l : list Runner.LogEntry) : nat :=
  length (filter is_iteration_log l).

(** Weather is marked unavailable only once a weather result (the empty
    one) is stored. *)
Definition info_coherent (c : Runner.Ctx) : Prop :=
  Runner.ci_weather_unavailable c = true -> Runner.ci_weather c <> None.

(** The action and input that the override rules resolve to. *)
Definition resolved (action input : Json) (info : Runner.Ctx) : Json * Json :=
  fst (Runner.resolve_action action input info).

(** [frame st st']: from [st] to [st'] the action history is unchanged,
    no iteration header is logged, and the collected information stays
    coherent. *)
Definition frame (st st' : Runner.Agent) : Prop :=
  Runner.action_history st' = Runner.action_history st
  /\ count_iterations (Runner.logs st') = count_iterations (Runner.logs st)
  /\ (info_coherent (Runner.collected_info st) -> info_coherent (Runner.collected_info st')).

Definition preserves {A} (m : Runner.M A) : Prop := forall st, frame st (snd (m st)).

End Spec.
Import Spec.

(* ===================================================================== *)
(** * More of llm_client.py: the excerpt of a parse failure *)
(* ===================================================================== *)

Module ParseFailure.

(** [s[:k]] and [s[k:]] for any integer [k]: a negative index counts
    from the end, and an index out of range is clipped. *)
Definition slice_to (s : text) (k : Z) : text :=
  if (0 <=? k)%Z then firstn (Z.to_nat k) s
  else firstn (length s - Z.to_nat (- k)) s.

Definition slice_from (s : text) (k : Z) : text :=
  if (0 <=? k)%Z then skipn (Z.to_nat k) s
  else skipn (length s - Z.to_nat (- k)) s.

(** The separator of the two halves: a line feed, three dots, a line
    feed. *)
Definition ellipsis : text := [LF; 46; 46; 46; LF].

(** [JSONParseError.excerpt]: [response] and [cleaned] are the fields of
    the exception; [-max_chars // 2] is the floor of [-max_chars / 2]. *)
Definition excerpt (response cleaned : text) (max_chars : Z) : text :=
  let t := strip (match cleaned with
                  | _ :: _ => cleaned
                  | [] => response
                  end) in
  if (Z.of_nat (length t) <=? max_chars)%Z then t
  else
    let head := slice_to t (max_chars / 2) in
    let tail := slice_from t (- max_chars / 2) in
    head ++ ellipsis ++ tail.

End ParseFailure.
Import ParseFailure.

(* ===================================================================== *)
(** * [generate_json] with a [json.loads] that can raise anything *)
(* ===================================================================== *)

(** [json.loads] returns a value, raises [json.JSONDecodeError], or
    raises another exception (a [ValueError] for an integer with too
    many digits, a [RecursionError] for a text nested too deeply).
    [generate_json] catches the [JSONDecodeError] only: this module is
    [generate_json] again, statement by statement, with the three
    outcomes told apart. *)
Module LLMClientRaising.

Inductive Loaded : Type :=
| Parsed (v : Json)
| NotJSON                 (* [json.JSONDecodeError] *)
| LoadRaises (e : Exn).   (* any other exception *)

(** [if s: try: return json.loads(s) except JSONDecodeError: pass] for an
    optional string [s]; [NotJSON] also when the [if] is not taken. *)
Definition loads_if (json_loads : text -> Loaded) (s : option text) : Loaded :=
  match s with
  | Some ((_ :: _) as c) => json_loads c
  | _ => NotJSON
  end.

Section GenerateJson.
Variable json_loads : text -> Loaded.
(** [self.generate], by the number of calls this call of
    [generate_json] made before. *)
Variable generate : nat -> GenRequest -> Res text.

Variable the_prompt : text.
Variable the_system : option text.
Variable the_temperature : Z.
Variable the_max_tokens : Z.
Variable max_continuations : Z.

(** [for i in range(max_continuations)]: [Ok (Some v)] when the loop
    returns [v], [Ok None] when it ends, with the text accumulated. *)
Fixpoint continuation_loop (rounds : list Z) (calls : nat) (tail combined : text)
  : Res (option Json) * text :=
  match rounds with
  | [] => (Ok None, combined)
  | i :: rest =>
    match generate calls (continuation_request the_system the_max_tokens tail) with
    | Raise e => (Raise e, combined)
    | Ok continuation =>
      let combined := combined ++ _strip_code_fences continuation in
      match _find_first_complete_json_object combined with
      | Some ((_ :: _) as complete_after) =>
        match json_loads complete_after with
        | Parsed v => (Ok (Some v), combined)
        | NotJSON =>
            if (i <? max_continuations - 1)%Z
            then continuation_loop rest (S calls) tail combined
            else (Ok None, combined)
        | LoadRaises e => (Raise e, combined)
        end
      | _ => continuation_loop rest (S calls) tail combined
      end
    end
  end.

(** The handler of the [JSONDecodeError] of [json.loads(response)]. *)
Definition repair (response : text) : Res Json :=
  let cleaned := _strip_code_fences response in
  match json_loads cleaned with
  | Parsed v => Ok v
  | LoadRaises e => Raise e
  | NotJSON =>
    let extracted := _extract_json_object cleaned in
    match loads_if json_loads extracted with
    | Parsed v => Ok v
    | LoadRaises e => Raise e
    | NotJSON =>
      let complete := _find_first_complete_json_object cleaned in
      match loads_if json_loads complete with
      | Parsed v => Ok v
      | LoadRaises e => Raise e
      | NotJSON =>
        let continued :=
          if (0 <? max_continuations)%Z && _is_likely_truncated_json cleaned then
            continuation_loop (map Z.of_nat (seq 0 (Z.to_nat max_continuations)))
                              1%nat (last_chars 1000 cleaned) cleaned
          else (Ok None, cleaned) in
        match continued with
        | (Raise e, _) => Raise e
        | (Ok (Some v), _) => Ok v
        | (Ok None, combined) =>
          let candidate :=
            match py_or (py_or complete extracted) (Some combined) with
            | Some c => c
            | None => combined
            end in
          let repaired :=
            _remove_trailing_commas (_escape_control_chars_in_strings candidate) in
          match json_loads repaired with
          | Parsed v => Ok v
          | LoadRaises e => Raise e
          | NotJSON =>
              Raise (mkExn (JSONParseError response
                              (match repaired with [] => cleaned | _ => repaired end))
                           (MsgJSONParse the_max_tokens))
          end
        end
      end
    end
  end.

Definition generate_json : Res Json :=
  match generate 0%nat {| prompt := UserPrompt the_prompt;
                          system := the_system;
                          temperature_tenths := the_temperature;
                          json_mode := true;
                          max_tokens := the_max_tokens |} with
  | Raise e => Raise e
  | Ok response =>
    let cleaned0 := _strip_code_fences response in
    let complete0 := _find_first_complete_json_object cleaned0 in
    match loads_if json_loads complete0 with
    | Parsed v => Ok v
    | LoadRaises e => Raise e
    | NotJSON =>
      match json_loads response with
      | Parsed v => Ok v
      | LoadRaises e => Raise e
      | NotJSON => repair response
      end
    end
  end.

End GenerateJson.

(** A [json.loads] that raises nothing but [JSONDecodeError], as the
    first model of [generate_json] takes it. *)
Definition decode_only (json_loads : text -> Loaded) : text -> option Json :=
  fun t => match json_loads t with
           | Parsed v => Some v
           | _ => None
           end.

End LLMClientRaising.

(* ===================================================================== *)
(** * The tools: tools/geocode.py and tools/weather.py *)
(* ===================================================================== *)

(** The two tools send one HTTP request and read the JSON body of the
    response.  The request is a parameter: either it raises an exception
    of [requests] ([requests.RequestException]), or it gives a response
    with a status code and a body that [response.json()] parses to
    [data].  A body that is not JSON is not modelled. *)
Module Tools.

Inductive HttpReply : Type :=
| HttpFails
| HttpResponse (status : Z) (data : Json).

Notation "x <-- m ;; k" := (Schema.res_bind m (fun x => k))
  (at level 61, m at next level, right associativity).

(** [v[i]] for a non-negative [i].  An object read from JSON has string
    keys only, so an integer key is missing. *)
Definition py_index (v : Json) (i : nat) : Res Json :=
  match v with
  | JArr l =>
      match nth_error l i with
      | Some x => Ok x
      | None => Raise (mkExn OtherException (MsgText (py "list index out of range")))
      end
  | JStr s =>
      match nth_error s i with
      | Some c => Ok (JStr [c])
      | None => Raise (mkExn OtherException (MsgText (py "string index out of range")))
      end
  | JObj _ => Raise (mkExn KeyError (MsgText (py "key")))
  | _ => Raise (mkExn TypeError (MsgText (py "object is not subscriptable")))
  end.

(** [response.raise_for_status()] raises for the codes 400 to 599. *)
Definition is_error_status (status : Z) : bool :=
  ((400 <=? status) && (status <? 600))%Z.

(** [geocode]: the city goes into the request. *)
Definition geocode (reply : HttpReply) : Res (option Runner.GeoResult) :=
  match reply with
  | HttpFails => Ok None
  | HttpResponse status data =>
    if is_error_status status then Ok None
    else
      results <-- py_get data (py "results") JNull ;;
      if negb (truthy results) then Ok None
      else
        result <-- py_index results 0 ;;
        name <-- py_get result (py "name") JNull ;;
        country <-- py_get result (py "country") JNull ;;
        lat <-- py_get result (py "latitude") JNull ;;
        lon <-- py_get result (py "longitude") JNull ;;
        admin1 <-- py_get result (py "admin1") (JStr []) ;;
        Ok (Some {| Runner.geo_name := name; Runner.geo_country := country;
                    Runner.geo_lat := lat; Runner.geo_lon := lon;
                    Runner.geo_admin1 := admin1 |})
  end.

(** ** [_generate_description] *)

(** The order of a number and an integer literal.  Python compares an
    [int], a [bool] (which is 0 or 1) or a [float] with an [int] by
    value; a [JFloat] stands for the float whose value is its mantissa
    times ten to its exponent.  [None], a string, a list and a dict
    cannot be ordered with an [int]. *)
Definition number_compare (v : Json) (n : Z) : option comparison :=
  match v with
  | JInt k => Some (k ?= n)%Z
  | JBool b => Some ((if b then 1 else 0) ?= n)%Z
  | JFloat m e =>
      Some (if (0 <=? e)%Z then (m * 10 ^ e ?= n)%Z else (m ?= n * 10 ^ (- e))%Z)
  | _ => None
  end.

Definition not_supported (operator : text) : Exn :=
  mkExn TypeError (MsgText (operator ++ py " not supported between instances")).

(** [v > n] and [v < n] *)
Definition py_gt (v : Json) (n : Z) : Res bool :=
  match number_compare v n with
  | Some c => Ok (match c with Gt => true | _ => false end)
  | None => Raise (not_supported (py ">"))
  end.

Definition py_lt (v : Json) (n : Z) : Res bool :=
  match number_compare v n with
  | Some c => Ok (match c with Lt => true | _ => false end)
  | None => Raise (not_supported (py "<"))
  end.

(** [v and v > n] and [v and v < n] as conditions: the comparison is
    made for a truthy [v] only. *)
Definition and_gt (v : Json) (n : Z) : Res bool :=
  if truthy v then py_gt v n else Ok false.

Definition and_lt (v : Json) (n : Z) : Res bool :=
  if truthy v then py_lt v n else Ok false.

(** [sep.join(parts)] *)
Fixpoint join (sep : text) (parts : list text) : text :=
  match parts with
  | [] => []
  | [x] => x
  | x :: rest => x ++ sep ++ join sep rest
  end.

(** The word with its two accented letters (U+00E9). *)
Definition Tempere : text := py "Temp" ++ [233] ++ py "r" ++ [233].

Definition _generate_description (temp_max temp_min precip_prob wind_speed : Json)
  : Res Json :=
  hot <-- and_gt temp_max 25 ;;
  temperature <--
    (if hot then Ok (py "Chaud")
     else cold <-- and_lt temp_max 10 ;;
          Ok (if cold then py "Froid" else Tempere)) ;;
  rain_likely <-- and_gt precip_prob 70 ;;
  rain <--
    (if rain_likely then Ok (py "Pluie probable")
     else rain_risk <-- and_gt precip_prob 40 ;;
          Ok (if rain_risk then py "Risque de pluie" else py "Sec")) ;;
  windy <-- and_gt wind_speed 30 ;;
  let conditions := [temperature; rain] ++ (if windy then [py "Venteux"] else []) in
  Ok (JStr (join (py " - ") conditions)).

(** ** [get_weather] *)

Section Weather.
(** The function that describes a day: [_generate_description] above
    in the tool itself. *)
Variable describe : Json -> Json -> Json -> Json -> Res Json.

(** [column[i] if i < len(column) else default] *)
Definition item_or (column : Json) (i : nat) (default : Json) : Res Json :=
  n <-- py_len column ;;
  if (i <? n)%nat then py_index column i else Ok default.

(** [for i, date in enumerate(dates)] *)
Fixpoint weather_loop (dates : list Json) (i : nat)
         (temp_max temp_min precip_prob wind_speed : Json) : Res (list Runner.WeatherDay) :=
  match dates with
  | [] => Ok []
  | date :: rest =>
      t_max <-- item_or temp_max i JNull ;;
      t_min <-- item_or temp_min i JNull ;;
      p_prob <-- item_or precip_prob i (JInt 0) ;;
      w_speed <-- item_or wind_speed i (JInt 0) ;;
      description <-- describe t_max t_min p_prob w_speed ;;
      weather_list <-- weather_loop rest (S i) temp_max temp_min precip_prob wind_speed ;;
      Ok ({| Runner.w_date := date; Runner.w_temp_min := t_min;
             Runner.w_temp_max := t_max;
             Runner.w_precipitation_probability := p_prob;
             Runner.w_wind_speed := w_speed;
             Runner.w_description := description |} :: weather_list)
  end.

(** [get_weather]: the coordinates and the dates go into the request. *)
Definition get_weather (reply : HttpReply) : Res (list Runner.WeatherDay) :=
  match reply with
  | HttpFails => Ok []
  | HttpResponse status data =>
    if negb (status =? 200)%Z then Ok []
    else
      daily <-- py_get data (py "daily") (JObj []) ;;
      dates <-- py_get daily (py "time") (JArr []) ;;
      temp_max <-- py_get daily (py "temperature_2m_max") (JArr []) ;;
      temp_min <-- py_get daily (py "temperature_2m_min") (JArr []) ;;
      precip_prob <-- py_get daily (py "precipitation_probability_max") (JArr []) ;;
      wind_speed <-- py_get daily (py "wind_speed_10m_max") (JArr []) ;;
      items <-- py_iter dates ;;
      weather_loop items 0 temp_max temp_min precip_prob wind_speed
  end.

End Weather.

End Tools.

(* ===================================================================== *)
(** * More specification-level notions *)
(* ===================================================================== *)

Module SpecMore.

(** The character of a code fence. *)
Definition BACKTICK : char := 96.

(** No raw control character (below 0x20) stands inside a string value,
    unless it directly follows a backslash: read with the states of the
    scanner of [_escape_control_chars_in_strings]. *)
Fixpoint control_free (t : text) (in_string escaped : bool) : bool :=
  match t with
  | [] => true
  | ch :: rest =>
    if in_string then
      if escaped then control_free rest true false
      else if ch =? BACKSLASH then control_free rest true true
      else if ch =? QUOTE then control_free rest false escaped
      else negb (ch <? 32) && control_free rest true escaped
    else control_free rest (ch =? QUOTE) escaped
  end.

(** Every value the pipeline can return is the parse of some text. *)
Definition parsed_value (json_loads : text -> LLMClientRaising.Loaded) (v : Json) : Prop :=
  exists t, json_loads t = LLMClientRaising.Parsed v.

(** [keeps R m]: whatever [m] returns or raises, the state it leaves is
    related by [R] to the state it started from. *)
Definition keeps (R : Runner.Agent -> Runner.Agent -> Prop) {A} (m : Runner.M A) : Prop :=
  forall st, R st (snd (m st)).

(** The collected information, the action history and the number of
    tool calls are the same in both states. *)
Definition untouched (st st' : Runner.Agent) : Prop :=
  Runner.collected_info st' = Runner.collected_info st
  /\ Runner.action_history st' = Runner.action_history st
  /\ Runner.tool_calls st' = Runner.tool_calls st.

(** The stored itinerary is the same in both states. *)
Definition itinerary_kept (st st' : Runner.Agent) : Prop :=
  Runner.ci_itinerary (Runner.collected_info st')
  = Runner.ci_itinerary (Runner.collected_info st).

(** The parameters of the trip, set when a run starts. *)
Definition trip_of (c : Runner.Ctx) : Runner.TripArgs :=
  {| Runner.a_destination := Runner.destination c;
     Runner.a_start_date := Runner.start_date c;
     Runner.a_end_date := Runner.end_date c;
     Runner.a_profile := Runner.profile c;
     Runner.a_budget := Runner.budget c;
     Runner.a_interests := Runner.interests c;
     Runner.a_pace := Runner.pace c;
     Runner.a_constraints := Runner.constraints c |}.

(** From [st] to [st'] nothing is taken back: the logs and the action
    history are extended at their end, the call counters do not
    decrease, the parameters of the trip are the same, and a key of the
    collected information that is set stays set. *)
Definition grows (st st' : Runner.Agent) : Prop :=
  (exists l, Runner.logs st' = Runner.logs st ++ l)
  /\ (exists h, Runner.action_history st' = Runner.action_history st ++ h)
  /\ (Runner.llm_calls st <= Runner.llm_calls st')%nat
  /\ (Runner.tool_calls st <= Runner.tool_calls st')%nat
  /\ trip_of (Runner.collected_info st') = trip_of (Runner.collected_info st)
  /\ (Runner.ci_geocode (Runner.collected_info st) <> None ->
      Runner.ci_geocode (Runner.collected_info st') <> None)
  /\ (Runner.ci_weather (Runner.collected_info st) <> None ->
      Runner.ci_weather (Runner.collected_info st') <> None)
  /\ (Runner.ci_weather_unavailable (Runner.collected_info st) = true ->
      Runner.ci_weather_unavailable (Runner.collected_info st') = true)
  /\ (Runner.ci_itinerary (Runner.collected_info st) <> None ->
      Runner.ci_itinerary (Runner.collected_info st') <> None).

(** [spends l t m]: [m] makes at most [l] calls to the LLM client and
    at most [t] calls to the tools. *)
Definition spends (l t : nat) {A} (m : Runner.M A) : Prop :=
  forall st,
    (Runner.llm_calls (snd (m st)) <= Runner.llm_calls st + l)%nat
    /\ (Runner.tool_calls (snd (m st)) <= Runner.tool_calls st + t)%nat.

(** The exception classes after which [_execute_plan] asks again. *)
Definition retryable (c : ExnClass) : bool :=
  match c with
  | JSONParseError _ _ | ValueError | ValidationError => true
  | _ => false
  end.

(** A value that [_generate_description] can take: it is falsy, or it
    is a number. *)
Definition comparable (v : Json) : bool :=
  negb (truthy v)
  || match Tools.number_compare v 0 with Some _ => true | None => false end.

(** The description of a day, when there is one. *)
Definition described (temp_max temp_min precip_prob wind_speed : Json) : Json :=
  match Tools._generate_description temp_max temp_min precip_prob wind_speed with
  | Ok description => description
  | Raise _ => JNull
  end.

(** The entry that [get_weather] builds for the date number [i], from
    columns that are arrays: a value missing from a column is [None]
    for a temperature and [0] for the rain probability and the wind. *)
Definition weather_row (describe : Json -> Json -> Json -> Json -> Json)
           (tmax tmin pp ws : list Json) (entry : nat * Json) : Runner.WeatherDay :=
  let i := fst entry in
  {| Runner.w_date := snd entry;
     Runner.w_temp_min := nth i tmin JNull;
     Runner.w_temp_max := nth i tmax JNull;
     Runner.w_precipitation_probability := nth i pp (JInt 0);
     Runner.w_wind_speed := nth i ws (JInt 0);
     Runner.w_description :=
       describe (nth i tmax JNull) (nth i tmin JNull) (nth i pp (JInt 0)) (nth i ws (JInt 0)) |}.

(** The request of a tool did not succeed: it raised, or the status of
    the response is an error. *)
Definition request_failed (reply : Tools.HttpReply) : Prop :=
  reply = Tools.HttpFails
  \/ exists status data,
      reply = Tools.HttpResponse status data /\ Tools.is_error_status status = true.

End SpecMore.
Import SpecMore.


(* ===================================================================== *)
(** * Text lemmas *)
(* ===================================================================== *)

Lemma text_eqb_eq a b : text_eqb a b = true <-> a = b.
Proof. unfold text_eqb. destruct (list_eq_dec N.eq_dec a b); split; congruence. Qed.

Lemma text_eqb_refl a : text_eqb a a = true.
Proof. apply text_eqb_eq. reflexivity. Qed.

Lemma find_app_absent c p s :
  ~ In c p -> find c (p ++ c :: s) = Some (length p).
Proof.
  induction p as [|x p IH]; simpl; intros H.
  - rewrite N.eqb_refl. reflexivity.
  - destruct (N.eqb_spec x c) as [E|E]; [exfalso; apply H; left; exact E|].
    rewrite IH; [reflexivity|]. intros I. apply H. right. exact I.
Qed.

Lemma find_absent c p : ~ In c p -> find c p = None.
Proof.
  induction p as [|x p IH]; simpl; intros H; [reflexivity|].
  destruct (N.eqb_spec x c) as [E|E]; [exfalso; apply H; left; exact E|].
  rewrite IH; [reflexivity|]. intros I. apply H. right. exact I.
Qed.

Lemma lstrip_nonspace c s : isspace c = false -> lstrip (c :: s) = c :: s.
Proof. intros H. simpl. rewrite H. reflexivity. Qed.

Lemma strip_delimited a b m :
  isspace a = false -> isspace b = false -> strip (a :: m ++ [b]) = a :: m ++ [b].
Proof.
  intros Ha Hb. unfold strip, rstrip. rewrite lstrip_nonspace by exact Ha.
  assert (R : rev (a :: m ++ [b]) = b :: rev (a :: m)).
  { change (a :: m ++ [b]) with ((a :: m) ++ [b]).
    rewrite rev_app_distr. reflexivity. }
  rewrite R, lstrip_nonspace by exact Hb.
  change (rev (b :: rev (a :: m))) with (rev (rev (a :: m)) ++ [b]).
  rewrite rev_involutive. reflexivity.
Qed.

(* ===================================================================== *)
(** * Complete-object extraction *)
(* ===================================================================== *)

Lemma find_first_complete_unfold t :
  _find_first_complete_json_object t =
  match find LBRACE t with
  | None => None
  | Some start =>
    match scan_object (skipn start t) start 0%Z false false with
    | Some i => Some (strip (slice t start (i + 1)))
    | None => None
    end
  end.
Proof. destruct t; reflexivity. Qed.

Lemma scan_string_body b :
  string_body b ->
  forall rest i d,
    scan_object (b ++ QUOTE :: rest) i d true false
    = scan_object rest (i + length b + 1) d false false.
Proof.
  induction 1 as [|c s Hq Hb _ IH|c s _ IH]; intros rest i d.
  - simpl. replace (i + 0 + 1)%nat with (S i) by lia. reflexivity.
  - simpl.
    destruct (N.eqb_spec c BACKSLASH) as [E|_]; [contradiction|].
    destruct (N.eqb_spec c QUOTE) as [E|_]; [contradiction|].
    rewrite IH. f_equal. lia.
  - simpl. rewrite IH. f_equal. lia.
Qed.

Lemma scan_balanced b :
  balanced b ->
  forall rest i d, (0 < d)%Z ->
    scan_object (b ++ rest) i d false false
    = scan_object rest (i + length b) d false false.
Proof.
  induction 1 as [|c s Hq Hl Hr _ IH|b s Hb _ IH|b s _ IHb _ IHs]; intros rest i d Hd.
  - simpl. f_equal. lia.
  - simpl.
    destruct (N.eqb_spec c QUOTE) as [E|_]; [contradiction|].
    destruct (N.eqb_spec c LBRACE) as [E|_]; [contradiction|].
    destruct (N.eqb_spec c RBRACE) as [E|_]; [contradiction|].
    rewrite IH by exact Hd. f_equal. lia.
  - simpl. rewrite <- app_assoc. simpl.
    rewrite scan_string_body by exact Hb.
    rewrite IH by exact Hd. f_equal. rewrite length_app. simpl. lia.
  - simpl. rewrite <- app_assoc. simpl.
    rewrite IHb by lia. simpl.
    replace (d + 1 - 1 =? 0)%Z with false by (symmetry; apply Z.eqb_neq; lia).
    replace (d + 1 - 1)%Z with d by lia.
    rewrite IHs by exact Hd. f_equal. rewrite length_app. simpl. lia.
Qed.

(** The scan of an object stops on its closing brace. *)
Lemma scan_json_object b rest i :
  balanced b ->
  scan_object (LBRACE :: b ++ RBRACE :: rest) i 0%Z false false
  = Some (i + length b + 1)%nat.
Proof.
  intros Hb. simpl. rewrite scan_balanced by (exact Hb || lia).
  simpl. f_equal. lia.
Qed.

Lemma scan_bound t :
  forall i d s e k, scan_object t i d s e = Some k -> (i <= k < i + length t)%nat.
Proof.
  induction t as [|c t IH]; intros i d s e k; simpl; [discriminate|].
  intros H.
  repeat match type of H with
         | (if ?b then _ else _) = _ => destruct b
         end;
    try (apply IH in H; lia);
    try (inversion H; subst; lia).
Qed.

Lemma scan_extend t u :
  forall i d s e k,
    scan_object t i d s e = Some k -> scan_object (t ++ u) i d s e = Some k.
Proof.
  induction t as [|c t IH]; intros i d s e k; simpl; [discriminate|].
  intros H.
  repeat match type of H with
         | (if ?b then _ else _) = _ => destruct b
         end;
    try (apply IH; exact H); exact H.
Qed.

Lemma scan_truncated t u i d s e k :
  scan_object (t ++ u) i d s e = Some k -> (i + length t <= k)%nat ->
  scan_object t i d s e = None.
Proof.
  intros H L. destruct (scan_object t i d s e) as [k'|] eqn:E; [|reflexivity].
  pose proof (scan_bound _ _ _ _ _ E) as B.
  rewrite (scan_extend _ u _ _ _ _ E) in H. inversion H; subst. lia.
Qed.

Lemma slice_middle (p o s : text) n :
  n = length o -> slice (p ++ o ++ s) (length p) (length p + n) = o.
Proof.
  intros ->. unfold slice.
  rewrite skipn_app, Nat.sub_diag, skipn_all. simpl.
  replace (length p + length o - length p)%nat with (length o + 0)%nat by lia.
  rewrite firstn_app_2. simpl. apply app_nil_r.
Qed.

(** C2 (as amended): when the text before a depth-balanced object holds
    no opening brace, complete-object extraction returns exactly the
    object's text, whatever follows it and whatever its string values
    contain; and it returns nothing when the text stops inside the
    object, before its balanced closing brace. *)
Theorem complete_object_extraction (p o s : text) :
  ~ In LBRACE p -> json_object o ->
  _find_first_complete_json_object (p ++ o ++ s) = Some o
  /\ (forall t u, o = t ++ u -> u <> [] ->
        _find_first_complete_json_object (p ++ t) = None).
Proof.
  intros Hp [b [Hb ->]]. split.
  - rewrite find_first_complete_unfold. simpl app.
    rewrite find_app_absent by exact Hp.
    rewrite skipn_app, Nat.sub_diag, skipn_all. simpl skipn. simpl app at 1.
    rewrite <- app_assoc. simpl app at 2.
    rewrite scan_json_object by exact Hb.
    replace (p ++ LBRACE :: b ++ [RBRACE] ++ s)
      with (p ++ (LBRACE :: b ++ [RBRACE]) ++ s)
      by (simpl; rewrite <- app_assoc; reflexivity).
    replace (length p + length b + 1 + 1)%nat
      with (length p + length (LBRACE :: b ++ [RBRACE]))%nat
      by (simpl; rewrite length_app; simpl; lia).
    rewrite slice_middle by reflexivity.
    rewrite strip_delimited by reflexivity. reflexivity.
  - intros t u E Hu. rewrite find_first_complete_unfold.
    destruct t as [|c t].
    + rewrite app_nil_r, find_absent by exact Hp. reflexivity.
    + simpl in E. inversion E as [[Hc Ht]]. subst c.
      rewrite find_app_absent by exact Hp.
      rewrite skipn_app, Nat.sub_diag, skipn_all. simpl skipn. simpl app at 1.
      rewrite (@scan_truncated (LBRACE :: t) u (length p) 0%Z false false
                 (length p + length b + 1)%nat); [reflexivity| |].
      * simpl app. rewrite <- Ht.
        pose proof (@scan_json_object b [] (length p) Hb) as S.
        exact S.
      * assert (L : length (b ++ [RBRACE]) = length (t ++ u)) by (rewrite Ht; reflexivity).
        rewrite !length_app in L. simpl in *.
        destruct u as [|x u]; [contradiction|]. simpl in L. lia.
Qed.

Ltac char_neq := let H := fresh in intro H; vm_compute in H; discriminate.

(** The text [{"a":1}] is a depth-balanced object. *)
Lemma object_a1 : json_object (pyq "{'a':1}").
Proof.
  exists (pyq "'a':1"). split; [|reflexivity].
  apply (@bal_string (py "a") (py ":1")).
  - apply sb_char; [char_neq|char_neq|apply sb_nil].
  - repeat (apply bal_char; [char_neq|char_neq|char_neq|]). apply bal_nil.
Defined.

(** C2, refuted as stated: the prefix may not be arbitrary.  After the
    prefix [{ ] the object [{"a":1}] is not returned: the scan starts at
    the first opening brace of the text and finds it unclosed. *)
Lemma complete_object_extraction_arbitrary_prefix_fails :
  ~ (forall p o s : text,
       json_object o -> _find_first_complete_json_object (p ++ o ++ s) = Some o).
Proof.
  intros H. specialize (H (py "{ ") (pyq "{'a':1}") [] object_a1).
  vm_compute in H. discriminate.
Qed.

Lemma complete_object_extraction_witness :
  _find_first_complete_json_object (py "Sure! " ++ pyq "{'a':1}" ++ py " } bye")
  = Some (pyq "{'a':1}")
  /\ (forall t u, pyq "{'a':1}" = t ++ u -> u <> [] ->
        _find_first_complete_json_object (py "Sure! " ++ t) = None).
Proof.
  apply complete_object_extraction.
  - intros I. vm_compute in I. intuition discriminate.
  - exact object_a1.
Defined.

(* ===================================================================== *)
(** * Trailing-comma removal *)
(* ===================================================================== *)

Lemma sub_cons c s' :
  sub_trailing_comma (c :: s') =
  match match_trailing_comma (c :: s') with
  | Some (g, r) => g ++ sub_trailing_comma r
  | None => c :: sub_trailing_comma s'
  end.
Proof.
  funelim (sub_trailing_comma (c :: s'));
    match goal with E : match_trailing_comma _ = _ |- _ => rewrite E end; reflexivity.
Qed.

Lemma remove_loop_unfold s :
  remove_loop s =
  if text_eqb (sub_trailing_comma s) s then sub_trailing_comma s
  else remove_loop (sub_trailing_comma s).
Proof.
  funelim (remove_loop s);
    match goal with E : text_eqb _ _ = _ |- _ => rewrite E end; reflexivity.
Qed.

Lemma isspace_not_comma c : isspace c = true -> (c =? COMMA) = false.
Proof.
  intros H. destruct (N.eqb_spec c COMMA) as [->|]; [discriminate H|reflexivity].
Qed.

Lemma is_closer_not_comma c : is_closer c = true -> (c =? COMMA) = false.
Proof.
  intros H. destruct (N.eqb_spec c COMMA) as [->|]; [discriminate H|reflexivity].
Qed.

Lemma sub_not_comma c s :
  (c =? COMMA) = false -> sub_trailing_comma (c :: s) = c :: sub_trailing_comma s.
Proof. intros H. rewrite sub_cons. simpl. rewrite H. reflexivity. Qed.

(** A pass copies a run of whitespace. *)
Lemma sub_take_spaces s :
  forall w r, take_spaces s = (w, r) ->
              s = w ++ r /\ sub_trailing_comma s = w ++ sub_trailing_comma r.
Proof.
  induction s as [|c s IH]; intros w r; simpl.
  - intros E; inversion E; subst. split; reflexivity.
  - destruct (isspace c) eqn:Hc.
    + destruct (take_spaces s) as [w' r'] eqn:T. intros E; inversion E; subst.
      destruct (IH _ _ eq_refl) as [-> IH2]. split; [reflexivity|].
      rewrite sub_not_comma by (apply isspace_not_comma; exact Hc).
      rewrite IH2. reflexivity.
    + intros E; inversion E; subst. split; reflexivity.
Qed.

(** One pass, character by character: a comma is dropped when optional
    whitespace and a closing brace or bracket follow it, and every other
    character is copied. *)
Lemma sub_cons_structural c s :
  sub_trailing_comma (c :: s) =
  if (c =? COMMA) && closes_after s then sub_trailing_comma s
  else c :: sub_trailing_comma s.
Proof.
  rewrite sub_cons. unfold closes_after. simpl.
  destruct (c =? COMMA); simpl; [|reflexivity].
  destruct (take_spaces s) as [w r] eqn:T.
  destruct (sub_take_spaces s T) as [_ E]. simpl.
  destruct r as [|d r']; [reflexivity|].
  destruct (is_closer d) eqn:D; [|reflexivity].
  rewrite E, sub_not_comma by (apply is_closer_not_comma; exact D).
  rewrite <- app_assoc. reflexivity.
Qed.

Lemma sub_filter s :
  filter not_comma (sub_trailing_comma s) = filter not_comma s.
Proof.
  induction s as [|c s IH]; [reflexivity|].
  rewrite sub_cons_structural. simpl filter at 2. unfold not_comma at 2.
  destruct (c =? COMMA) eqn:C; simpl.
  - destruct (closes_after s); simpl; [exact IH|].
    unfold not_comma at 1. rewrite C. simpl. exact IH.
  - unfold not_comma at 1. rewrite C. simpl. f_equal. exact IH.
Qed.

Lemma sub_fixed s :
  sub_trailing_comma s = s <-> has_trailing_comma s = false.
Proof.
  induction s as [|c s IH]; [split; reflexivity|].
  rewrite sub_cons_structural. simpl.
  destruct ((c =? COMMA) && closes_after s); simpl.
  - split; [|discriminate].
    intros E. pose proof (proj1 (sub_trailing_comma_length s)) as L.
    rewrite E in L. simpl in L. lia.
  - rewrite <- IH. split; [intros E; inversion E; congruence|intros ->; reflexivity].
Qed.

Lemma remove_loop_fixed s :
  sub_trailing_comma (remove_loop s) = remove_loop s.
Proof.
  funelim (remove_loop s).
  - match goal with
    | E : text_eqb _ _ = true |- _ => pose proof (proj1 (text_eqb_eq _ _) E) as E'
    end.
    rewrite E', E'. reflexivity.
  - assumption.
Qed.

Lemma remove_loop_filter s :
  filter not_comma (remove_loop s) = filter not_comma s.
Proof.
  funelim (remove_loop s).
  - apply sub_filter.
  - match goal with IH : filter _ _ = _ |- _ => rewrite IH end. apply sub_filter.
Qed.

Lemma remove_loop_of_fixed s : sub_trailing_comma s = s -> remove_loop s = s.
Proof.
  intros E. rewrite remove_loop_unfold, E, text_eqb_refl. reflexivity.
Qed.

Lemma remove_trailing_commas_loop t : _remove_trailing_commas t = remove_loop t.
Proof. destruct t; [|reflexivity]. rewrite remove_loop_of_fixed; reflexivity. Qed.

(** C3 (as amended): trailing-comma removal is idempotent; the result
    holds no comma followed by optional whitespace and a closing brace
    or bracket; only commas are removed, every other character staying
    in place; a text without such a comma is returned as it is, and one
    with such a comma gets one more pass.  A pass goes through the text
    once: it drops a character exactly when it is a comma that optional
    whitespace and a closing brace or bracket follow, and keeps every
    other character, comma or not.  Whether a comma lies inside a string
    value plays no part. *)
Theorem remove_trailing_commas_idempotent (t : text) :
  _remove_trailing_commas (_remove_trailing_commas t) = _remove_trailing_commas t
  /\ has_trailing_comma (_remove_trailing_commas t) = false
  /\ filter not_comma (_remove_trailing_commas t) = filter not_comma t
  /\ _remove_trailing_commas t =
     (if has_trailing_comma t then _remove_trailing_commas (sub_trailing_comma t) else t)
  /\ sub_trailing_comma [] = []
  /\ (forall c s,
        sub_trailing_comma (c :: s) =
        if (c =? COMMA) && closes_after s then sub_trailing_comma s
        else c :: sub_trailing_comma s).
Proof.
  rewrite !remove_trailing_commas_loop.
  split; [|split; [|split; [|split; [|split]]]].
  - apply remove_loop_of_fixed, remove_loop_fixed.
  - apply sub_fixed, remove_loop_fixed.
  - apply remove_loop_filter.
  - destruct (has_trailing_comma t) eqn:H.
    + rewrite remove_loop_unfold at 1.
      destruct (text_eqb (sub_trailing_comma t) t) eqn:E; [|reflexivity].
      apply text_eqb_eq, sub_fixed in E. congruence.
    + apply remove_loop_of_fixed, sub_fixed, H.
  - reflexivity.
  - apply sub_cons_structural.
Qed.

(** C3, refuted as stated: a comma inside a string value is altered.  In
    [{"a": ",}"}] the comma is part of the string value [,}]; the result
    is [{"a": "}"}], whose string value is [}]. *)
Lemma remove_trailing_commas_alters_string_value :
  JsonReader.json_loads (pyq "{'a': ',}'}") = Some (JObj [(py "a", JStr (py ",}"))])
  /\ _remove_trailing_commas (pyq "{'a': ',}'}") = pyq "{'a': '}'}"
  /\ JsonReader.json_loads (_remove_trailing_commas (pyq "{'a': ',}'}"))
     = Some (JObj [(py "a", JStr (py "}"))]).
Proof. vm_compute. repeat split. Qed.

(* ===================================================================== *)
(** * The order of the repair pipeline *)
(* ===================================================================== *)

Lemma find_some c t :
  forall i, find c t = Some i -> exists a b, t = a ++ c :: b /\ length a = i.
Proof.
  induction t as [|x t IH]; simpl; intros i; [discriminate|].
  destruct (N.eqb_spec x c) as [->|_].
  - intros E; inversion E; subst. exists [], t. split; reflexivity.
  - destruct (find c t) as [j|]; [|discriminate].
    intros E; inversion E; subst.
    destruct (IH j eq_refl) as [a [b [-> L]]].
    exists (x :: a), b. split; [reflexivity|simpl; congruence].
Qed.

Lemma slice_from_find c t start stop :
  find c t = Some start -> (start < stop)%nat ->
  exists m, slice t start stop = c :: m.
Proof.
  intros F L. destruct (find_some _ _ F) as [a [b [-> La]]]. subst start.
  unfold slice. rewrite skipn_app, Nat.sub_diag, skipn_all. simpl skipn. simpl app.
  destruct (stop - length a)%nat as [|n] eqn:E; [lia|].
  simpl. eexists. reflexivity.
Qed.

Lemma lstrip_keeps_nonspace x a :
  isspace a = false -> lstrip (x ++ [a]) <> [].
Proof.
  intros H. induction x as [|c x IH]; simpl.
  - rewrite H. discriminate.
  - destruct (isspace c); [exact IH|discriminate].
Qed.

Lemma strip_nonempty a m : isspace a = false -> strip (a :: m) <> [].
Proof.
  intros H. unfold strip, rstrip. rewrite lstrip_nonspace by exact H.
  simpl rev. intros E.
  apply (f_equal (@rev char)) in E. rewrite rev_involutive in E. simpl in E.
  exact (@lstrip_keeps_nonspace (rev m) a H E).
Qed.

(** What complete-object extraction returns is never the empty text. *)
Lemma find_first_complete_nonempty t c :
  _find_first_complete_json_object t = Some c -> c <> [].
Proof.
  rewrite find_first_complete_unfold.
  destruct (find LBRACE t) as [start|] eqn:F; [|discriminate].
  destruct (scan_object (skipn start t) start 0 false false) as [i|] eqn:S; [|discriminate].
  intros E; inversion E; subst. apply scan_bound in S.
  destruct (@slice_from_find LBRACE t start (i + 1) F) as [m ->]; [lia|].
  apply strip_nonempty. reflexivity.
Qed.

Lemma extract_json_object_nonempty t c :
  _extract_json_object t = Some c -> c <> [].
Proof.
  unfold _extract_json_object. destruct t as [|x t]; [discriminate|].
  destruct (find LBRACE (x :: t)) as [start|] eqn:F; [|discriminate].
  destruct (rfind RBRACE (x :: t)) as [e|]; [|discriminate].
  destruct (Nat.leb_spec e start); [discriminate|].
  intros E; inversion E; subst.
  destruct (@slice_from_find LBRACE (x :: t) start (e + 1) F) as [m ->]; [lia|].
  apply strip_nonempty. reflexivity.
Qed.

Lemma loads_if_some json_loads c :
  c <> [] -> loads_if json_loads (Some c) = json_loads c.
Proof. destruct c; [contradiction|reflexivity]. Qed.

(** C1 (as amended): the pipeline is an ordered fallback chain that
    returns at the first success, in this order: fence stripping, then
    the parse of the complete object extracted from the stripped text,
    then the direct parse of the raw reply, then the direct parse of the
    stripped text, then the parse of the loose extraction between the
    first opening and the last closing brace.  In particular a complete
    object that parses is returned whether or not the stripped text
    parses as it is. *)
Theorem generate_json_fallback_order
        (json_loads : text -> option Json) (generate : nat -> GenRequest -> Res text)
        (p : text) (sys : option text) (temp mt mc : Z) (response : text) :
  generate 0%nat {| prompt := UserPrompt p; system := sys; temperature_tenths := temp;
                    json_mode := true; max_tokens := mt |} = Ok response ->
  let cleaned := _strip_code_fences response in
  let complete_fails :=
    loads_if json_loads (_find_first_complete_json_object cleaned) = None in
  let result := generate_json json_loads generate p sys temp mt mc in
  (forall c v, _find_first_complete_json_object cleaned = Some c ->
               json_loads c = Some v -> result = Ok v)
  /\ (forall v, complete_fails -> json_loads response = Some v -> result = Ok v)
  /\ (forall v, complete_fails -> json_loads response = None ->
                json_loads cleaned = Some v -> result = Ok v)
  /\ (forall e v, complete_fails -> json_loads response = None ->
                  json_loads cleaned = None ->
                  _extract_json_object cleaned = Some e -> json_loads e = Some v ->
                  result = Ok v).
Proof.
  intros G cleaned complete_fails result.
  subst cleaned complete_fails result. unfold generate_json. rewrite G.
  repeat split.
  - intros c v F L.
    rewrite F, loads_if_some by (eapply find_first_complete_nonempty; exact F).
    rewrite L. reflexivity.
  - intros v C L. rewrite C, L. reflexivity.
  - intros v C L1 L2. rewrite C, L1. unfold repair. rewrite L2. reflexivity.
  - intros e v C L1 L2 X L3. rewrite C, L1. unfold repair. rewrite L2, X.
    rewrite loads_if_some by (eapply extract_json_object_nonempty; exact X).
    rewrite L3. reflexivity.
Qed.

(** C1, refuted as stated: a successful direct parse of the stripped
    text is not what is returned when a complete object parses.  The
    reply [[{"a":1},{"b":2}]] parses as it is to a list of two objects;
    the pipeline returns the object [{"a":1}]. *)
Lemma generate_json_direct_parse_not_first :
  ~ (forall (json_loads : text -> option Json) (generate : nat -> GenRequest -> Res text)
            (p : text) (sys : option text) (temp mt mc : Z) (response : text) (v : Json),
        generate 0%nat {| prompt := UserPrompt p; system := sys;
                          temperature_tenths := temp; json_mode := true;
                          max_tokens := mt |} = Ok response ->
        json_loads (_strip_code_fences response) = Some v ->
        generate_json json_loads generate p sys temp mt mc = Ok v).
Proof.
  intros H.
  specialize (H JsonReader.json_loads (fun _ _ => Ok (pyq "[{'a':1},{'b':2}]"))
                [] None 7%Z 8000%Z 1%Z (pyq "[{'a':1},{'b':2}]")
                (JArr [JObj [(py "a", JInt 1)]; JObj [(py "b", JInt 2)]])
                eq_refl).
  vm_compute in H. specialize (H eq_refl). discriminate H.
Qed.

Lemma generate_json_fallback_order_witness :
  let json_loads := JsonReader.json_loads in
  let generate := fun (_ : nat) (_ : GenRequest) => Ok (pyq "Sure! {'a':1} and {'b':2}") in
  let cleaned := _strip_code_fences (pyq "Sure! {'a':1} and {'b':2}") in
  let complete_fails :=
    loads_if json_loads (_find_first_complete_json_object cleaned) = None in
  let result := generate_json json_loads generate [] None 7 8000 1 in
  (forall c v, _find_first_complete_json_object cleaned = Some c ->
               json_loads c = Some v -> result = Ok v)
  /\ (forall v, complete_fails ->
                json_loads (pyq "Sure! {'a':1} and {'b':2}") = Some v -> result = Ok v)
  /\ (forall v, complete_fails ->
                json_loads (pyq "Sure! {'a':1} and {'b':2}") = None ->
                json_loads cleaned = Some v -> result = Ok v)
  /\ (forall e v, complete_fails ->
                  json_loads (pyq "Sure! {'a':1} and {'b':2}") = None ->
                  json_loads cleaned = None ->
                  _extract_json_object cleaned = Some e -> json_loads e = Some v ->
                  result = Ok v).
Proof.
  exact (@generate_json_fallback_order JsonReader.json_loads
           (fun _ _ => Ok (pyq "Sure! {'a':1} and {'b':2}"))
           [] None 7%Z 8000%Z 1%Z (pyq "Sure! {'a':1} and {'b':2}") eq_refl).
Defined.

(* ===================================================================== *)
(** * Backend transport *)
(* ===================================================================== *)

(** A timeout is raised at once, whatever the attempt, without a wait
    of its own. *)
Lemma retry_loop_timeout timeout_s max_tokens post attempt rest slept :
  post attempt = RaisesTimeout ->
  retry_loop timeout_s max_tokens post (attempt :: rest) slept
  = (Some (Raise (mkExn RuntimeError (MsgTimeout timeout_s max_tokens))), slept).
Proof. intros H. simpl. rewrite H. reflexivity. Qed.

(** A connection error before the last attempt waits three times the
    number of the attempt, counted from one, and goes on. *)
Lemma retry_loop_connection_error timeout_s max_tokens post attempt rest slept e :
  post attempt = RaisesConnectionError e -> (attempt < 4)%Z ->
  retry_loop timeout_s max_tokens post (attempt :: rest) slept
  = retry_loop timeout_s max_tokens post rest (slept ++ [(attempt + 1) * 3])%Z.
Proof.
  intros H L. simpl. rewrite H.
  destruct (Z.ltb_spec attempt 4); [reflexivity|lia].
Qed.

(** Five connection errors in a row: four waits of 3, 6, 9 and 12, then
    the error is raised after the fifth request. *)
Lemma generate_mistral_network_exhausted timeout_s max_tokens post e :
  (forall attempt, post attempt = RaisesConnectionError e) ->
  _generate_mistral timeout_s max_tokens post
  = (Some (Raise (mkExn RuntimeError (MsgNetwork 5 e))), [3; 6; 9; 12]%Z).
Proof.
  intros H. unfold _generate_mistral. simpl. rewrite !H. reflexivity.
Qed.

(** The retry policy: the waits before the retries are 3, 6, ... one
    per connection error met, at most four of them, so that at most five
    requests are sent; and the function never falls out of its loop. *)
Lemma generate_mistral_schedule timeout_s max_tokens post :
  exists k : nat,
    (k <= 4)%nat
    /\ snd (_generate_mistral timeout_s max_tokens post)
       = map (fun j => (Z.of_nat j * 3)%Z) (seq 1 k)
    /\ (forall j, (j < k)%nat -> exists e, post (Z.of_nat j) = RaisesConnectionError e)
    /\ fst (_generate_mistral timeout_s max_tokens post) <> None.
Proof.
  unfold _generate_mistral. simpl.
  assert (B : forall (k : nat) (P : nat -> Prop),
             (forall j, (j < k)%nat -> P j) ->
             P k -> forall j, (j < S k)%nat -> P j).
  { intros k P H Hk j L. destruct (Nat.eq_dec j k) as [->|N]; [exact Hk|apply H; lia]. }
  assert (B0 : forall j, (j < 0)%nat ->
                         exists e, post (Z.of_nat j) = RaisesConnectionError e)
    by (intros j L; lia).
  destruct (post 0%Z) eqn:P0;
    try (exists 0%nat; repeat split; [lia|exact B0|discriminate]).
  pose proof (B _ _ B0 (ex_intro _ e P0)) as B1.
  destruct (post 1%Z) eqn:P1;
    try (exists 1%nat; repeat split; [lia|exact B1|discriminate]).
  pose proof (B _ _ B1 (ex_intro _ e0 P1)) as B2.
  destruct (post 2%Z) eqn:P2;
    try (exists 2%nat; repeat split; [lia|exact B2|discriminate]).
  pose proof (B _ _ B2 (ex_intro _ e1 P2)) as B3.
  destruct (post 3%Z) eqn:P3;
    try (exists 3%nat; repeat split; [lia|exact B3|discriminate]).
  pose proof (B _ _ B3 (ex_intro _ e2 P3)) as B4.
  destruct (post 4%Z) eqn:P4;
    exists 4%nat; repeat split; try lia; try exact B4; discriminate.
Qed.

(** The status code of an error reply is never read: the reply of a
    request that [raise_for_status()] rejects is false as a truth value. *)
Lemma http_error_message_of_error_status r e :
  (400 <= status_code r < 600)%Z ->
  http_error_message (Some r) e = MsgHTTP None e.
Proof.
  intros [L U]. unfold http_error_message, Response_bool.
  replace (400 <=? status_code r)%Z with true by (symmetry; apply Z.leb_le; lia).
  replace (status_code r <? 600)%Z with true by (symmetry; apply Z.ltb_lt; lia).
  reflexivity.
Qed.

(** C7, on the code: a 429 reply and a 401 reply are raised at once and
    without a retry, but with the message of any other HTTP error and
    the status shown as unknown; the messages for the rate limit and for
    the invalid key are not reached. *)
Theorem generate_mistral_http_error_messages (timeout_s max_tokens : Z) (e : text) :
  _generate_mistral timeout_s max_tokens
    (fun _ => RaisesHTTPError (Some {| status_code := 429 |}) e)
  = (Some (Raise (mkExn RuntimeError (MsgHTTP None e))), [])
  /\ _generate_mistral timeout_s max_tokens
       (fun _ => RaisesHTTPError (Some {| status_code := 401 |}) e)
     = (Some (Raise (mkExn RuntimeError (MsgHTTP None e))), [])
  /\ _generate_mistral timeout_s max_tokens
       (fun _ => RaisesHTTPError (Some {| status_code := 500 |}) e)
     = (Some (Raise (mkExn RuntimeError (MsgHTTP None e))), []).
Proof. repeat split. Qed.

(* ===================================================================== *)
(** * The runner: what the helpers leave unchanged *)
(* ===================================================================== *)

Import Runner.

Lemma frame_refl st : frame st st.
Proof. repeat split; auto. Qed.

Lemma frame_trans a b c : frame a b -> frame b c -> frame a c.
Proof.
  intros [H1 [I1 C1]] [H2 [I2 C2]]. repeat split; [congruence|congruence|auto].
Qed.

Lemma count_iterations_app l m :
  count_iterations (l ++ [m]) =
  (count_iterations l + if is_iteration_log m then 1 else 0)%nat.
Proof.
  unfold count_iterations. rewrite filter_app, length_app. simpl.
  destruct (is_iteration_log m); reflexivity.
Qed.

Lemma preserves_ret A (a : A) : preserves (ret a).
Proof. intros st. apply frame_refl. Qed.

Lemma preserves_raise A e : preserves (@raise A e).
Proof. intros st. apply frame_refl. Qed.

Lemma preserves_lift A (r : Res A) : preserves (lift r).
Proof. intros st. apply frame_refl. Qed.

Lemma preserves_get_info : preserves get_info.
Proof. intros st. apply frame_refl. Qed.

Lemma preserves_get_history : preserves get_history.
Proof. intros st. apply frame_refl. Qed.

Lemma preserves_bind A B (m : M A) (k : A -> M B) :
  preserves m -> (forall a, preserves (k a)) -> preserves (bind m k).
Proof.
  intros Hm Hk st. unfold bind. specialize (Hm st).
  destruct (m st) as [[a|e] st1]; simpl in *; [|exact Hm].
  eapply frame_trans; [exact Hm|apply Hk].
Qed.

Lemma preserves_catch A (m : M A) (h : Exn -> M A) :
  preserves m -> (forall e, preserves (h e)) -> preserves (catch m h).
Proof.
  intros Hm Hh st. unfold catch. specialize (Hm st).
  destruct (m st) as [[a|e] st1]; simpl in *; [exact Hm|].
  eapply frame_trans; [exact Hm|apply Hh].
Qed.

Lemma preserves_log m : is_iteration_log m = false -> preserves (_log m).
Proof.
  intros H st. repeat split; simpl; auto.
  rewrite count_iterations_app, H. lia.
Qed.

Lemma preserves_call_llm llm req : preserves (call_llm llm req).
Proof. intros st. repeat split; auto. Qed.

Lemma preserves_call_tool A (tool : nat -> Res A) : preserves (call_tool tool).
Proof. intros st. repeat split; auto. Qed.

Lemma preserves_set_geocode g : preserves (modify_info (set_geocode g)).
Proof. intros st. repeat split; auto. Qed.

Lemma preserves_set_itinerary i : preserves (modify_info (set_itinerary i)).
Proof. intros st. repeat split; auto. Qed.

Lemma preserves_set_weather w : preserves (modify_info (set_weather w)).
Proof. intros st. repeat split; auto. simpl. intros _ _. discriminate. Qed.

Lemma preserves_mark_unavailable A (a : A) :
  preserves (modify_info (set_weather []) ;;; modify_info set_weather_unavailable ;;; ret a).
Proof. intros st. repeat split; auto. simpl. intros _ _. discriminate. Qed.

Ltac frame_step :=
  first
    [ assumption
    | apply preserves_ret | apply preserves_raise | apply preserves_lift
    | apply preserves_get_info | apply preserves_get_history
    | apply preserves_call_llm | apply preserves_call_tool
    | apply preserves_set_geocode | apply preserves_set_itinerary
    | apply preserves_mark_unavailable
    | apply preserves_set_weather
    | apply preserves_log; reflexivity
    | apply preserves_bind; [|intros ?]
    | apply preserves_catch; [|intros ?]
    | match goal with
      | |- preserves (if ?b then _ else _) => destruct b
      | |- preserves (match ?x with _ => _ end) => destruct x
      end ].

Ltac frame_auto := repeat frame_step.

Lemma preserves_log_all lines :
  Forall (fun m => is_iteration_log m = false) lines -> preserves (log_all lines).
Proof.
  induction 1 as [|m l Hm _ IH]; simpl; [apply preserves_ret|].
  apply preserves_bind; [apply preserves_log; exact Hm|intros _; exact IH].
Qed.

Lemma resolve_action_lines action input info :
  Forall (fun m => is_iteration_log m = false)
         (snd (resolve_action action input info)).
Proof.
  unfold resolve_action.
  destruct (action_is action GEOCODE), (ci_geocode info), (ci_weather info);
    simpl; repeat constructor;
    repeat match goal with
           | |- context [if ?b then _ else _] => destruct b; simpl
           end; repeat constructor.
Qed.

Section Frames.
Variable cfg : Config.
Variable llm : nat -> JsonRequest -> Res Json.
Variable geocode : nat -> Json -> Res (option GeoResult).
Variable get_weather : nat -> Json -> Json -> Json -> Json -> Res (list WeatherDay).
Variable model_validate : Json -> Res Json.

Lemma preserves_execute_geocode input : preserves (_execute_geocode geocode input).
Proof. unfold _execute_geocode. frame_auto. Qed.

Lemma preserves_execute_weather input : preserves (_execute_weather get_weather input).
Proof. unfold _execute_weather. frame_auto. Qed.

Lemma preserves_weather_for_prompt degraded :
  is_iteration_log degraded = false -> preserves (weather_for_prompt degraded).
Proof.
  intros H. unfold weather_for_prompt.
  apply preserves_bind; [apply preserves_get_info|intros info].
  destruct (_ || _); [|apply preserves_ret].
  apply preserves_bind; [apply preserves_log; exact H|intros _; apply preserves_ret].
Qed.

Lemma preserves_plan_try req : preserves (plan_try llm model_validate req).
Proof. unfold plan_try. frame_auto. Qed.

Lemma preserves_plan_attempts attempts req :
  preserves (plan_attempts llm model_validate attempts req).
Proof.
  induction attempts as [|attempt rest IH]; simpl; [apply preserves_ret|].
  apply preserves_catch; [apply preserves_plan_try|intros e].
  frame_auto.
Qed.

Lemma preserves_execute_plan : preserves (_execute_plan cfg llm model_validate).
Proof.
  unfold _execute_plan.
  apply preserves_bind; [apply preserves_log; reflexivity|intros _].
  apply preserves_bind; [apply preserves_weather_for_prompt; reflexivity|intros ws].
  apply preserves_bind; [apply preserves_get_info|intros info].
  apply preserves_plan_attempts.
Qed.

Lemma preserves_log_issues issues : preserves (log_issues issues).
Proof.
  induction issues as [|issue rest IH]; simpl; [apply preserves_ret|]. frame_auto.
Qed.

Lemma preserves_self_correct_try itinerary ws :
  preserves (self_correct_try cfg llm itinerary ws).
Proof.
  unfold self_correct_try.
  repeat (apply preserves_log_issues || frame_step).
Qed.

Lemma preserves_self_correct_prelude : preserves self_correct_prelude.
Proof.
  unfold self_correct_prelude.
  apply preserves_bind; [apply preserves_log; reflexivity|intros _].
  apply preserves_bind; [apply preserves_weather_for_prompt; reflexivity|intros ws].
  frame_auto.
Qed.

Lemma preserves_self_correct itinerary : preserves (_self_correct cfg llm itinerary).
Proof.
  unfold _self_correct.
  apply preserves_bind; [apply preserves_self_correct_prelude|intros ws].
  apply preserves_catch; [apply preserves_self_correct_try|intros e]. frame_auto.
Qed.

Lemma preserves_decide_action : preserves (decide_action llm).
Proof.
  unfold decide_action.
  do 7 (apply preserves_bind; [frame_auto|intros ?]).
  apply preserves_bind; [apply preserves_get_info|intros info].
  match goal with
  | |- context [resolve_action ?x ?y ?z] =>
      pose proof (resolve_action_lines x y z) as L;
      destruct (resolve_action x y z) as [[action input] lines]
  end.
  simpl in L.
  apply preserves_bind; [apply preserves_log_all; exact L|intros _].
  apply preserves_ret.
Qed.

Lemma frame_of A (m : M A) st r st' :
  preserves m -> m st = (r, st') -> frame st st'.
Proof. intros H E. specialize (H st). rewrite E in H. exact H. Qed.

Local Abbreviation execute_action' := (execute_action cfg llm geocode get_weather model_validate).
Local Abbreviation iteration_try' := (iteration_try cfg llm geocode get_weather model_validate).
Local Abbreviation iteration_step' := (iteration_step cfg llm geocode get_weather model_validate).
Local Abbreviation react_loop' := (react_loop cfg llm geocode get_weather model_validate).
Local Abbreviation plan_trip' := (plan_trip cfg llm geocode get_weather model_validate).

(** What executing the resolved action does to the history: one entry
    appended when the iteration falls through, none when it returns or
    raises; and a returned bundle carries the logs as they stand. *)
Lemma execute_action_spec i action input st :
  match execute_action' i action input st with
  | (Ok None, st') =>
      (exists result,
          action_history st' = action_history st ++
            [{| ar_action := action; ar_input := input; ar_result := result |}])
      /\ action_is action PLAN = false /\ action_is action FINISH = false
      /\ count_iterations (logs st') = count_iterations (logs st)
      /\ (info_coherent (collected_info st) -> info_coherent (collected_info st'))
  | (Ok (Some b), st') => frame st st' /\ b_logs b = logs st'
  | (Raise e, st') => frame st st'
  end.
Proof.
  unfold execute_action.
  destruct (action_is action GEOCODE) eqn:G.
  { unfold bind.
    destruct (_execute_geocode geocode input st) as [[r|e] st1] eqn:E;
      destruct (@frame_of _ _ _ _ _ (preserves_execute_geocode input) E) as [H [I C]];
      [|repeat split; assumption].
    simpl. rewrite H.
    assert (action = JStr GEOCODE) as ->.
    { destruct action; try discriminate. apply text_eqb_eq in G. congruence. }
    repeat split; try assumption. eexists; reflexivity. }
  destruct (action_is action WEATHER) eqn:W.
  { unfold bind.
    destruct (_execute_weather get_weather input st) as [[r|e] st1] eqn:E;
      destruct (@frame_of _ _ _ _ _ (preserves_execute_weather input) E) as [H [I C]];
      [|repeat split; assumption].
    simpl. rewrite H.
    assert (action = JStr WEATHER) as ->.
    { destruct action; try discriminate. apply text_eqb_eq in W. congruence. }
    repeat split; try assumption. eexists; reflexivity. }
  destruct (action_is action PLAN) eqn:P.
  { unfold bind.
    destruct (_execute_plan cfg llm model_validate st) as [[r|e] st1] eqn:E;
      pose proof (@frame_of _ _ _ _ _ preserves_execute_plan E) as F1; [|exact F1].
    destruct (enable_self_correction cfg).
    - destruct (_self_correct cfg llm r st1) as [[r2|e2] st2] eqn:E2;
        pose proof (@frame_of _ _ _ _ _ (preserves_self_correct r) E2) as F2;
        [split; [eapply frame_trans; eassumption|reflexivity]
        |eapply frame_trans; eassumption].
    - simpl. split; [exact F1|reflexivity]. }
  destruct (action_is action FINISH) eqn:Fi.
  { simpl. split; [|reflexivity].
    repeat split; simpl; auto. rewrite count_iterations_app. simpl. lia. }
  simpl. repeat split; auto.
  - eexists; reflexivity.
  - rewrite count_iterations_app. simpl. lia.
Qed.

(** One iteration: a single iteration header is logged; the history
    gets one entry when the loop goes on and none when the iteration
    returns. *)
Lemma iteration_step_spec i st :
  match iteration_step' i st with
  | (Continue, st') =>
      exists r, action_history st' = action_history st ++ [r]
  | (Return b, st') =>
      action_history st' = action_history st /\ b_logs b = logs st'
  end
  /\ count_iterations (logs (snd (iteration_step' i st))) = S (count_iterations (logs st))
  /\ (info_coherent (collected_info st) ->
      info_coherent (collected_info (snd (iteration_step' i st)))).
Proof.
  unfold iteration_step, iteration_try, bind.
  set (st0 := with_logs (logs st ++ [LogIteration (i + 1)]) st).
  assert (I0 : count_iterations (logs st0) = S (count_iterations (logs st))).
  { unfold st0. simpl. rewrite count_iterations_app. simpl. lia. }
  assert (H0 : action_history st0 = action_history st) by reflexivity.
  assert (C0 : collected_info st0 = collected_info st) by reflexivity.
  clearbody st0.
  destruct (decide_action llm st0) as [[[action input]|e] st1] eqn:D;
    destruct (@frame_of _ _ _ _ _ preserves_decide_action D) as [H [I C]];
    rewrite C0 in C.
  - simpl fst; simpl snd.
    pose proof (execute_action_spec i action input st1) as X.
    destruct (execute_action' i action input st1) as [[[b|]|e] st2].
    + destruct X as [[H2 [I2 C2]] L]. simpl.
      repeat split; [congruence|exact L|congruence|auto].
    + destruct X as [[r Hr] [_ [_ [I2 C2]]]]. simpl.
      repeat split; [eexists; rewrite Hr, H, H0; reflexivity|congruence|auto].
    + destruct X as [H2 [I2 C2]]. simpl.
      repeat split; [congruence| |auto].
      rewrite count_iterations_app. simpl. lia.
  - simpl. repeat split; [congruence| |auto].
    rewrite count_iterations_app. simpl. lia.
Qed.

Lemma react_loop_app r1 r2 st :
  react_loop' (r1 ++ r2) st =
  match react_loop' r1 st with
  | (None, st1) => react_loop' r2 st1
  | (Some b, st') => (Some b, st')
  end.
Proof.
  revert st. induction r1 as [|i r1 IH]; intros st; simpl; [reflexivity|].
  destruct (iteration_step' i st) as [[|b] st1]; [apply IH|reflexivity].
Qed.

(** The loop logs one header per iteration it starts, so at most one per
    element of its range, and exactly that many when it runs out; a
    returned bundle carries the logs as they stand; the collected
    information stays coherent. *)
Lemma react_loop_spec range :
  forall st,
    (count_iterations (logs (snd (react_loop' range st)))
     <= count_iterations (logs st) + length range)%nat
    /\ match fst (react_loop' range st) with
       | Some b => b_logs b = logs (snd (react_loop' range st))
       | None => count_iterations (logs (snd (react_loop' range st)))
                 = (count_iterations (logs st) + length range)%nat
       end
    /\ (info_coherent (collected_info st) ->
        info_coherent (collected_info (snd (react_loop' range st)))).
Proof.
  induction range as [|i rest IH]; intros st; simpl.
  - repeat split; auto; lia.
  - destruct (iteration_step_spec i st) as [X [I C]].
    destruct (iteration_step' i st) as [[|b] st1]; simpl in *.
    + destruct (IH st1) as [L [M C2]]. repeat split; [lia| |auto].
      destruct (fst (react_loop' rest st1)); [exact M|lia].
    + destruct X as [_ L]. repeat split; [lia|exact L|exact C].
Qed.

End Frames.

(* ===================================================================== *)
(** * The runner: override rules, history and iteration bound *)
(* ===================================================================== *)

Lemma reset_coherent a st : info_coherent (collected_info (reset a st)).
Proof. intros H. discriminate H. Qed.

(** Every state the loop of a run reaches holds coherent information. *)
Lemma run_coherent cfg llm geocode get_weather model_validate a st range :
  info_coherent
    (collected_info
       (snd (react_loop cfg llm geocode get_weather model_validate range (reset a st)))).
Proof. apply react_loop_spec, reset_coherent. Qed.

(** C5: the override rules are a function of the proposed action and of
    the collected information.  With a geocode result stored, a proposed
    GEOCODE resolves to WEATHER, with the stored latitude and longitude,
    when no weather result is stored, and to PLAN when a weather result
    is stored or weather is marked unavailable; a proposed WEATHER
    resolves to PLAN when a weather result is stored and not marked
    unavailable, and when weather is marked unavailable.  The same
    proposal on the same information resolves to the same action. *)
Theorem resolve_action_overrides (info : Ctx) (input : Json) :
  info_coherent info ->
  (forall g, ci_geocode info = Some g ->
     (ci_weather info = None ->
        resolved (JStr GEOCODE) input info =
        (JStr WEATHER,
         JObj [(py "lat", geo_lat g); (py "lon", geo_lon g);
               (py "start_date", JStr (start_date info));
               (py "end_date", JStr (end_date info))]))
     /\ (ci_weather info <> None \/ ci_weather_unavailable info = true ->
         resolved (JStr GEOCODE) input info = (JStr PLAN, JObj [])))
  /\ ((ci_weather info <> None /\ ci_weather_unavailable info = false)
      \/ ci_weather_unavailable info = true ->
      resolved (JStr WEATHER) input info = (JStr PLAN, JObj []))
  /\ (forall action action' input' info',
         action = action' -> input = input' -> info = info' ->
         resolve_action action input info = resolve_action action' input' info').
Proof.
  intros Coh. unfold resolved, resolve_action. repeat split.
  - intros W. simpl. rewrite H, W. reflexivity.
  - intros W. simpl. rewrite H.
    destruct (ci_weather info) eqn:E; [reflexivity|].
    destruct W as [W|W]; [contradiction|]. apply Coh in W. contradiction.
  - intros W. simpl.
    destruct W as [[W U]|U].
    + destruct (ci_weather info); [|contradiction]. rewrite U.
      destruct (ci_geocode info); reflexivity.
    + pose proof (Coh U) as W. destruct (ci_weather info); [|contradiction].
      rewrite U. destruct (ci_geocode info); reflexivity.
  - intros action action' input' info' -> -> ->. reflexivity.
Qed.

Lemma resolve_action_overrides_witness :
  let info := set_geocode Scenario.paris (initial_info Scenario.trip) in
  (forall g, ci_geocode info = Some g ->
     (ci_weather info = None ->
        resolved (JStr GEOCODE) (JObj []) info =
        (JStr WEATHER,
         JObj [(py "lat", geo_lat g); (py "lon", geo_lon g);
               (py "start_date", JStr (start_date info));
               (py "end_date", JStr (end_date info))]))
     /\ (ci_weather info <> None \/ ci_weather_unavailable info = true ->
         resolved (JStr GEOCODE) (JObj []) info = (JStr PLAN, JObj [])))
  /\ ((ci_weather info <> None /\ ci_weather_unavailable info = false)
      \/ ci_weather_unavailable info = true ->
      resolved (JStr WEATHER) (JObj []) info = (JStr PLAN, JObj []))
  /\ (forall action action' input' info',
         action = action' -> JObj [] = input' -> info = info' ->
         resolve_action action (JObj []) info = resolve_action action' input' info').
Proof.
  apply resolve_action_overrides. intros H. discriminate H.
Defined.

(** C6 (as amended): an iteration after which the loop goes on (the
    resolved action was GEOCODE, WEATHER or an unrecognized action, and
    nothing was raised) appends exactly one entry, made of the action,
    its input and its result, to the action history; an iteration that
    ends the run (resolved PLAN or FINISH, or an exception) appends
    none. *)
Theorem iteration_history cfg llm geocode get_weather model_validate
        (i : nat) (action input : Json) (st : Agent) :
  match iteration_step cfg llm geocode get_weather model_validate i st with
  | (Continue, st') => exists r, action_history st' = action_history st ++ [r]
  | (Return b, st') => action_history st' = action_history st
  end
  /\ match execute_action cfg llm geocode get_weather model_validate i action input st with
     | (Ok None, st') =>
         (exists result,
             action_history st' = action_history st ++
               [{| ar_action := action; ar_input := input; ar_result := result |}])
         /\ action_is action PLAN = false /\ action_is action FINISH = false
     | (_, st') => action_history st' = action_history st
     end.
Proof.
  split.
  - destruct (iteration_step_spec cfg llm geocode get_weather model_validate i st)
      as [X _].
    destruct (iteration_step cfg llm geocode get_weather model_validate i st)
      as [[|b] st']; [exact X|apply X].
  - pose proof (execute_action_spec cfg llm geocode get_weather model_validate
                  i action input st) as X.
    destruct (execute_action cfg llm geocode get_weather model_validate i action input st)
      as [[[b|]|e] st'].
    + apply X.
    + destruct X as [R [P [F _]]]. auto.
    + apply X.
Qed.

(** C6, refuted as stated: an iteration whose resolved action is FINISH
    appends nothing to the history. *)
Lemma iteration_finish_appends_nothing :
  ~ (forall cfg llm geocode get_weather model_validate (i : nat) (st : Agent),
        length (action_history
                  (snd (iteration_step cfg llm geocode get_weather model_validate i st)))
        = S (length (action_history st))).
Proof.
  intros H.
  specialize (H default_config
                (Scenario.scripted [Ok (Scenario.decision FINISH (JObj []))])
                Scenario.geocode_paris Scenario.weather_sunny Schema.model_validate
                0%nat new_agent).
  vm_compute in H. discriminate H.
Qed.

(** C4: a run starts at most [max_iterations] iterations (5 by default)
    and [plan_trip], a total function, returns whenever the calls it
    makes return; when the loop runs out, the bundle has success false,
    the itinerary and weather then stored in the collected information
    (empty when absent) and the error "Max iterations", after exactly
    [max_iterations] iterations. *)
Theorem plan_trip_bounded cfg llm geocode get_weather model_validate
        (a : TripArgs) (st : Agent) :
  let n := Z.to_nat (max_iterations cfg) in
  let b := fst (plan_trip cfg llm geocode get_weather model_validate a st) in
  (count_iterations (b_logs b) <= n)%nat
  /\ (forall st1,
         react_loop cfg llm geocode get_weather model_validate (seq 0 n) (reset a st)
         = (None, st1) ->
         b_success b = false
         /\ b_error b = Some (MsgText (py "Max iterations"))
         /\ b_itinerary b = get_itinerary (collected_info st1)
         /\ b_weather b = get_weather_list (collected_info st1)
         /\ count_iterations (b_logs b) = n)
  /\ max_iterations default_config = 5%Z.
Proof.
  intros n b. subst b. unfold plan_trip. fold n.
  destruct (react_loop_spec cfg llm geocode get_weather model_validate (seq 0 n) (reset a st))
    as [L [M _]].
  rewrite length_seq in *. change (count_iterations (logs (reset a st))) with 0%nat in *.
  destruct (react_loop cfg llm geocode get_weather model_validate (seq 0 n) (reset a st))
    as [[b|] st'] eqn:E; simpl in *.
  - split; [rewrite M; exact L|].
    split; [intros st1 H; discriminate H|reflexivity].
  - split; [rewrite count_iterations_app; simpl; lia|].
    split; [|reflexivity].
    intros st1 H. inversion H; subst st1.
    repeat split. rewrite count_iterations_app. simpl. lia.
Qed.

Lemma plan_trip_bounded_witness :
  let llm := fun (_ : nat) (_ : JsonRequest) => Ok (Scenario.decision (py "WAIT") (JObj [])) in
  let st1 := snd (react_loop default_config llm Scenario.geocode_paris
                             Scenario.weather_sunny Schema.model_validate
                             (seq 0 (Z.to_nat (max_iterations default_config)))
                             (reset Scenario.trip new_agent)) in
  let b := fst (plan_trip default_config llm Scenario.geocode_paris Scenario.weather_sunny
                          Schema.model_validate Scenario.trip new_agent) in
  b_success b = false
  /\ b_error b = Some (MsgText (py "Max iterations"))
  /\ b_itinerary b = get_itinerary (collected_info st1)
  /\ b_weather b = get_weather_list (collected_info st1)
  /\ count_iterations (b_logs b) = Z.to_nat (max_iterations default_config).
Proof.
  intros llm st1 b.
  refine (proj1 (proj2 (@plan_trip_bounded default_config llm Scenario.geocode_paris
                          Scenario.weather_sunny Schema.model_validate Scenario.trip
                          new_agent)) st1 _).
  vm_compute. reflexivity.
Defined.

(* ===================================================================== *)
(** * The runner: exceptions and self-correction *)
(* ===================================================================== *)

(** C10: when an iteration of a run raises, after any number of
    iterations that went on, the bundle returned has an empty itinerary
    and an empty weather list, success false and the message of the
    exception as its error, whatever the collected information holds;
    the itinerary and weather of the collected information are returned
    when the loop runs out. *)
Theorem abort_returns_empty_results cfg llm geocode get_weather model_validate
        (a : TripArgs) (st : Agent) (range1 range2 : list nat) (i : nat)
        (st1 st2 : Agent) (e : Exn) :
  seq 0 (Z.to_nat (max_iterations cfg)) = range1 ++ i :: range2 ->
  react_loop cfg llm geocode get_weather model_validate range1 (reset a st) = (None, st1) ->
  iteration_try cfg llm geocode get_weather model_validate i
                (with_logs (logs st1 ++ [LogIteration (i + 1)]) st1) = (Raise e, st2) ->
  let b := fst (plan_trip cfg llm geocode get_weather model_validate a st) in
  (b_itinerary b = JObj [] /\ b_weather b = [] /\ b_success b = false
   /\ b_error b = Some (exn_msg e)
   /\ b_logs b = logs st2 ++ [LogError (exn_msg e)])
  /\ (forall cfg' st',
         react_loop cfg' llm geocode get_weather model_validate
                    (seq 0 (Z.to_nat (max_iterations cfg'))) (reset a st) = (None, st') ->
         let b' := fst (plan_trip cfg' llm geocode get_weather model_validate a st) in
         b_itinerary b' = get_itinerary (collected_info st')
         /\ b_weather b' = get_weather_list (collected_info st')).
Proof.
  intros R L T b. split.
  - subst b. unfold plan_trip. rewrite R, react_loop_app, L. simpl react_loop.
    unfold iteration_step. rewrite T. simpl. repeat split.
  - intros cfg' st' L' b'. subst b'. unfold plan_trip. rewrite L'. simpl. split; reflexivity.
Qed.

Lemma abort_returns_empty_results_witness :
  let run := plan_trip default_config Scenario.llm_then_timeout Scenario.geocode_paris
                       Scenario.weather_sunny Schema.model_validate
                       Scenario.trip new_agent in
  (b_itinerary (fst run) = JObj [] /\ b_weather (fst run) = []
   /\ b_success (fst run) = false
   /\ b_error (fst run) = Some (exn_msg Scenario.timeout_error))
  /\ ci_weather (collected_info (snd run)) = Some [Scenario.sunny].
Proof.
  intros run. split; [|vm_compute; reflexivity].
  pose (st1 := snd (react_loop default_config Scenario.llm_then_timeout Scenario.geocode_paris
                               Scenario.weather_sunny Schema.model_validate
                               [0; 1]%nat (reset Scenario.trip new_agent))).
  pose (st2 := snd (iteration_try default_config Scenario.llm_then_timeout Scenario.geocode_paris
                                  Scenario.weather_sunny Schema.model_validate 2%nat
                                  (with_logs (logs st1 ++ [LogIteration (2 + 1)]) st1))).
  assert (X := @abort_returns_empty_results default_config Scenario.llm_then_timeout
                 Scenario.geocode_paris Scenario.weather_sunny Schema.model_validate
                 Scenario.trip new_agent [0; 1]%nat [3; 4]%nat 2%nat st1 st2
                 Scenario.timeout_error).
  destruct X as [[X1 [X2 [X3 [X4 _]]]] _];
    [reflexivity|vm_compute; reflexivity|vm_compute; reflexivity|].
  repeat split; assumption.
Defined.

(** What precedes the [try] of [_self_correct] never raises. *)
Lemma self_correct_prelude_ok st :
  exists ws st0, self_correct_prelude st = (Ok ws, st0).
Proof.
  unfold self_correct_prelude, weather_for_prompt, bind, _log, get_info, ret. simpl.
  destruct (_ || _); simpl; eexists; eexists; reflexivity.
Qed.

(** C8: whatever is raised while the critique or the correction is
    requested and read (by the model client, the parse of its reply or
    the reading of the critique) is caught and logged, and the original
    itinerary is returned unchanged; the run whose plan was generated
    then returns that itinerary with success. *)
Theorem self_correct_failure_returns_original cfg llm geocode get_weather model_validate
        (i : nat) (input itinerary : Json) (sta st st0 st1 : Agent)
        (ws : option (list WeatherDay)) (e : Exn) :
  enable_self_correction cfg = true ->
  _execute_plan cfg llm model_validate sta = (Ok itinerary, st) ->
  self_correct_prelude st = (Ok ws, st0) ->
  self_correct_try cfg llm itinerary ws st0 = (Raise e, st1) ->
  (fst (_self_correct cfg llm itinerary st) = Ok itinerary
   /\ logs (snd (_self_correct cfg llm itinerary st))
      = logs st1 ++ [LogSelfCorrectionError (exn_msg e); LogReturnOriginal])
  /\ (exists b,
         fst (execute_action cfg llm geocode get_weather model_validate
                             i (JStr PLAN) input sta) = Ok (Some b)
         /\ b_success b = true /\ b_error b = None /\ b_itinerary b = itinerary).
Proof.
  intros En P Pre T.
  assert (S : _self_correct cfg llm itinerary st
              = (Ok itinerary,
                 with_logs ((logs st1 ++ [LogSelfCorrectionError (exn_msg e)])
                            ++ [LogReturnOriginal])
                           (with_logs (logs st1 ++ [LogSelfCorrectionError (exn_msg e)]) st1))).
  { unfold _self_correct, bind, catch. rewrite Pre, T. reflexivity. }
  split.
  - rewrite S. simpl. rewrite <- app_assoc. split; reflexivity.
  - unfold execute_action. change (action_is (JStr PLAN) GEOCODE) with false.
    change (action_is (JStr PLAN) WEATHER) with false.
    change (action_is (JStr PLAN) PLAN) with true. cbv iota.
    unfold bind at 1. rewrite P. rewrite En. unfold bind. rewrite S.
    eexists. simpl. repeat split.
Qed.

Lemma self_correct_failure_returns_original_witness :
  let sta := reset Scenario.trip new_agent in
  let st := snd (_execute_plan default_config Scenario.llm_critique_timeout Schema.model_validate sta) in
  let st1 := snd (self_correct_try default_config Scenario.llm_critique_timeout
                                   Scenario.empty_plan_dumped None
                                   (snd (self_correct_prelude st))) in
  (fst (_self_correct default_config Scenario.llm_critique_timeout Scenario.empty_plan_dumped st)
   = Ok Scenario.empty_plan_dumped
   /\ logs (snd (_self_correct default_config Scenario.llm_critique_timeout
                               Scenario.empty_plan_dumped st))
      = logs st1 ++ [LogSelfCorrectionError (exn_msg Scenario.timeout_error);
                     LogReturnOriginal])
  /\ (exists b,
         fst (execute_action default_config Scenario.llm_critique_timeout Scenario.geocode_paris
                             Scenario.weather_sunny Schema.model_validate
                             0 (JStr PLAN) (JObj []) sta) = Ok (Some b)
         /\ b_success b = true /\ b_error b = None
         /\ b_itinerary b = Scenario.empty_plan_dumped).
Proof.
  intros sta st st1.
  refine (@self_correct_failure_returns_original default_config Scenario.llm_critique_timeout
            Scenario.geocode_paris Scenario.weather_sunny Schema.model_validate
            0%nat (JObj []) Scenario.empty_plan_dumped sta st
            (snd (self_correct_prelude st)) st1 None Scenario.timeout_error
            eq_refl _ _ _); vm_compute; reflexivity.
Defined.

(** C9, on the code: the corrected itinerary is the value parsed from
    the model's reply, returned as it is: no validation against the
    schema is applied to it, whatever the reply.  In the run below the
    corrected reply is the empty object, which the schema rejects; the
    run returns it as its itinerary, with success, while the validated
    plan stays in the collected information. *)
Theorem corrected_itinerary_not_validated :
  (forall cfg itinerary corrected st,
      fst (_self_correct cfg (Scenario.llm_correcting (llm_calls st) corrected) itinerary st)
      = Ok corrected)
  /\ (let run := plan_trip default_config Scenario.llm_corrects_to_empty
                           Scenario.geocode_paris Scenario.weather_sunny
                           Schema.model_validate Scenario.trip new_agent in
      b_success (fst run) = true
      /\ b_itinerary (fst run) = JObj []
      /\ Schema.model_validate (JObj [])
         = Raise (mkExn ValidationError (MsgText (py "daily_plans")))
      /\ ci_itinerary (collected_info (snd run)) = Some Scenario.empty_plan_dumped).
Proof.
  split.
  - intros cfg itinerary corrected st.
    unfold _self_correct, self_correct_prelude, weather_for_prompt, self_correct_try,
      bind, catch, call_llm, _log, get_info, ret, lift, Scenario.llm_correcting.
    assert (N : (S (llm_calls st) =? llm_calls st)%nat = false)
      by (apply Nat.eqb_neq; lia).
    cbn -[Nat.eqb].
    destruct (_ || _); cbn -[Nat.eqb]; rewrite Nat.eqb_refl; cbn -[Nat.eqb];
      rewrite N; reflexivity.
  - vm_compute. repeat split.
Qed.

(* ===================================================================== *)
(** * More on the textual helpers *)
(* ===================================================================== *)

Lemma find_first_complete_of_object (p o s : text) :
  ~ In LBRACE p -> json_object o ->
  _find_first_complete_json_object (p ++ o ++ s) = Some o.
Proof.
  intros Hp [b [Hb ->]].
  rewrite find_first_complete_unfold. simpl app.
  rewrite find_app_absent by exact Hp.
  rewrite skipn_app, Nat.sub_diag, skipn_all. simpl skipn. simpl app at 1.
  rewrite <- app_assoc. simpl app at 2.
  rewrite scan_json_object by exact Hb.
  replace (p ++ LBRACE :: b ++ [RBRACE] ++ s)
    with (p ++ (LBRACE :: b ++ [RBRACE]) ++ s)
    by (simpl; rewrite <- app_assoc; reflexivity).
  replace (length p + length b + 1 + 1)%nat
    with (length p + length (LBRACE :: b ++ [RBRACE]))%nat
    by (simpl; rewrite length_app; simpl; lia).
  rewrite slice_middle by reflexivity.
  rewrite strip_delimited by reflexivity. reflexivity.
Qed.

Lemma find_first_complete_of_truncated (p o t u : text) :
  ~ In LBRACE p -> json_object o -> o = t ++ u -> u <> [] ->
  _find_first_complete_json_object (p ++ t) = None.
Proof.
  intros Hp [b [Hb ->]] E Hu. rewrite find_first_complete_unfold.
  destruct t as [|c t].
  - rewrite app_nil_r, find_absent by exact Hp. reflexivity.
  - simpl in E. inversion E as [[Hc Ht]]. subst c.
    rewrite find_app_absent by exact Hp.
    rewrite skipn_app, Nat.sub_diag, skipn_all. simpl skipn. simpl app at 1.
    rewrite (@scan_truncated (LBRACE :: t) u (length p) 0%Z false false
               (length p + length b + 1)%nat); [reflexivity| |].
    + simpl app. rewrite <- Ht. exact (@scan_json_object b [] (length p) Hb).
    + assert (L : length (b ++ [RBRACE]) = length (t ++ u)) by (rewrite Ht; reflexivity).
      rewrite !length_app in L. simpl in *.
      destruct u as [|x u]; [contradiction|]. simpl in L. lia.
Qed.

Lemma is_likely_truncated_unfold t :
  _is_likely_truncated_json t =
  match find LBRACE t with
  | None => false
  | Some _ => match _find_first_complete_json_object t with
              | None => true
              | Some _ => false
              end
  end.
Proof. destruct t; reflexivity. Qed.

(** X1: truncation detection answers no for a text that holds a complete
    object after a prefix without opening brace, whatever follows the
    object, and for a text without opening brace; it answers yes for a
    text that stops inside the object. *)
Theorem is_likely_truncated_json_spec (p o s : text) :
  ~ In LBRACE p -> json_object o ->
  _is_likely_truncated_json (p ++ o ++ s) = false
  /\ (forall t u, o = t ++ u -> t <> [] -> u <> [] ->
        _is_likely_truncated_json (p ++ t) = true)
  /\ _is_likely_truncated_json p = false.
Proof.
  intros Hp Ho. repeat split.
  - rewrite is_likely_truncated_unfold, find_first_complete_of_object by assumption.
    destruct (find LBRACE (p ++ o ++ s)); reflexivity.
  - intros t u E Ht Hu. rewrite is_likely_truncated_unfold.
    rewrite (@find_first_complete_of_truncated p o t u Hp Ho E Hu).
    destruct Ho as [b [_ ->]]. destruct t as [|c t]; [contradiction|].
    simpl in E. inversion E; subst c.
    rewrite find_app_absent by exact Hp. reflexivity.
  - rewrite is_likely_truncated_unfold, find_absent by exact Hp. reflexivity.
Qed.

Lemma is_likely_truncated_json_spec_witness :
  _is_likely_truncated_json (py "Sure! " ++ pyq "{'a':1}" ++ py " bye") = false
  /\ (forall t u, pyq "{'a':1}" = t ++ u -> t <> [] -> u <> [] ->
        _is_likely_truncated_json (py "Sure! " ++ t) = true)
  /\ _is_likely_truncated_json (py "Sure! ") = false.
Proof.
  apply is_likely_truncated_json_spec.
  - intros I. vm_compute in I. intuition discriminate.
  - exact object_a1.
Defined.

(** ** Escaping control characters *)

Lemma escape_control_chars_loop t :
  _escape_control_chars_in_strings t = escape_loop t false false.
Proof. destruct t; reflexivity. Qed.

Lemma hex_digit_plain n :
  n < 16 ->
  (hex_digit n =? BACKSLASH) = false /\ (hex_digit n =? QUOTE) = false
  /\ (hex_digit n <? 32) = false.
Proof.
  intros H. unfold hex_digit, BACKSLASH, QUOTE.
  destruct (N.ltb_spec n 10); repeat split;
    first [apply N.eqb_neq; lia | apply N.ltb_ge; lia].
Qed.

(** In a string and not after a backslash, a character that is no
    backslash, no quote and no control character is a state-preserving
    step of the checker. *)
Lemma control_free_plain c rest :
  (c =? BACKSLASH) = false -> (c =? QUOTE) = false -> (c <? 32) = false ->
  control_free (c :: rest) true false = control_free rest true false.
Proof. intros B Q L. simpl. rewrite B, Q, L. reflexivity. Qed.

Lemma control_free_escape_pair c rest :
  control_free (BACKSLASH :: c :: rest) true false = control_free rest true false.
Proof. reflexivity. Qed.

Lemma control_free_escape_app c rest :
  control_free ([BACKSLASH; c] ++ rest) true false = control_free rest true false.
Proof. reflexivity. Qed.

Lemma control_free_unicode_escape ch rest :
  ch < 32 ->
  control_free (unicode_escape ch ++ rest) true false = control_free rest true false.
Proof.
  intros H. unfold unicode_escape.
  assert (H1 : ch / 16 < 16) by (apply N.Div0.div_lt_upper_bound; lia).
  assert (H2 : ch mod 16 < 16) by (apply N.mod_lt; lia).
  destruct (hex_digit_plain H1) as [A1 [A2 A3]].
  destruct (hex_digit_plain H2) as [B1 [B2 B3]].
  change ((BACKSLASH :: 117 :: 48 :: 48 :: hex_digit (ch / 16)
             :: [hex_digit (ch mod 16)]) ++ rest)
    with (BACKSLASH :: 117 :: 48 :: 48 :: hex_digit (ch / 16)
            :: hex_digit (ch mod 16) :: rest).
  rewrite control_free_escape_pair.
  rewrite !control_free_plain by (reflexivity || assumption). reflexivity.
Qed.

(** What the loop produces is free of raw control characters, in every
    state of the scanner. *)
Lemma escape_loop_control_free n :
  forall t s e, (length t <= n)%nat ->
                control_free (escape_loop t s e) s e = true.
Proof.
  induction n as [|n IH]; intros t s e L.
  - destruct t; [reflexivity|simpl in L; lia].
  - destruct t as [|ch rest]; [reflexivity|]. simpl in L.
    assert (Lr : (length rest <= n)%nat) by lia.
    destruct s; cbn [escape_loop].
    + destruct e; [cbn [control_free]; apply IH; exact Lr|].
      destruct (ch =? BACKSLASH) eqn:B;
        [cbn [control_free]; rewrite B; apply IH; exact Lr|].
      destruct (ch =? QUOTE) eqn:Q;
        [cbn [control_free]; rewrite B, Q; apply IH; exact Lr|].
      destruct (ch =? CR) eqn:C.
      { destruct rest as [|nx rest']; [reflexivity|].
        destruct (nx =? LF); rewrite control_free_escape_app; apply IH;
          simpl in *; lia. }
      destruct (ch =? LF) eqn:F; [rewrite control_free_escape_app; apply IH; exact Lr|].
      destruct (ch =? TAB) eqn:T; [rewrite control_free_escape_app; apply IH; exact Lr|].
      destruct (ch <? 32) eqn:K.
      { rewrite control_free_unicode_escape by (apply N.ltb_lt; exact K).
        apply IH; exact Lr. }
      cbn [control_free]. rewrite B, Q, K. simpl. apply IH; exact Lr.
    + cbn [control_free]. apply IH; exact Lr.
Qed.

(** A text free of raw control characters is copied as it is. *)
Lemma escape_loop_fixed t :
  forall s e, control_free t s e = true -> escape_loop t s e = t.
Proof.
  induction t as [|ch rest IH]; intros s e H; [reflexivity|].
  destruct s; simpl in *.
  - destruct e; [f_equal; apply IH; exact H|].
    destruct (ch =? BACKSLASH) eqn:B; [f_equal; apply IH; exact H|].
    destruct (ch =? QUOTE) eqn:Q; [f_equal; apply IH; exact H|].
    apply andb_prop in H. destruct H as [K H]. apply negb_true_iff in K.
    apply N.ltb_ge in K.
    replace (ch =? CR) with false by (symmetry; apply N.eqb_neq; unfold CR; lia).
    replace (ch =? LF) with false by (symmetry; apply N.eqb_neq; unfold LF; lia).
    replace (ch =? TAB) with false by (symmetry; apply N.eqb_neq; unfold TAB; lia).
    replace (ch <? 32) with false by (symmetry; apply N.ltb_ge; exact K).
    f_equal. apply IH; exact H.
  - f_equal. apply IH; exact H.
Qed.

(** X2: control-character escaping leaves no raw control character
    inside a string value (a character that directly follows a backslash
    apart), and it is idempotent. *)
Theorem escape_control_chars_idempotent (t : text) :
  control_free (_escape_control_chars_in_strings t) false false = true
  /\ _escape_control_chars_in_strings (_escape_control_chars_in_strings t)
     = _escape_control_chars_in_strings t.
Proof.
  rewrite !escape_control_chars_loop.
  assert (C : control_free (escape_loop t false false) false false = true)
    by (apply (@escape_loop_control_free (length t)); lia).
  split; [exact C|apply escape_loop_fixed, C].
Qed.



(** ** Fence stripping *)

Lemma lstrip_all_space x : forallb isspace x = true -> lstrip x = [].
Proof.
  induction x as [|c x IH]; simpl; [reflexivity|].
  destruct (isspace c); simpl; [exact IH|discriminate].
Qed.

Lemma lstrip_app_space x w :
  isspace w = true ->
  lstrip (x ++ [w]) = if forallb isspace x then [] else lstrip x ++ [w].
Proof.
  intros H. induction x as [|c x IH]; simpl; [rewrite H; reflexivity|].
  destruct (isspace c); simpl; [exact IH|reflexivity].
Qed.

Lemma rstrip_app_space x w : isspace w = true -> rstrip (x ++ [w]) = rstrip x.
Proof.
  intros H. unfold rstrip. rewrite rev_app_distr. simpl. rewrite H. reflexivity.
Qed.

(** Whitespace around a text does not change what [strip] returns. *)
Lemma strip_surrounded a b body :
  isspace a = true -> isspace b = true -> strip (a :: body ++ [b]) = strip body.
Proof.
  intros Ha Hb. unfold strip. simpl lstrip. rewrite Ha.
  rewrite lstrip_app_space by exact Hb.
  destruct (forallb isspace body) eqn:S.
  - rewrite lstrip_all_space by exact S. reflexivity.
  - apply rstrip_app_space. exact Hb.
Qed.

Lemma startswith_app_self p x : startswith p (p ++ x) = true.
Proof. induction p as [|c p IH]; simpl; [reflexivity|]. rewrite N.eqb_refl. exact IH. Qed.

Lemma endswith_app_self p x : endswith p (x ++ p) = true.
Proof. unfold endswith. rewrite rev_app_distr. apply startswith_app_self. Qed.

Lemma drop_last_app p x : drop_last (length p) (x ++ p) = x.
Proof.
  unfold drop_last. rewrite length_app.
  replace (length x + length p - length p)%nat with (length x + 0)%nat by lia.
  rewrite firstn_app_2. simpl. apply app_nil_r.
Qed.

Lemma startswith_prefix p q s : startswith (p ++ q) s = true -> startswith p s = true.
Proof.
  revert s. induction p as [|c p IH]; intros s; simpl; [reflexivity|].
  destruct s as [|d s]; [discriminate|].
  destruct (c =? d); simpl; [apply IH|discriminate].
Qed.

Lemma lstrip_idempotent s : lstrip (lstrip s) = lstrip s.
Proof.
  induction s as [|c s IH]; simpl; [reflexivity|].
  destruct (isspace c) eqn:E; [exact IH|]. simpl. rewrite E. reflexivity.
Qed.

Lemma lstrip_head s : match lstrip s with [] => True | c :: _ => isspace c = false end.
Proof.
  induction s as [|c s IH]; simpl; [exact I|].
  destruct (isspace c) eqn:E; [exact IH|exact E].
Qed.

Lemma lstrip_app_nonspace y c :
  isspace c = false -> exists y', lstrip (y ++ [c]) = y' ++ [c].
Proof.
  intros H. induction y as [|d y IH]; simpl.
  - rewrite H. exists []. reflexivity.
  - destruct (isspace d); [exact IH|]. exists (d :: y). reflexivity.
Qed.

(** [strip] is idempotent. *)
Lemma strip_idempotent s : strip (strip s) = strip s.
Proof.
  unfold strip. pose proof (lstrip_head s) as Hd.
  destruct (lstrip s) as [|c m] eqn:L; [reflexivity|].
  destruct (@lstrip_app_nonspace (rev m) c Hd) as [y' E].
  assert (R : rstrip (c :: m) = c :: rev y').
  { unfold rstrip. simpl rev. rewrite E, rev_app_distr. reflexivity. }
  rewrite R, lstrip_nonspace by exact Hd.
  unfold rstrip. simpl rev. rewrite rev_involutive.
  rewrite <- E, lstrip_idempotent, E, rev_app_distr. reflexivity.
Qed.

Lemma strip_backticks m :
  strip (BACKTICK :: m ++ [BACKTICK]) = BACKTICK :: m ++ [BACKTICK].
Proof. apply strip_delimited; reflexivity. Qed.

(** X4: a reply wrapped in a fence, with or without the json label, on
    lines of their own, strips to its body without the surrounding
    whitespace; a reply that, once stripped of whitespace, neither
    starts nor ends with a fence is only stripped of whitespace. *)
Theorem strip_code_fences_fenced (body : text) :
  _strip_code_fences (py "```json" ++ LF :: body ++ LF :: py "```") = strip body
  /\ _strip_code_fences (py "```" ++ LF :: body ++ LF :: py "```") = strip body
  /\ (forall t, startswith (py "```") (strip t) = false ->
                endswith (py "```") (strip t) = false ->
                _strip_code_fences t = strip t).
Proof.
  assert (Tail : LF :: body ++ LF :: py "```" = (LF :: body ++ [LF]) ++ py "```").
  { simpl. rewrite <- app_assoc. reflexivity. }
  assert (End3 : forall x, x ++ py "```" = (x ++ [96; 96]) ++ [BACKTICK]).
  { intros x. rewrite <- app_assoc. reflexivity. }
  repeat split.
  - unfold _strip_code_fences.
    replace (strip (py "```json" ++ LF :: body ++ LF :: py "```"))
      with (py "```json" ++ LF :: body ++ LF :: py "```").
    2:{ rewrite Tail. rewrite End3.
        change (py "```json" ++ ((LF :: body ++ [LF]) ++ [96; 96]) ++ [BACKTICK])
          with (BACKTICK :: (skipn 1 (py "```json")
                               ++ ((LF :: body ++ [LF]) ++ [96; 96])) ++ [BACKTICK]).
        symmetry. apply strip_backticks. }
    rewrite startswith_app_self.
    change (skipn 7 (py "```json" ++ LF :: body ++ LF :: py "```"))
      with (LF :: body ++ LF :: py "```").
    change (startswith (py "```") (LF :: body ++ LF :: py "```")) with false.
    cbv iota. rewrite Tail, endswith_app_self.
    change 3%nat with (length (py "```")). rewrite drop_last_app.
    apply strip_surrounded; reflexivity.
  - unfold _strip_code_fences.
    replace (strip (py "```" ++ LF :: body ++ LF :: py "```"))
      with (py "```" ++ LF :: body ++ LF :: py "```").
    2:{ rewrite Tail. rewrite End3.
        change (py "```" ++ ((LF :: body ++ [LF]) ++ [96; 96]) ++ [BACKTICK])
          with (BACKTICK :: (skipn 1 (py "```")
                               ++ ((LF :: body ++ [LF]) ++ [96; 96])) ++ [BACKTICK]).
        symmetry. apply strip_backticks. }
    change (startswith (py "```json") (py "```" ++ LF :: body ++ LF :: py "```")) with false.
    cbv iota. rewrite startswith_app_self.
    change (skipn 3 (py "```" ++ LF :: body ++ LF :: py "```"))
      with (LF :: body ++ LF :: py "```").
    change (startswith (py "```") (LF :: body ++ LF :: py "```")) with false.
    cbv iota. rewrite Tail, endswith_app_self.
    change 3%nat with (length (py "```")). rewrite drop_last_app.
    apply strip_surrounded; reflexivity.
  - intros t S E. unfold _strip_code_fences.
    destruct (startswith (py "```json") (strip t)) eqn:J.
    + apply (@startswith_prefix (py "```") (py "json")) in J. congruence.
    + rewrite S, E. apply strip_idempotent.
Qed.

(** ** Loose extraction *)

Lemma find_first c t :
  forall i, find c t = Some i ->
            exists a b, t = a ++ c :: b /\ length a = i /\ ~ In c a.
Proof.
  induction t as [|x t IH]; simpl; intros i; [discriminate|].
  destruct (N.eqb_spec x c) as [->|N].
  - intros E; inversion E; subst. exists [], t. repeat split. intros [].
  - destruct (find c t) as [j|]; [|discriminate].
    intros E; inversion E; subst.
    destruct (IH j eq_refl) as [a [b [-> [L H]]]].
    exists (x :: a), b. repeat split; [simpl; congruence|].
    intros [I|I]; [exact (N I)|exact (H I)].
Qed.

Lemma find_none c t : find c t = None -> ~ In c t.
Proof.
  induction t as [|x t IH]; simpl; [intros _ []|].
  destruct (N.eqb_spec x c) as [->|N]; [discriminate|].
  destruct (find c t); [discriminate|].
  intros _ [I|I]; [exact (N I)|exact (IH eq_refl I)].
Qed.

Lemma rfind_last c t :
  forall j, rfind c t = Some j ->
            exists a b, t = a ++ c :: b /\ length a = j /\ ~ In c b.
Proof.
  induction t as [|x t IH]; simpl; intros j; [discriminate|].
  destruct (rfind c t) as [k|] eqn:R.
  - intros E; inversion E; subst.
    destruct (IH k eq_refl) as [a [b [-> [L H]]]].
    exists (x :: a), b. repeat split; [simpl; congruence|exact H].
  - destruct (N.eqb_spec x c) as [->|N]; [|discriminate].
    intros E; inversion E; subst. exists [], t. repeat split.
    clear IH E. revert R. induction t as [|y t IHt]; simpl; [intros _ []|].
    destruct (rfind c t); [discriminate|].
    destruct (N.eqb_spec y c) as [->|N]; [discriminate|].
    intros _ [I|I]; [exact (N I)|exact (IHt eq_refl I)].
Qed.

Lemma rfind_none c t : rfind c t = None -> ~ In c t.
Proof.
  induction t as [|x t IH]; simpl; [intros _ []|].
  destruct (rfind c t); [discriminate|].
  destruct (N.eqb_spec x c) as [->|N]; [discriminate|].
  intros _ [I|I]; [exact (N I)|exact (IH eq_refl I)].
Qed.

(** Two splittings of one list: the longer left part extends the
    shorter one. *)
Lemma app_split_lt (x y x' y' : text) :
  x ++ y = x' ++ y' -> (length x < length x')%nat ->
  exists d m, x' = x ++ d :: m /\ y = d :: m ++ y'.
Proof.
  revert x'. induction x as [|c x IH]; intros x' E L.
  - destruct x' as [|d m]; [simpl in L; lia|]. exists d, m. split; [reflexivity|exact E].
  - destruct x' as [|d x']; [simpl in L; lia|].
    simpl in E. inversion E as [[Hc Ht]]. subst d.
    destruct (IH x' Ht) as [d [m [-> ->]]]; [simpl in L; lia|].
    exists d, m. split; reflexivity.
Qed.

(** The first occurrence is not after any occurrence, and the last one
    not before. *)
Lemma first_occurrence_le c (a b a' b' : text) :
  a ++ c :: b = a' ++ c :: b' -> ~ In c a -> (length a <= length a')%nat.
Proof.
  intros E H. destruct (Nat.le_gt_cases (length a) (length a')) as [L|L]; [exact L|].
  symmetry in E. destruct (app_split_lt _ _ _ _ E L) as [d [m [-> E2]]].
  inversion E2; subst d. exfalso. apply H. apply in_or_app. right. left. reflexivity.
Qed.

Lemma last_occurrence_ge c (a b a' b' : text) :
  a ++ c :: b = a' ++ c :: b' -> ~ In c b -> (length a' <= length a)%nat.
Proof.
  intros E H. destruct (Nat.le_gt_cases (length a') (length a)) as [L|L]; [exact L|].
  destruct (app_split_lt _ _ _ _ E L) as [d [m [-> E2]]].
  inversion E2 as [[Hd Hb]]. exfalso. apply H. rewrite Hb.
  apply in_or_app. right. left. symmetry. exact Hd.
Qed.

Lemma extract_json_object_span (t : text) :
  match _extract_json_object t with
  | Some e =>
      exists a m b,
        t = a ++ LBRACE :: m ++ RBRACE :: b
        /\ ~ In LBRACE a /\ ~ In RBRACE b
        /\ e = LBRACE :: m ++ [RBRACE]
  | None => forall a m b, t <> a ++ LBRACE :: m ++ RBRACE :: b
  end.
Proof.
  unfold _extract_json_object. destruct t as [|x t].
  { intros a m b E. destruct a; discriminate E. }
  remember (x :: t) as u eqn:Hu. clear Hu x t.
  destruct (find LBRACE u) as [i|] eqn:F.
  2:{ intros a m b E. apply (find_none _ _ F). rewrite E.
      apply in_or_app. right. left. reflexivity. }
  destruct (rfind RBRACE u) as [j|] eqn:R.
  2:{ intros a m b E. apply (rfind_none _ _ R). rewrite E.
      apply in_or_app. right. right. apply in_or_app. right. left. reflexivity. }
  destruct (find_first _ _ F) as [a [b1 [E1 [La Ha]]]].
  destruct (rfind_last _ _ R) as [a2 [b [E2 [La2 Hb]]]].
  destruct (Nat.leb_spec j i) as [L|L].
  - intros a' m' b' E.
    assert (X1 : (i <= length a')%nat).
    { subst i. apply (@first_occurrence_le LBRACE a b1 a' (m' ++ RBRACE :: b'));
        [congruence|exact Ha]. }
    assert (X2 : (length (a' ++ LBRACE :: m') <= j)%nat).
    { subst j. apply (@last_occurrence_ge RBRACE a2 b (a' ++ LBRACE :: m') b');
        [|exact Hb].
      rewrite <- E2, E, <- app_assoc. reflexivity. }
    rewrite length_app in X2. simpl in X2. lia.
  - assert (E : a ++ LBRACE :: b1 = a2 ++ RBRACE :: b) by congruence.
    destruct (@app_split_lt a (LBRACE :: b1) a2 (RBRACE :: b) E) as [d [m [-> E3]]];
      [lia|].
    inversion E3 as [[Hd Hb1]]. subst d.
    exists a, m, b. repeat split; [rewrite E1, Hb1; reflexivity|exact Ha|exact Hb|].
    rewrite <- (@strip_delimited LBRACE RBRACE m) by reflexivity.
    f_equal. rewrite E1, Hb1. subst i j. unfold slice.
    rewrite skipn_app, Nat.sub_diag, skipn_all. simpl skipn. simpl app at 1.
    rewrite length_app. simpl length.
    replace (length a + S (length m) + 1 - length a)%nat with (S (length m + 1)) by lia.
    simpl firstn. f_equal.
    replace (length m + 1)%nat with (length (m ++ [RBRACE]) + 0)%nat
      by (rewrite length_app; simpl; lia).
    change (m ++ RBRACE :: b) with (m ++ [RBRACE] ++ b). rewrite app_assoc.
    rewrite firstn_app_2. simpl. apply app_nil_r.
Qed.

(** X5: loose extraction returns the text from the first opening brace
    to the last closing brace of its input, both included, when that
    closing brace comes after that opening brace; it returns nothing
    exactly when no opening brace of the input is followed by a closing
    brace. *)
Theorem extract_json_object_spec (t : text) :
  match _extract_json_object t with
  | Some e =>
      exists a m b,
        t = a ++ LBRACE :: m ++ RBRACE :: b
        /\ ~ In LBRACE a /\ ~ In RBRACE b
        /\ e = LBRACE :: m ++ [RBRACE]
  | None => forall a m b, t <> a ++ LBRACE :: m ++ RBRACE :: b
  end.
Proof. exact (extract_json_object_span t). Qed.

Lemma app_inv_length (x y x' y' : text) :
  length x = length x' -> x ++ y = x' ++ y' -> x = x' /\ y = y'.
Proof.
  revert x'. induction x as [|c x IH]; intros x' L E.
  - destruct x'; [split; [reflexivity|exact E]|discriminate L].
  - destruct x' as [|d x']; [discriminate L|].
    simpl in *. inversion E as [[Hc Ht]]. inversion L as [L'].
    destruct (IH x' L' Ht) as [-> ->]. split; reflexivity.
Qed.

Lemma scan_stops_on_rbrace rest :
  forall i d s e k,
    scan_object rest i d s e = Some k ->
    exists u v, rest = u ++ RBRACE :: v /\ (length u + i = k)%nat.
Proof.
  induction rest as [|ch rest IH]; intros i d s e k; simpl; [discriminate|].
  intros H.
  assert (Step : forall d' s' e', scan_object rest (S i) d' s' e' = Some k ->
                   exists u v, ch :: rest = u ++ RBRACE :: v /\ (length u + i = k)%nat).
  { intros d' s' e' H'. destruct (IH _ _ _ _ _ H') as [u [v [-> L]]].
    exists (ch :: u), v. split; [reflexivity|simpl; lia]. }
  destruct s.
  - destruct e; [eapply Step; exact H|].
    destruct (ch =? BACKSLASH); [eapply Step; exact H|].
    destruct (ch =? QUOTE); eapply Step; exact H.
  - destruct (ch =? QUOTE); [eapply Step; exact H|].
    destruct (ch =? LBRACE); [eapply Step; exact H|].
    destruct (N.eqb_spec ch RBRACE) as [->|_]; [|eapply Step; exact H].
    destruct (d - 1 =? 0)%Z; [|eapply Step; exact H].
    inversion H; subst. exists [], rest. split; reflexivity.
Qed.

(** X6: whenever complete-object extraction finds an object, loose
    extraction finds a text too, and that text starts with the object:
    both begin at the first opening brace, and the last closing brace is
    not before the one that closes the object. *)
Theorem complete_object_prefix_of_loose (t c : text) :
  _find_first_complete_json_object t = Some c ->
  exists e rest, _extract_json_object t = Some e /\ e = c ++ rest.
Proof.
  rewrite find_first_complete_unfold.
  destruct (find LBRACE t) as [start|] eqn:F; [|discriminate].
  destruct (find_first _ _ F) as [a [b1 [E1 [La Ha]]]].
  destruct (scan_object (skipn start t) start 0 false false) as [k|] eqn:Sc; [|discriminate].
  intros C. injection C as Hc.
  assert (Sk : skipn start t = LBRACE :: b1).
  { rewrite E1, <- La, skipn_app, Nat.sub_diag, skipn_all. reflexivity. }
  rewrite Sk in Sc. destruct (scan_stops_on_rbrace _ _ _ _ _ Sc) as [u [v [Eu Lu]]].
  destruct u as [|x u']; [discriminate Eu|]. simpl in Eu. inversion Eu as [[Hx Hb1]].
  subst x. simpl in Lu.
  assert (Hc' : c = LBRACE :: u' ++ [RBRACE]).
  { rewrite <- Hc, <- (@strip_delimited LBRACE RBRACE u') by reflexivity. f_equal.
    unfold slice. rewrite Sk, Hb1.
    replace (k + 1 - start)%nat with (S (length u' + 1)) by lia.
    simpl firstn. f_equal.
    replace (length u' + 1)%nat with (length (u' ++ [RBRACE]) + 0)%nat
      by (rewrite length_app; simpl; lia).
    change (u' ++ RBRACE :: v) with (u' ++ [RBRACE] ++ v). rewrite app_assoc.
    rewrite firstn_app_2. simpl. apply app_nil_r. }
  clear Hc.
  pose proof (extract_json_object_span t) as X.
  destruct (_extract_json_object t) as [e|].
  2:{ exfalso. apply (X a u' v). rewrite E1, Hb1. reflexivity. }
  destruct X as [a3 [m [b3 [E3 [Ha3 [Hb3 He]]]]]].
  assert (Eq : a ++ LBRACE :: b1 = a3 ++ LBRACE :: m ++ RBRACE :: b3) by congruence.
  assert (La3 : length a = length a3).
  { apply Nat.le_antisymm.
    - exact (@first_occurrence_le LBRACE a b1 a3 (m ++ RBRACE :: b3) Eq Ha).
    - symmetry in Eq.
      exact (@first_occurrence_le LBRACE a3 (m ++ RBRACE :: b3) a b1 Eq Ha3). }
  destruct (app_inv_length _ _ _ _ La3 Eq) as [-> Eq2].
  inversion Eq2 as [Eq3]. rewrite Hb1 in Eq3.
  assert (Lm : (length u' <= length m)%nat).
  { exact (@last_occurrence_ge RBRACE m b3 u' v (eq_sym Eq3) Hb3). }
  exists e. subst e c.
  destruct (Nat.eq_dec (length u') (length m)) as [Le|Ln].
  - destruct (app_inv_length _ _ _ _ Le Eq3) as [-> _].
    exists []. split; [reflexivity|rewrite app_nil_r; reflexivity].
  - destruct (@app_split_lt u' (RBRACE :: v) m (RBRACE :: b3) Eq3) as [d [m2 [-> E4]]];
      [lia|].
    injection E4 as Hd _. subst d.
    exists (m2 ++ [RBRACE]). split; [reflexivity|].
    simpl. rewrite <- !app_assoc. reflexivity.
Qed.

Lemma complete_object_prefix_of_loose_witness :
  exists e rest,
    _extract_json_object (pyq "Sure! {'a':1} or {'b':2}.") = Some e
    /\ e = pyq "{'a':1}" ++ rest.
Proof.
  apply complete_object_prefix_of_loose. vm_compute. reflexivity.
Defined.

(* ===================================================================== *)
(** * More on the repair pipeline *)
(* ===================================================================== *)

Lemma loads_if_outcome json_loads s :
  match LLMClientRaising.loads_if json_loads s with
  | LLMClientRaising.Parsed v => parsed_value json_loads v
  | LLMClientRaising.NotJSON => True
  | LLMClientRaising.LoadRaises e => exists t, json_loads t = LLMClientRaising.LoadRaises e
  end.
Proof.
  destruct s as [[|c s]|]; simpl; try exact I.
  destruct (json_loads (c :: s)) eqn:L; [eexists; exact L|exact I|eexists; exact L].
Qed.

Lemma raising_continuation_loop_outcome json_loads generate sys mt mc rounds :
  forall calls tail combined,
    match fst (LLMClientRaising.continuation_loop json_loads generate sys mt mc
                 rounds calls tail combined) with
    | Ok (Some v) => parsed_value json_loads v
    | Ok None => True
    | Raise e =>
        (exists n r, generate n r = Raise e)
        \/ (exists t, json_loads t = LLMClientRaising.LoadRaises e)
    end.
Proof.
  induction rounds as [|i rest IH]; intros calls tail combined; simpl; [exact I|].
  destruct (generate calls (continuation_request sys mt tail)) as [c|e] eqn:G; simpl.
  2:{ left. eexists. eexists. exact G. }
  destruct (_find_first_complete_json_object (combined ++ _strip_code_fences c))
    as [[|x complete_after]|]; try apply IH.
  destruct (json_loads (x :: complete_after)) as [v| |e] eqn:L; simpl.
  - eexists. exact L.
  - destruct (i <? mc - 1)%Z; [apply IH|exact I].
  - right. eexists. exact L.
Qed.

Lemma raising_continuation_loop_decode_only json_loads generate sys mt mc rounds :
  (forall t e, json_loads t <> LLMClientRaising.LoadRaises e) ->
  forall calls tail combined,
    LLMClientRaising.continuation_loop json_loads generate sys mt mc rounds calls tail combined
    = continuation_loop (LLMClientRaising.decode_only json_loads) generate sys mt mc
                        rounds calls tail combined.
Proof.
  intros N. induction rounds as [|i rest IH]; intros calls tail combined; simpl;
    [reflexivity|].
  destruct (generate calls (continuation_request sys mt tail)) as [c|e]; [|reflexivity].
  destruct (_find_first_complete_json_object (combined ++ _strip_code_fences c))
    as [[|x complete_after]|]; try apply IH.
  unfold LLMClientRaising.decode_only.
  destruct (json_loads (x :: complete_after)) as [v| |e] eqn:L.
  - reflexivity.
  - destruct (i <? mc - 1)%Z; [apply IH|reflexivity].
  - exfalso. exact (N _ _ L).
Qed.

Lemma raising_loads_if_decode_only json_loads s :
  (forall t e, json_loads t <> LLMClientRaising.LoadRaises e) ->
  loads_if (LLMClientRaising.decode_only json_loads) s
  = match LLMClientRaising.loads_if json_loads s with
    | LLMClientRaising.Parsed v => Some v
    | _ => None
    end.
Proof. intros N. destruct s as [[|c s]|]; reflexivity. Qed.

(** X7: the pipeline fails in no other way than these, also when
    [json.loads] raises something else than a decoding error.  When it
    returns a value, the value is the parse of some text.  When it
    raises, the exception is one a backend request raised, or one that
    [json.loads] raised and that is not a decoding error (it is not
    caught), or it is the parse failure, which carries the original
    reply and a candidate text that does not decode.  With a
    [json.loads] that raises decoding errors only, the pipeline is the
    one that tells no other exception apart. *)
Theorem generate_json_outcome
        (json_loads : text -> LLMClientRaising.Loaded)
        (generate : nat -> GenRequest -> Res text)
        (p : text) (sys : option text) (temp mt mc : Z) :
  match LLMClientRaising.generate_json json_loads generate p sys temp mt mc with
  | Ok v => parsed_value json_loads v
  | Raise e =>
      (exists n r, generate n r = Raise e)
      \/ (exists t, json_loads t = LLMClientRaising.LoadRaises e)
      \/ (exists response candidate,
             generate 0%nat {| prompt := UserPrompt p; system := sys;
                               temperature_tenths := temp; json_mode := true;
                               max_tokens := mt |} = Ok response
             /\ e = mkExn (JSONParseError response candidate) (MsgJSONParse mt)
             /\ json_loads candidate = LLMClientRaising.NotJSON)
  end
  /\ ((forall t e, json_loads t <> LLMClientRaising.LoadRaises e) ->
      LLMClientRaising.generate_json json_loads generate p sys temp mt mc
      = generate_json (LLMClientRaising.decode_only json_loads) generate p sys temp mt mc).
Proof.
  split.
  - unfold LLMClientRaising.generate_json.
    destruct (generate 0%nat _) as [response|e] eqn:G.
    2:{ left. eexists. eexists. exact G. }
    pose proof (loads_if_outcome json_loads
                  (_find_first_complete_json_object (_strip_code_fences response))) as O0.
    destruct (LLMClientRaising.loads_if json_loads
                (_find_first_complete_json_object (_strip_code_fences response)))
      as [v| |e] eqn:L0; [exact O0| |right; left; exact O0].
    destruct (json_loads response) as [v| |e] eqn:L1;
      [eexists; exact L1| |right; left; eexists; exact L1].
    unfold LLMClientRaising.repair.
    destruct (json_loads (_strip_code_fences response)) as [v| |e] eqn:L2;
      [eexists; exact L2| |right; left; eexists; exact L2].
    pose proof (loads_if_outcome json_loads
                  (_extract_json_object (_strip_code_fences response))) as O3.
    destruct (LLMClientRaising.loads_if json_loads
                (_extract_json_object (_strip_code_fences response)))
      as [v| |e] eqn:L3; [exact O3| |right; left; exact O3].
    rewrite L0.
    match goal with
    | |- context [if ?c then ?x else ?y] =>
        assert (K : match fst (if c then x else y) with
                    | Ok (Some v) => parsed_value json_loads v
                    | Ok None => True
                    | Raise e =>
                        (exists n r, generate n r = Raise e)
                        \/ (exists t, json_loads t = LLMClientRaising.LoadRaises e)
                    end)
          by (destruct c; [apply raising_continuation_loop_outcome|exact I]);
        destruct (if c then x else y) as [[[v|]|e] combined]
    end; simpl in K.
    + exact K.
    + match goal with
      | |- context [json_loads (_remove_trailing_commas ?c)] =>
          destruct (json_loads (_remove_trailing_commas c)) as [v| |e] eqn:L4;
            [eexists; exact L4| |right; left; eexists; exact L4];
            destruct (_remove_trailing_commas c) as [|x r] eqn:Rp
      end.
      * right; right. exists response, (_strip_code_fences response).
        repeat split; assumption.
      * right; right. exists response, (x :: r). repeat split; assumption.
    + destruct K as [K|K]; [left; exact K|right; left; exact K].
  - intros N.
    unfold LLMClientRaising.generate_json, generate_json.
    destruct (generate 0%nat _) as [response|e]; [|reflexivity].
    cbv zeta. rewrite (raising_loads_if_decode_only _ _ N).
    destruct (LLMClientRaising.loads_if json_loads
                (_find_first_complete_json_object (_strip_code_fences response)))
      as [v| |e] eqn:L0; [reflexivity| |exfalso].
    2:{ pose proof (loads_if_outcome json_loads
                      (_find_first_complete_json_object (_strip_code_fences response))) as O.
        rewrite L0 in O. destruct O as [t O]. exact (N _ _ O). }
    unfold LLMClientRaising.decode_only at 1.
    destruct (json_loads response) as [v| |e] eqn:L1;
      [reflexivity| |exfalso; exact (N _ _ L1)].
    unfold LLMClientRaising.repair, repair. cbv zeta.
    unfold LLMClientRaising.decode_only at 1.
    destruct (json_loads (_strip_code_fences response)) as [v| |e] eqn:L2;
      [reflexivity| |exfalso; exact (N _ _ L2)].
    rewrite !(raising_loads_if_decode_only _ _ N).
    destruct (LLMClientRaising.loads_if json_loads
                (_extract_json_object (_strip_code_fences response)))
      as [v| |e] eqn:L3; [reflexivity| |exfalso].
    2:{ pose proof (loads_if_outcome json_loads
                      (_extract_json_object (_strip_code_fences response))) as O.
        rewrite L3 in O. destruct O as [t O]. exact (N _ _ O). }
    rewrite L0.
    rewrite (raising_continuation_loop_decode_only _ _ _ _ _ _ N).
    match goal with
    | |- context [if ?c then ?x else ?y] =>
        destruct (if c then x else y) as [[[v|]|e] combined]
    end; try reflexivity.
    unfold LLMClientRaising.decode_only.
    match goal with
    | |- context [json_loads (_remove_trailing_commas ?c)] =>
        destruct (json_loads (_remove_trailing_commas c)) as [v| |e] eqn:L4;
          [reflexivity|reflexivity|exfalso; exact (N _ _ L4)]
    end.
Qed.

(** An exception of [json.loads] that is not a decoding error leaves
    the pipeline as it is, at the first parse. *)
Example generate_json_loads_raises :
  let overflow := mkExn ValueError (MsgText (py "Exceeds the limit for integer string conversion")) in
  LLMClientRaising.generate_json
    (fun _ => LLMClientRaising.LoadRaises overflow)
    (fun _ _ => Ok (pyq "{'a':1}")) (py "p") None 7 8000 1
  = Raise overflow.
Proof. vm_compute. reflexivity. Qed.

Lemma continuation_loop_agree json_loads g g' sys mt mc rounds :
  forall calls tail combined,
    (forall n r, (calls <= n < calls + length rounds)%nat -> g n r = g' n r) ->
    continuation_loop json_loads g sys mt mc rounds calls tail combined
    = continuation_loop json_loads g' sys mt mc rounds calls tail combined.
Proof.
  induction rounds as [|i rest IH]; intros calls tail combined H; simpl; [reflexivity|].
  rewrite <- (H calls) by (simpl; lia).
  assert (Hr : forall n r, (S calls <= n < S calls + length rest)%nat -> g n r = g' n r)
    by (intros n r L; apply H; simpl; lia).
  destruct (g calls (continuation_request sys mt tail)) as [c|e]; [|reflexivity].
  destruct (_find_first_complete_json_object (combined ++ _strip_code_fences c))
    as [[|x complete_after]|]; try (apply IH; exact Hr).
  destruct (json_loads (x :: complete_after)); [reflexivity|].
  destruct (i <? mc - 1)%Z; [apply IH; exact Hr|reflexivity].
Qed.

(** X8: one call of the pipeline sends at most one request plus
    [max_continuations] continuation requests: its result depends on the
    backend only through the replies number 0 to [max_continuations];
    and only through the first reply when that reply, stripped of its
    fence, is not truncated or when no continuation is allowed. *)
Theorem generate_json_requests
        (json_loads : text -> option Json) (g g' : nat -> GenRequest -> Res text)
        (p : text) (sys : option text) (temp mt mc : Z) :
  ((forall n r, (n <= Z.to_nat mc)%nat -> g n r = g' n r) ->
   generate_json json_loads g p sys temp mt mc
   = generate_json json_loads g' p sys temp mt mc)
  /\ (forall response,
         g 0%nat {| prompt := UserPrompt p; system := sys; temperature_tenths := temp;
                    json_mode := true; max_tokens := mt |} = Ok response ->
         g' 0%nat {| prompt := UserPrompt p; system := sys; temperature_tenths := temp;
                     json_mode := true; max_tokens := mt |} = Ok response ->
         _is_likely_truncated_json (_strip_code_fences response) = false
         \/ (mc <= 0)%Z ->
         generate_json json_loads g p sys temp mt mc
         = generate_json json_loads g' p sys temp mt mc).
Proof.
  split.
  - intros H. unfold generate_json, repair. rewrite <- (H 0%nat) by lia.
    destruct (g 0%nat _) as [response|e]; [|reflexivity].
    rewrite (@continuation_loop_agree json_loads g g' sys mt mc); [reflexivity|].
    intros n r L. apply H. rewrite length_map, length_seq in L. lia.
  - intros response G G' C. unfold generate_json, repair. rewrite G, G'.
    destruct C as [C|C].
    + rewrite C, andb_false_r. reflexivity.
    + replace (0 <? mc)%Z with false by (symmetry; apply Z.ltb_ge; exact C).
      reflexivity.
Qed.

Lemma generate_json_requests_witness :
  generate_json JsonReader.json_loads
                (fun n _ => match n with
                            | O => Ok (pyq "{'a':[1,")
                            | 1%nat => Ok (pyq "2]}")
                            | _ => Ok (pyq "never read")
                            end) [] None 7 8000 1
  = generate_json JsonReader.json_loads
                  (fun n _ => match n with
                              | O => Ok (pyq "{'a':[1,")
                              | 1%nat => Ok (pyq "2]}")
                              | _ => Raise Scenario.timeout_error
                              end) [] None 7 8000 1.
Proof.
  apply (proj1 (@generate_json_requests JsonReader.json_loads _ _ [] None 7%Z 8000%Z 1%Z)).
  intros n r L. change (Z.to_nat 1) with 1%nat in L.
  destruct n as [|[|n]]; [reflexivity|reflexivity|lia].
Defined.

(* ===================================================================== *)
(** * More on the backend transport *)
(* ===================================================================== *)

(** X9: the outcome of the transport is that of the first attempt that
    does not end in a connection error, provided it is one of the five
    attempts: the result is what that attempt alone gives, and the waits
    before it are 3, 6, ... one per connection error met. *)
Theorem generate_mistral_first_decisive (timeout_s max_tokens : Z)
        (post : Z -> PostOutcome) (k : nat) :
  (k <= 4)%nat ->
  (forall j, (j < k)%nat -> exists e, post (Z.of_nat j) = RaisesConnectionError e) ->
  (forall e, post (Z.of_nat k) <> RaisesConnectionError e) ->
  fst (_generate_mistral timeout_s max_tokens post)
  = fst (retry_loop timeout_s max_tokens post [Z.of_nat k] [])
  /\ snd (_generate_mistral timeout_s max_tokens post)
     = map (fun j => (Z.of_nat j * 3)%Z) (seq 1 k).
Proof.
  intros L Hc Hn. unfold _generate_mistral.
  change (map Z.of_nat (seq 0 (Z.to_nat max_retries))) with [0; 1; 2; 3; 4]%Z.
  assert (Dec : forall rest slept,
             retry_loop timeout_s max_tokens post (Z.of_nat k :: rest) slept
             = (fst (retry_loop timeout_s max_tokens post [Z.of_nat k] []), slept)).
  { intros rest slept. simpl.
    destruct (post (Z.of_nat k)) eqn:P; try reflexivity. exfalso. exact (Hn _ eq_refl). }
  assert (Go : forall j rest slept,
             (j < k)%nat ->
             retry_loop timeout_s max_tokens post (Z.of_nat j :: rest) slept
             = retry_loop timeout_s max_tokens post rest
                          (slept ++ [(Z.of_nat j + 1) * 3])%Z).
  { intros j rest slept Lj. destruct (Hc j Lj) as [e E].
    apply (@retry_loop_connection_error timeout_s max_tokens post _ rest slept e E). lia. }
  assert (R : retry_loop timeout_s max_tokens post [0; 1; 2; 3; 4]%Z []
              = (fst (retry_loop timeout_s max_tokens post [Z.of_nat k] []),
                 map (fun j => (Z.of_nat j * 3)%Z) (seq 1 k))).
  { destruct k as [|[|[|[|[|k]]]]]; [| | | | |lia].
    - exact (Dec _ _).
    - etransitivity; [exact (Go 0%nat _ _ ltac:(lia))|]. exact (Dec _ _).
    - etransitivity; [exact (Go 0%nat _ _ ltac:(lia))|].
      etransitivity; [exact (Go 1%nat _ _ ltac:(lia))|]. exact (Dec _ _).
    - etransitivity; [exact (Go 0%nat _ _ ltac:(lia))|].
      etransitivity; [exact (Go 1%nat _ _ ltac:(lia))|].
      etransitivity; [exact (Go 2%nat _ _ ltac:(lia))|]. exact (Dec _ _).
    - etransitivity; [exact (Go 0%nat _ _ ltac:(lia))|].
      etransitivity; [exact (Go 1%nat _ _ ltac:(lia))|].
      etransitivity; [exact (Go 2%nat _ _ ltac:(lia))|].
      etransitivity; [exact (Go 3%nat _ _ ltac:(lia))|]. exact (Dec _ _). }
  rewrite R. split; reflexivity.
Qed.

Lemma generate_mistral_first_decisive_witness :
  let post := fun attempt : Z =>
                if (attempt <? 2)%Z then RaisesConnectionError (py "reset")
                else RaisesTimeout in
  fst (_generate_mistral 300 2000 post) = fst (retry_loop 300 2000 post [Z.of_nat 2] [])
  /\ snd (_generate_mistral 300 2000 post) = map (fun j => (Z.of_nat j * 3)%Z) (seq 1 2).
Proof.
  intros post. apply generate_mistral_first_decisive.
  - lia.
  - intros j Lj. exists (py "reset"). destruct j as [|[|j]]; [reflexivity|reflexivity|lia].
  - intros e H. discriminate H.
Defined.

(* ===================================================================== *)
(** * The excerpt of a parse failure *)
(* ===================================================================== *)

(** X10: the excerpt of a parse failure is the stripped candidate text
    (the original reply when there is no candidate) when it has at most
    [max_chars] characters; otherwise, for a positive [max_chars], it is
    the first [max_chars // 2] and the last [(max_chars + 1) // 2]
    characters of that text around an ellipsis, [max_chars + 5]
    characters in all.  With [max_chars] zero the bound is lost: the
    whole text follows the ellipsis. *)
Theorem excerpt_bounded (response cleaned : text) (max_chars : Z) :
  (1 <= max_chars)%Z ->
  let t := strip (match cleaned with _ :: _ => cleaned | [] => response end) in
  (length (excerpt response cleaned max_chars) <= Z.to_nat max_chars + 5)%nat
  /\ ((Z.of_nat (length t) <= max_chars)%Z -> excerpt response cleaned max_chars = t)
  /\ ((max_chars < Z.of_nat (length t))%Z ->
      exists h m tl,
        t = h ++ m ++ tl
        /\ excerpt response cleaned max_chars = h ++ ellipsis ++ tl
        /\ Z.of_nat (length h) = (max_chars / 2)%Z
        /\ Z.of_nat (length tl) = ((max_chars + 1) / 2)%Z)
  /\ excerpt response cleaned 0 = match t with [] => [] | _ => ellipsis ++ t end.
Proof.
  intros M t.
  assert (Long : (max_chars < Z.of_nat (length t))%Z ->
                 exists h m tl,
                   t = h ++ m ++ tl
                   /\ excerpt response cleaned max_chars = h ++ ellipsis ++ tl
                   /\ Z.of_nat (length h) = (max_chars / 2)%Z
                   /\ Z.of_nat (length tl) = ((max_chars + 1) / 2)%Z).
  { intros L. unfold excerpt. fold t.
    replace (Z.of_nat (length t) <=? max_chars)%Z with false
      by (symmetry; apply Z.leb_gt; exact L).
    unfold slice_to, slice_from.
    assert (D : (- max_chars / 2 = - ((max_chars + 1) / 2))%Z)
      by (Z.to_euclidean_division_equations; lia).
    replace (0 <=? max_chars / 2)%Z with true
      by (symmetry; apply Z.leb_le; Z.to_euclidean_division_equations; lia).
    replace (0 <=? - max_chars / 2)%Z with false
      by (symmetry; apply Z.leb_gt; Z.to_euclidean_division_equations; lia).
    rewrite D, Z.opp_involutive.
    set (a := Z.to_nat (max_chars / 2)).
    set (b := Z.to_nat ((max_chars + 1) / 2)).
    assert (Hab : (a + b < length t)%nat)
      by (unfold a, b; Z.to_euclidean_division_equations; lia).
    exists (firstn a t), (firstn (length t - b - a) (skipn a t)), (skipn (length t - b) t).
    repeat split.
    - rewrite <- (firstn_skipn a t) at 1. f_equal.
      rewrite <- (firstn_skipn (length t - b - a) (skipn a t)) at 1. f_equal.
      rewrite skipn_skipn. f_equal. lia.
    - rewrite length_firstn. unfold a. Z.to_euclidean_division_equations; lia.
    - rewrite length_skipn. unfold b. Z.to_euclidean_division_equations; lia. }
  repeat split.
  - destruct (Z.leb_spec (Z.of_nat (length t)) max_chars) as [S|S].
    + unfold excerpt. fold t.
      replace (Z.of_nat (length t) <=? max_chars)%Z with true
        by (symmetry; apply Z.leb_le; exact S). lia.
    + destruct (Long S) as [h [m [tl [_ [-> [Hh Ht]]]]]].
      rewrite !length_app. simpl. Z.to_euclidean_division_equations; lia.
  - intros S. unfold excerpt. fold t.
    replace (Z.of_nat (length t) <=? max_chars)%Z with true
      by (symmetry; apply Z.leb_le; exact S). reflexivity.
  - exact Long.
  - unfold excerpt. fold t. destruct t as [|c t']; [reflexivity|].
    reflexivity.
Qed.

Lemma excerpt_bounded_witness :
  let t := strip (py " 0123456789 ") in
  (length (excerpt [] (py " 0123456789 ") 5) <= Z.to_nat 5 + 5)%nat
  /\ ((Z.of_nat (length t) <= 5)%Z -> excerpt [] (py " 0123456789 ") 5 = t)
  /\ ((5 < Z.of_nat (length t))%Z ->
      exists h m tl,
        t = h ++ m ++ tl
        /\ excerpt [] (py " 0123456789 ") 5 = h ++ ellipsis ++ tl
        /\ Z.of_nat (length h) = (5 / 2)%Z
        /\ Z.of_nat (length tl) = ((5 + 1) / 2)%Z)
  /\ excerpt [] (py " 0123456789 ") 0 = match t with [] => [] | _ => ellipsis ++ t end.
Proof.
  exact (@excerpt_bounded [] (py " 0123456789 ") 5%Z ltac:(lia)).
Defined.

Example excerpt_ex : excerpt [] (py " 0123456789 ") 5 = py "01" ++ [LF] ++ py "..." ++ [LF] ++ py "789".
Proof. vm_compute. reflexivity. Qed.

(* ===================================================================== *)
(** * What the steps of a run leave in place *)
(* ===================================================================== *)

Section Keeps.
Variable R : Agent -> Agent -> Prop.
Hypothesis R_refl : forall st, R st st.
Hypothesis R_trans : forall a b c, R a b -> R b c -> R a c.
Hypothesis R_log : forall m st, R st (with_logs (logs st ++ [m]) st).
Hypothesis R_llm :
  forall st, R st {| action_history := action_history st;
                     collected_info := collected_info st;
                     logs := logs st; llm_calls := S (llm_calls st);
                     tool_calls := tool_calls st |}.

Lemma keeps_ret A (a : A) : keeps R (ret a).
Proof. intros st. apply R_refl. Qed.

Lemma keeps_raise A e : keeps R (@raise A e).
Proof. intros st. apply R_refl. Qed.

Lemma keeps_lift A (r : Res A) : keeps R (lift r).
Proof. intros st. apply R_refl. Qed.

Lemma keeps_get_info : keeps R get_info.
Proof. intros st. apply R_refl. Qed.

Lemma keeps_get_history : keeps R get_history.
Proof. intros st. apply R_refl. Qed.

Lemma keeps_bind A B (m : M A) (k : A -> M B) :
  keeps R m -> (forall a, keeps R (k a)) -> keeps R (bind m k).
Proof.
  intros Hm Hk st. unfold bind. specialize (Hm st).
  destruct (m st) as [[a|e] st1]; simpl in *; [|exact Hm].
  eapply R_trans; [exact Hm|apply Hk].
Qed.

Lemma keeps_catch A (m : M A) (h : Exn -> M A) :
  keeps R m -> (forall e, keeps R (h e)) -> keeps R (catch m h).
Proof.
  intros Hm Hh st. unfold catch. specialize (Hm st).
  destruct (m st) as [[a|e] st1]; simpl in *; [exact Hm|].
  eapply R_trans; [exact Hm|apply Hh].
Qed.

Lemma keeps_log m : keeps R (_log m).
Proof. intros st. apply R_log. Qed.

Lemma keeps_call_llm llm req : keeps R (call_llm llm req).
Proof. intros st. apply R_llm. Qed.

Ltac keeps_step :=
  first
    [ assumption
    | apply keeps_ret | apply keeps_raise | apply keeps_lift
    | apply keeps_get_info | apply keeps_get_history
    | apply keeps_call_llm | apply keeps_log
    | apply keeps_bind; [|intros ?]
    | apply keeps_catch; [|intros ?]
    | match goal with
      | |- keeps _ (if ?b then _ else _) => destruct b
      | |- keeps _ (match ?x with _ => _ end) => destruct x
      end ].

Lemma keeps_log_all lines : keeps R (log_all lines).
Proof. induction lines as [|m l IH]; simpl; repeat keeps_step. Qed.

Lemma keeps_weather_for_prompt degraded : keeps R (weather_for_prompt degraded).
Proof. unfold weather_for_prompt. repeat keeps_step. Qed.

Lemma keeps_log_issues issues : keeps R (log_issues issues).
Proof. induction issues as [|issue rest IH]; simpl; repeat keeps_step. Qed.

Lemma keeps_self_correct cfg llm itinerary : keeps R (_self_correct cfg llm itinerary).
Proof.
  unfold _self_correct, self_correct_prelude, self_correct_try.
  repeat (apply keeps_log_issues || apply keeps_weather_for_prompt || keeps_step).
Qed.

Lemma keeps_decide_action llm : keeps R (decide_action llm).
Proof.
  unfold decide_action.
  do 7 (apply keeps_bind; [repeat keeps_step|intros ?]).
  apply keeps_bind; [apply keeps_get_info|intros info].
  match goal with
  | |- context [resolve_action ?x ?y ?z] =>
      destruct (resolve_action x y z) as [[action input] lines]
  end.
  apply keeps_bind; [apply keeps_log_all|intros _; apply keeps_ret].
Qed.

Section KeepsTools.
Hypothesis R_tool :
  forall st, R st {| action_history := action_history st;
                     collected_info := collected_info st;
                     logs := logs st; llm_calls := llm_calls st;
                     tool_calls := S (tool_calls st) |}.
Hypothesis R_geocode :
  forall g st, R st (with_info (set_geocode g (collected_info st)) st).
Hypothesis R_weather :
  forall w st, R st (with_info (set_weather w (collected_info st)) st).
Hypothesis R_unavailable :
  forall st, R st (with_info (set_weather_unavailable (collected_info st)) st).

Lemma keeps_call_tool A (tool : nat -> Res A) : keeps R (call_tool tool).
Proof. intros st. apply R_tool. Qed.

Lemma keeps_set_geocode g : keeps R (modify_info (set_geocode g)).
Proof. intros st. apply R_geocode. Qed.

Lemma keeps_set_weather w : keeps R (modify_info (set_weather w)).
Proof. intros st. apply R_weather. Qed.

Lemma keeps_set_weather_unavailable : keeps R (modify_info set_weather_unavailable).
Proof. intros st. apply R_unavailable. Qed.

Ltac keeps_tool_step :=
  first [ apply keeps_call_tool | apply keeps_set_geocode | apply keeps_set_weather
        | apply keeps_set_weather_unavailable | keeps_step ].

Lemma keeps_execute_geocode geocode input : keeps R (_execute_geocode geocode input).
Proof. unfold _execute_geocode. repeat keeps_tool_step. Qed.

Lemma keeps_execute_weather get_weather input :
  keeps R (_execute_weather get_weather input).
Proof. unfold _execute_weather. repeat keeps_tool_step. Qed.

Section KeepsRun.
Hypothesis R_itinerary :
  forall i st, R st (with_info (set_itinerary i (collected_info st)) st).
Hypothesis R_history :
  forall r st, R st (with_history (action_history st ++ [r]) st).

Variable cfg : Config.
Variable llm : nat -> JsonRequest -> Res Json.
Variable geocode : nat -> Json -> Res (option GeoResult).
Variable get_weather : nat -> Json -> Json -> Json -> Json -> Res (list WeatherDay).
Variable model_validate : Json -> Res Json.

Lemma keeps_set_itinerary i : keeps R (modify_info (set_itinerary i)).
Proof. intros st. apply R_itinerary. Qed.

Lemma keeps_record_action a i r : keeps R (record_action a i r).
Proof. intros st. apply R_history. Qed.

Lemma keeps_plan_attempts attempts req :
  keeps R (plan_attempts llm model_validate attempts req).
Proof.
  induction attempts as [|attempt rest IH]; simpl; [apply keeps_ret|].
  unfold plan_try. repeat (apply keeps_set_itinerary || keeps_step).
Qed.

Lemma keeps_execute_plan : keeps R (_execute_plan cfg llm model_validate).
Proof.
  unfold _execute_plan.
  repeat (apply keeps_plan_attempts || apply keeps_weather_for_prompt || keeps_step).
Qed.

Lemma keeps_execute_action i action input :
  keeps R (execute_action cfg llm geocode get_weather model_validate i action input).
Proof.
  unfold execute_action.
  repeat (apply keeps_execute_geocode || apply keeps_execute_weather
          || apply keeps_execute_plan || apply keeps_self_correct
          || apply keeps_record_action
          || (intros st; apply R_refl) || keeps_step).
Qed.

Lemma keeps_iteration_step i st :
  R st (snd (iteration_step cfg llm geocode get_weather model_validate i st)).
Proof.
  unfold iteration_step.
  set (st0 := with_logs (logs st ++ [LogIteration (i + 1)]) st).
  assert (R0 : R st st0) by apply R_log.
  assert (K : keeps R (iteration_try cfg llm geocode get_weather model_validate i)).
  { unfold iteration_try. apply keeps_bind; [apply keeps_decide_action|intros d].
    apply keeps_execute_action. }
  specialize (K st0).
  destruct (iteration_try cfg llm geocode get_weather model_validate i st0)
    as [[[b|]|e] st1]; simpl in *.
  - eapply R_trans; eassumption.
  - eapply R_trans; eassumption.
  - eapply R_trans; [exact R0|]. eapply R_trans; [exact K|apply R_log].
Qed.

Lemma keeps_react_loop range :
  forall st, R st (snd (react_loop cfg llm geocode get_weather model_validate range st)).
Proof.
  induction range as [|i rest IH]; intros st; simpl; [apply R_refl|].
  pose proof (keeps_iteration_step i st) as K.
  destruct (iteration_step cfg llm geocode get_weather model_validate i st)
    as [[|b] st1]; simpl in *; [|exact K].
  eapply R_trans; [exact K|apply IH].
Qed.

Lemma keeps_plan_trip a st :
  R (reset a st) (snd (plan_trip cfg llm geocode get_weather model_validate a st)).
Proof.
  unfold plan_trip.
  pose proof (keeps_react_loop (seq 0 (Z.to_nat (max_iterations cfg))) (reset a st)) as K.
  destruct (react_loop cfg llm geocode get_weather model_validate
                       (seq 0 (Z.to_nat (max_iterations cfg))) (reset a st))
    as [[b|] st1]; simpl in *; [exact K|].
  eapply R_trans; [exact K|apply R_log].
Qed.

End KeepsRun.
End KeepsTools.
End Keeps.

Lemma untouched_refl st : untouched st st.
Proof. repeat split. Qed.

Lemma untouched_trans a b c : untouched a b -> untouched b c -> untouched a c.
Proof. intros [H1 [H2 H3]] [K1 [K2 K3]]. repeat split; congruence. Qed.

Lemma untouched_log m st : untouched st (with_logs (logs st ++ [m]) st).
Proof. repeat split. Qed.

Lemma untouched_llm st :
  untouched st {| action_history := action_history st;
                  collected_info := collected_info st;
                  logs := logs st; llm_calls := S (llm_calls st);
                  tool_calls := tool_calls st |}.
Proof. repeat split. Qed.

(** One attempt of [_execute_plan]: it calls the client once; the
    itinerary it returns is a validated one, and is the one stored. *)
Lemma plan_try_run llm model_validate req st :
  llm_calls (snd (plan_try llm model_validate req st)) = S (llm_calls st)
  /\ tool_calls (snd (plan_try llm model_validate req st)) = tool_calls st
  /\ (forall v st1,
        plan_try llm model_validate req st = (Ok v, st1) ->
        (exists reply, llm (llm_calls st) req = Ok reply /\ model_validate reply = Ok v)
        /\ ci_itinerary (collected_info st1) = Some v)
  /\ (forall e, llm (llm_calls st) req = Raise e ->
                fst (plan_try llm model_validate req st) = Raise e).
Proof.
  unfold plan_try, bind, call_llm, lift, modify_info, _log, ret.
  destruct (llm (llm_calls st) req) as [reply|e0]; simpl.
  2:{ repeat split; try discriminate. intros e E. congruence. }
  destruct (model_validate reply) as [v0|e0] eqn:V; simpl.
  2:{ repeat split; discriminate. }
  destruct (py_get v0 (py "daily_plans") (JArr [])) as [days|e0]; simpl.
  2:{ repeat split; discriminate. }
  destruct (py_len days) as [n|e0]; simpl.
  2:{ repeat split; discriminate. }
  split; [reflexivity|]. split; [reflexivity|]. split; [|discriminate].
  intros v st1 H. inversion H; subst. split; [|reflexivity].
  exists reply. split; [reflexivity|exact V].
Qed.

(** The two attempts of [_execute_plan], by the outcome of the first
    and, after a retryable failure, of the second, which starts from the
    state the first one left, with the retry lines logged. *)
Lemma plan_attempts_two llm model_validate req st :
  let r1 := plan_try llm model_validate req st in
  match fst r1 with
  | Ok v => plan_attempts llm model_validate [0; 1]%Z req st = r1
  | Raise e =>
      if retryable (exn_class e) then
        exists lines,
          let st2 := with_logs (logs (snd r1) ++ lines) (snd r1) in
          let r2 := plan_try llm model_validate req st2 in
          match fst r2 with
          | Ok v => plan_attempts llm model_validate [0; 1]%Z req st = r2
          | Raise e2 =>
              fst (plan_attempts llm model_validate [0; 1]%Z req st) = Raise e2
              /\ untouched (snd r2) (snd (plan_attempts llm model_validate [0; 1]%Z req st))
              /\ llm_calls (snd (plan_attempts llm model_validate [0; 1]%Z req st))
                 = llm_calls (snd r2)
          end
      else plan_attempts llm model_validate [0; 1]%Z req st = r1
  end.
Proof.
  intros r1. subst r1. cbn [plan_attempts]. unfold catch.
  destruct (plan_try llm model_validate req st) as [[v|e] st1]; cbn [fst snd];
    [reflexivity|].
  change (0 <? plan_max_retries - 1)%Z with true.
  change (1 <? plan_max_retries - 1)%Z with false. cbv iota.
  assert (Eq : forall a b,
             with_logs (logs (with_logs (logs st1 ++ [a]) st1) ++ [b])
                       (with_logs (logs st1 ++ [a]) st1)
             = with_logs (logs st1 ++ [a; b]) st1).
  { intros a b. unfold with_logs. cbn. rewrite <- app_assoc. reflexivity. }
  destruct (exn_class e) eqn:C; cbn [retryable]; try reflexivity.
  - exists [LogNotJSON e 0; LogJSONRetry]. cbv zeta.
    unfold bind, _log, raise. cbn [fst snd]. rewrite Eq.
    destruct (plan_try llm model_validate req _) as [[v2|e2] st3]; cbn [fst snd];
      [reflexivity|].
    destruct (exn_class e2); cbn; repeat split; reflexivity.
  - exists [LogJSONRetryAttempt 0]. cbv zeta.
    unfold bind, _log, raise. cbn [fst snd].
    destruct (plan_try llm model_validate req _) as [[v2|e2] st3]; cbn [fst snd];
      [reflexivity|].
    destruct (exn_class e2); cbn; repeat split; reflexivity.
  - exists [LogJSONRetryAttempt 0]. cbv zeta.
    unfold bind, _log, raise. cbn [fst snd].
    destruct (plan_try llm model_validate req _) as [[v2|e2] st3]; cbn [fst snd];
      [reflexivity|].
    destruct (exn_class e2); cbn; repeat split; reflexivity.
Qed.

(** [_execute_plan] is its two attempts on the request it builds, from
    a state that differs from the initial one by log lines only. *)
Lemma execute_plan_unfold cfg llm model_validate st :
  exists lines ws,
    _execute_plan cfg llm model_validate st
    = plan_attempts llm model_validate [0; 1]%Z
        {| jr_prompt := ItineraryGeneratorPrompt (collected_info st) ws;
           jr_system := false; jr_temperature_tenths := 5;
           jr_max_tokens := max_tokens_plan cfg; jr_max_continuations := 3 |}
        (with_logs (logs st ++ lines) st).
Proof.
  unfold _execute_plan, weather_for_prompt, bind, _log, get_info, ret. cbn [fst snd].
  change (map Z.of_nat (seq 0 (Z.to_nat plan_max_retries))) with [0; 1]%Z.
  cbn [collected_info with_logs].
  destruct (_ || _).
  - exists [LogPlanning; LogDegradedPlan], None. cbn.
    rewrite <- app_assoc. reflexivity.
  - exists [LogPlanning], (Some (get_weather_list (collected_info st))). reflexivity.
Qed.

Lemma execute_plan_ok cfg llm model_validate st plan st1 :
  _execute_plan cfg llm model_validate st = (Ok plan, st1) ->
  (exists reply, model_validate reply = Ok plan)
  /\ ci_itinerary (collected_info st1) = Some plan.
Proof.
  destruct (execute_plan_unfold cfg llm model_validate st) as [lines [ws ->]].
  match goal with
  | |- plan_attempts _ _ _ ?req ?s = _ -> _ =>
      pose proof (plan_attempts_two llm model_validate req s) as T;
      pose proof (plan_try_run llm model_validate req s) as [_ [_ [O1 _]]];
      cbv zeta in T;
      destruct (plan_try llm model_validate req s) as [[v|e] sa] eqn:E1; cbn [fst snd] in T
  end.
  - rewrite T. intros X. destruct (O1 _ _ X) as [[reply [_ V]] I]. eauto.
  - destruct (retryable (exn_class e)); [|rewrite T; discriminate].
    destruct T as [l2 T].
    match type of T with
    | context [plan_try _ _ ?req ?s] =>
        pose proof (plan_try_run llm model_validate req s) as [_ [_ [O2 _]]];
        destruct (plan_try llm model_validate req s) as [[v2|e2] sb] eqn:E2; cbn [fst snd] in T
    end.
    + rewrite T. intros X. destruct (O2 _ _ X) as [[reply [_ V]] I]. eauto.
    + destruct T as [T _]. intros X. rewrite X in T. discriminate.
Qed.

(** X11: self-correction and the decision step only log and call the
    LLM client: the collected information, the action history and the
    number of tool calls are as before.  After a PLAN with
    self-correction the itinerary stored in the collected information is
    thus the generated one, whatever itinerary the correction returns. *)
Theorem self_correct_leaves_state cfg llm (itinerary : Json) (st : Agent) :
  untouched st (snd (_self_correct cfg llm itinerary st))
  /\ untouched st (snd (decide_action llm st))
  /\ forall model_validate plan st1,
       _execute_plan cfg llm model_validate st = (Ok plan, st1) ->
       ci_itinerary (collected_info (snd (_self_correct cfg llm plan st1)))
       = Some plan.
Proof.
  split; [|split].
  - apply (@keeps_self_correct _ untouched_refl untouched_trans untouched_log untouched_llm).
  - apply (@keeps_decide_action _ untouched_refl untouched_trans untouched_log untouched_llm).
  - intros mv plan st1 E.
    destruct (@keeps_self_correct _ untouched_refl untouched_trans untouched_log
                                 untouched_llm cfg llm plan st1) as [H _].
    rewrite H. exact (proj2 (@execute_plan_ok _ _ _ _ _ _ E)).
Qed.

Lemma grows_refl st : grows st st.
Proof.
  unfold grows. repeat split; auto; exists []; rewrite app_nil_r; reflexivity.
Qed.

Lemma grows_trans a b c : grows a b -> grows b c -> grows a c.
Proof.
  intros [[l1 L1] [[h1 H1] [C1 [T1 [P1 [G1 [W1 [U1 I1]]]]]]]]
         [[l2 L2] [[h2 H2] [C2 [T2 [P2 [G2 [W2 [U2 I2]]]]]]]].
  unfold grows. repeat split; auto; try lia; try congruence.
  - exists (l1 ++ l2). rewrite L2, L1, app_assoc. reflexivity.
  - exists (h1 ++ h2). rewrite H2, H1, app_assoc. reflexivity.
Qed.

Ltac grows_prim :=
  unfold grows; simpl; repeat split; auto; try lia; try discriminate;
  try (exists []; rewrite app_nil_r; reflexivity); try (eexists; reflexivity).

Lemma grows_log m st : grows st (with_logs (logs st ++ [m]) st).
Proof. grows_prim. Qed.

Lemma grows_llm st :
  grows st {| action_history := action_history st;
              collected_info := collected_info st;
              logs := logs st; llm_calls := S (llm_calls st);
              tool_calls := tool_calls st |}.
Proof. grows_prim. Qed.

Lemma grows_tool st :
  grows st {| action_history := action_history st;
              collected_info := collected_info st;
              logs := logs st; llm_calls := llm_calls st;
              tool_calls := S (tool_calls st) |}.
Proof. grows_prim. Qed.

Lemma grows_geocode g st : grows st (with_info (set_geocode g (collected_info st)) st).
Proof. grows_prim. Qed.

Lemma grows_weather w st : grows st (with_info (set_weather w (collected_info st)) st).
Proof. grows_prim. Qed.

Lemma grows_unavailable st :
  grows st (with_info (set_weather_unavailable (collected_info st)) st).
Proof. grows_prim. Qed.

Lemma grows_itinerary i st : grows st (with_info (set_itinerary i (collected_info st)) st).
Proof. grows_prim. Qed.

Lemma grows_history r st : grows st (with_history (action_history st ++ [r]) st).
Proof. grows_prim. Qed.

Lemma grows_iteration_step cfg llm geocode get_weather model_validate i st :
  grows st (snd (iteration_step cfg llm geocode get_weather model_validate i st)).
Proof.
  apply (@keeps_iteration_step _ grows_refl grows_trans grows_log grows_llm grows_tool
           grows_geocode grows_weather grows_unavailable grows_itinerary grows_history).
Qed.

Lemma grows_react_loop cfg llm geocode get_weather model_validate range st :
  grows st (snd (react_loop cfg llm geocode get_weather model_validate range st)).
Proof.
  apply (@keeps_react_loop _ grows_refl grows_trans grows_log grows_llm grows_tool
           grows_geocode grows_weather grows_unavailable grows_itinerary grows_history).
Qed.

(** X12: a run takes nothing back.  Over any stretch of the loop, and
    over a whole run from the reset state, the logs and the action
    history are only extended at their end, the call counters do not
    decrease, the parameters of the trip stay as given, and a key of the
    collected information (geocode, weather, the unavailable mark,
    itinerary) that is set stays set. *)
Theorem run_takes_nothing_back cfg llm geocode get_weather model_validate
        (range : list nat) (a : TripArgs) (st : Agent) :
  grows st (snd (react_loop cfg llm geocode get_weather model_validate range st))
  /\ grows (reset a st) (snd (plan_trip cfg llm geocode get_weather model_validate a st))
  /\ trip_of (collected_info (snd (plan_trip cfg llm geocode get_weather model_validate a st)))
     = a.
Proof.
  assert (P : grows (reset a st)
                    (snd (plan_trip cfg llm geocode get_weather model_validate a st))).
  { apply (@keeps_plan_trip _ grows_refl grows_trans grows_log grows_llm grows_tool
             grows_geocode grows_weather grows_unavailable grows_itinerary grows_history). }
  split; [apply grows_react_loop|]. split; [exact P|].
  destruct P as [_ [_ [_ [_ [T _]]]]]. rewrite T. destruct a; reflexivity.
Qed.

(* ===================================================================== *)
(** * The retry policy of the PLAN action *)
(* ===================================================================== *)

Lemma plan_attempts_two_calls llm model_validate req s :
  let r := plan_attempts llm model_validate [0; 1]%Z req s in
  (llm_calls s + 1 <= llm_calls (snd r) <= llm_calls s + 2)%nat
  /\ (forall e, llm (llm_calls s) req = Raise e -> retryable (exn_class e) = false ->
                fst r = Raise e /\ llm_calls (snd r) = (llm_calls s + 1)%nat)
  /\ (forall e1 e2,
         llm (llm_calls s) req = Raise e1 -> retryable (exn_class e1) = true ->
         llm (S (llm_calls s)) req = Raise e2 ->
         fst r = Raise e2 /\ llm_calls (snd r) = (llm_calls s + 2)%nat).
Proof.
  intros r. subst r.
  pose proof (plan_attempts_two llm model_validate req s) as T. cbv zeta in T.
  destruct (plan_try_run llm model_validate req s) as [C1 [_ [_ F1]]].
  destruct (plan_try llm model_validate req s) as [[v|e] sa] eqn:E1; cbn [fst snd] in *.
  - rewrite T. cbn [fst snd]. split; [lia|].
    split; [intros e L _|intros e1 e2 L _ _]; apply F1 in L; discriminate L.
  - destruct (retryable (exn_class e)) eqn:Rt.
    + destruct T as [lines T].
      set (s2 := with_logs (logs sa ++ lines) sa) in *.
      assert (C2 : llm_calls s2 = llm_calls sa) by reflexivity.
      destruct (plan_try_run llm model_validate req s2) as [C3 [_ [_ F2]]].
      rewrite C2, C1 in F2.
      destruct (plan_try llm model_validate req s2) as [[v2|e2] sb] eqn:E2;
        cbn [fst snd] in *.
      * rewrite T. cbn [fst snd]. split; [lia|].
        split; [intros e0 L N|intros e1 e2 L1 _ L2].
        -- apply F1 in L. congruence.
        -- apply F2 in L2. discriminate L2.
      * destruct T as [Tf [_ Tc]]. rewrite Tf, Tc. split; [lia|].
        split; [intros e0 L N|intros e1 e3 L1 _ L2].
        -- apply F1 in L. congruence.
        -- apply F2 in L2. split; [congruence|lia].
    + rewrite T. cbn [fst snd]. split; [lia|].
      split; [intros e0 L N|intros e1 e2 L1 R1 _].
      * apply F1 in L. split; [congruence|lia].
      * apply F1 in L1. congruence.
Qed.

(** X13: the PLAN action asks the LLM client once or twice.  A plan it
    returns went through validation and is the one stored as the
    itinerary of the collected information.  When the first request
    raises an exception other than a JSON parse error, a value error or
    a validation error, that exception is raised after this one request;
    when it raises one of these and the second request raises too, the
    exception of the second request is the one raised. *)
Theorem execute_plan_policy cfg llm model_validate (st : Agent) :
  let r := _execute_plan cfg llm model_validate st in
  (forall plan, fst r = Ok plan ->
     (exists reply, model_validate reply = Ok plan)
     /\ ci_itinerary (collected_info (snd r)) = Some plan)
  /\ (llm_calls st + 1 <= llm_calls (snd r) <= llm_calls st + 2)%nat
  /\ (forall e,
         (forall req, llm (llm_calls st) req = Raise e) ->
         retryable (exn_class e) = false ->
         fst r = Raise e /\ llm_calls (snd r) = (llm_calls st + 1)%nat)
  /\ (forall e1 e2,
         (forall req, llm (llm_calls st) req = Raise e1) ->
         retryable (exn_class e1) = true ->
         (forall req, llm (S (llm_calls st)) req = Raise e2) ->
         fst r = Raise e2 /\ llm_calls (snd r) = (llm_calls st + 2)%nat).
Proof.
  intros r. split.
  - intros plan E. apply (@execute_plan_ok cfg llm model_validate st plan (snd r)).
    rewrite <- E. subst r. apply surjective_pairing.
  - subst r.
    destruct (execute_plan_unfold cfg llm model_validate st) as [lines [ws ->]].
    match goal with
    | |- context [plan_attempts _ _ _ ?req ?s] =>
        destruct (plan_attempts_two_calls llm model_validate req s) as [B [N T]]
    end.
    cbv zeta in *. cbn [llm_calls with_logs] in *.
    split; [exact B|]. split.
    + intros e L. apply N, L.
    + intros e1 e2 L1 R1 L2. apply (T e1 e2); [apply L1|exact R1|apply L2].
Qed.

(* ===================================================================== *)
(** * A stored lookup is not repeated *)
(* ===================================================================== *)

Lemma log_all_run lines :
  forall st, log_all lines st = (Ok tt, with_logs (logs st ++ lines) st).
Proof.
  induction lines as [|m l IH]; intros st; simpl.
  - unfold ret, with_logs. rewrite app_nil_r. destruct st; reflexivity.
  - unfold bind, _log. rewrite IH. unfold with_logs. cbn.
    rewrite <- app_assoc. reflexivity.
Qed.

(** The action an iteration executes comes out of the override rules,
    applied to the collected information as the iteration found it. *)
Lemma decide_action_resolved llm st a i st1 :
  decide_action llm st = (Ok (a, i), st1) ->
  collected_info st1 = collected_info st
  /\ exists a0 i0, fst (resolve_action a0 i0 (collected_info st)) = (a, i).
Proof.
  intros D. split.
  - pose proof (@keeps_decide_action _ untouched_refl untouched_trans untouched_log
                                     untouched_llm llm st) as [H _].
    rewrite D in H. exact H.
  - revert D. unfold decide_action, bind, get_info, get_history, call_llm, lift, _log, ret.
    cbn [fst snd].
    destruct (llm (llm_calls st) _) as [decision|e]; [|discriminate].
    destruct (py_get decision (py "thought") (JStr [])) as [thought|e]; [|discriminate].
    destruct (py_get decision (py "action") (JStr [])) as [action|e]; [|discriminate].
    destruct (py_get decision (py "action_input") (JObj [])) as [input|e]; [|discriminate].
    cbn [collected_info with_logs].
    destruct (resolve_action action input (collected_info st)) as [[a' i'] lines] eqn:Rz.
    rewrite log_all_run. intros H. inversion H; subst.
    exists action, input. rewrite Rz. reflexivity.
Qed.

Lemma resolve_not_geocode a0 i0 info :
  ci_geocode info <> None ->
  action_is (fst (fst (resolve_action a0 i0 info))) GEOCODE = false.
Proof.
  intros G. unfold resolve_action.
  destruct (action_is a0 GEOCODE) eqn:A.
  - destruct (ci_geocode info); [|contradiction].
    destruct (ci_weather info); reflexivity.
  - assert (X : action_is
                  (fst (fst (if action_is a0 WEATHER
                                && (match ci_weather info with Some _ => true | None => false end)
                                && negb (ci_weather_unavailable info)
                             then (JStr PLAN, JObj [],
                                   [LogAction a0 i0; LogOverrideWeatherDone;
                                    LogNewAction (JStr PLAN) None])
                             else if action_is a0 WEATHER && ci_weather_unavailable info
                                  then (JStr PLAN, JObj [],
                                        [LogAction a0 i0; LogOverrideWeatherUnavailable;
                                         LogNewAction (JStr PLAN) None])
                                  else (a0, i0, [LogAction a0 i0])))) GEOCODE = false).
    { destruct (_ && _ && _); [reflexivity|].
      destruct (_ && _); [reflexivity|exact A]. }
    destruct (ci_geocode info); exact X.
Qed.

Lemma resolve_not_weather a0 i0 info :
  ci_weather info <> None ->
  action_is (fst (fst (resolve_action a0 i0 info))) WEATHER = false.
Proof.
  intros W. unfold resolve_action.
  destruct (ci_weather info) as [w|]; [|contradiction].
  assert (X : action_is
                (fst (fst (if action_is a0 WEATHER && true
                              && negb (ci_weather_unavailable info)
                           then (JStr PLAN, JObj [],
                                 [LogAction a0 i0; LogOverrideWeatherDone;
                                  LogNewAction (JStr PLAN) None])
                           else if action_is a0 WEATHER && ci_weather_unavailable info
                                then (JStr PLAN, JObj [],
                                      [LogAction a0 i0; LogOverrideWeatherUnavailable;
                                       LogNewAction (JStr PLAN) None])
                                else (a0, i0, [LogAction a0 i0])))) WEATHER = false).
  { destruct (action_is a0 WEATHER) eqn:A, (ci_weather_unavailable info); cbn;
      try reflexivity; exact A. }
  destruct (action_is a0 GEOCODE), (ci_geocode info); try exact X; reflexivity.
Qed.

Section Lookups.
Variable cfg : Config.
Variable llm : nat -> JsonRequest -> Res Json.
Variable model_validate : Json -> Res Json.

Lemma iteration_step_geocode_free geocode geocode' get_weather i st :
  ci_geocode (collected_info st) <> None ->
  iteration_step cfg llm geocode get_weather model_validate i st
  = iteration_step cfg llm geocode' get_weather model_validate i st.
Proof.
  intros G. unfold iteration_step, iteration_try, bind.
  set (st0 := with_logs (logs st ++ [LogIteration (i + 1)]) st).
  destruct (decide_action llm st0) as [[[a inp]|e] st1] eqn:D; [|reflexivity].
  cbn [fst snd].
  destruct (@decide_action_resolved _ _ _ _ _ D) as [_ [a0 [i0 Rz]]].
  pose proof (@resolve_not_geocode a0 i0 (collected_info st0) G) as N.
  rewrite Rz in N. cbn [fst] in N.
  unfold execute_action. rewrite N. reflexivity.
Qed.

Lemma iteration_step_weather_free geocode get_weather get_weather' i st :
  ci_weather (collected_info st) <> None ->
  iteration_step cfg llm geocode get_weather model_validate i st
  = iteration_step cfg llm geocode get_weather' model_validate i st.
Proof.
  intros W. unfold iteration_step, iteration_try, bind.
  set (st0 := with_logs (logs st ++ [LogIteration (i + 1)]) st).
  destruct (decide_action llm st0) as [[[a inp]|e] st1] eqn:D; [|reflexivity].
  cbn [fst snd].
  destruct (@decide_action_resolved _ _ _ _ _ D) as [_ [a0 [i0 Rz]]].
  pose proof (@resolve_not_weather a0 i0 (collected_info st0) W) as N.
  rewrite Rz in N. cbn [fst] in N.
  unfold execute_action. rewrite N. reflexivity.
Qed.

Lemma react_loop_geocode_free geocode geocode' get_weather range :
  forall st,
    ci_geocode (collected_info st) <> None ->
    react_loop cfg llm geocode get_weather model_validate range st
    = react_loop cfg llm geocode' get_weather model_validate range st.
Proof.
  induction range as [|i rest IH]; intros st G; simpl; [reflexivity|].
  rewrite <- (@iteration_step_geocode_free geocode geocode' get_weather i st G).
  pose proof (grows_iteration_step cfg llm geocode get_weather model_validate i st) as Gr.
  destruct (iteration_step cfg llm geocode get_weather model_validate i st)
    as [[|b] st1]; [|reflexivity].
  apply IH. apply Gr, G.
Qed.

Lemma react_loop_weather_free geocode get_weather get_weather' range :
  forall st,
    ci_weather (collected_info st) <> None ->
    react_loop cfg llm geocode get_weather model_validate range st
    = react_loop cfg llm geocode get_weather' model_validate range st.
Proof.
  induction range as [|i rest IH]; intros st W; simpl; [reflexivity|].
  rewrite <- (@iteration_step_weather_free geocode get_weather get_weather' i st W).
  pose proof (grows_iteration_step cfg llm geocode get_weather model_validate i st) as Gr.
  destruct (iteration_step cfg llm geocode get_weather model_validate i st)
    as [[|b] st1]; [|reflexivity].
  apply IH. apply Gr, W.
Qed.

End Lookups.

(** X14: a stored lookup is not repeated.  From a state whose collected
    information holds a geocode result, the loop does the same whatever
    the geocoding tool would answer; from a state that holds a weather
    result (the empty one of the degraded mode included), it does the
    same whatever the weather tool would answer. *)
Theorem stored_lookups_not_repeated cfg llm model_validate geocode get_weather
        (range : list nat) (st : Agent) :
  (ci_geocode (collected_info st) <> None ->
   forall geocode',
     react_loop cfg llm geocode get_weather model_validate range st
     = react_loop cfg llm geocode' get_weather model_validate range st)
  /\ (ci_weather (collected_info st) <> None ->
      forall get_weather',
        react_loop cfg llm geocode get_weather model_validate range st
        = react_loop cfg llm geocode get_weather' model_validate range st).
Proof.
  split.
  - intros G geocode'. apply react_loop_geocode_free, G.
  - intros W get_weather'. apply react_loop_weather_free, W.
Qed.

Lemma stored_lookups_not_repeated_witness :
  let st := with_info (set_geocode Scenario.paris (initial_info Scenario.trip)) new_agent in
  let llm := Scenario.scripted
               [Ok (Scenario.decision GEOCODE (JObj [(py "city", JStr (py "Paris"))]))] in
  react_loop default_config llm Scenario.geocode_paris Scenario.weather_sunny
             Schema.model_validate [0; 1]%nat st
  = react_loop default_config llm (fun _ _ => Ok None) Scenario.weather_sunny
               Schema.model_validate [0; 1]%nat st.
Proof.
  intros st llm.
  apply (proj1 (stored_lookups_not_repeated default_config llm Schema.model_validate
                  Scenario.geocode_paris Scenario.weather_sunny [0; 1]%nat st)).
  discriminate.
Defined.

(* ===================================================================== *)
(** * The calls a run makes *)
(* ===================================================================== *)

Lemma spends_weaken A (m : M A) l t l' t' :
  spends l t m -> (l <= l')%nat -> (t <= t')%nat -> spends l' t' m.
Proof. intros H Hl Ht st. destruct (H st). split; lia. Qed.

Lemma spends_ret l t A (a : A) : spends l t (ret a).
Proof. intros st. simpl. lia. Qed.

Lemma spends_raise l t A e : spends l t (@raise A e).
Proof. intros st. simpl. lia. Qed.

Lemma spends_lift l t A (r : Res A) : spends l t (lift r).
Proof. intros st. simpl. lia. Qed.

Lemma spends_get_info l t : spends l t get_info.
Proof. intros st. simpl. lia. Qed.

Lemma spends_get_history l t : spends l t get_history.
Proof. intros st. simpl. lia. Qed.

Lemma spends_log l t m : spends l t (_log m).
Proof. intros st. simpl. lia. Qed.

Lemma spends_modify_info l t f : spends l t (modify_info f).
Proof. intros st. simpl. lia. Qed.

Lemma spends_record_action l t a i r : spends l t (record_action a i r).
Proof. intros st. simpl. lia. Qed.

Lemma spends_call_llm llm req : spends 1 0 (call_llm llm req).
Proof. intros st. simpl. lia. Qed.

Lemma spends_call_tool A (tool : nat -> Res A) : spends 0 1 (call_tool tool).
Proof. intros st. simpl. lia. Qed.

Lemma spends_bind_at A B (m : M A) (k : A -> M B) l1 t1 l2 t2 l t :
  spends l1 t1 m -> (forall a, spends l2 t2 (k a)) ->
  (l1 + l2 <= l)%nat -> (t1 + t2 <= t)%nat -> spends l t (bind m k).
Proof.
  intros Hm Hk Hl Ht st. unfold bind. destruct (Hm st) as [L1 T1].
  destruct (m st) as [[a|e] st1]; simpl in *; [|lia].
  destruct (Hk a st1). lia.
Qed.

Lemma spends_catch_at A (m : M A) (h : Exn -> M A) l1 t1 l2 t2 l t :
  spends l1 t1 m -> (forall e, spends l2 t2 (h e)) ->
  (l1 + l2 <= l)%nat -> (t1 + t2 <= t)%nat -> spends l t (catch m h).
Proof.
  intros Hm Hh Hl Ht st. unfold catch. destruct (Hm st) as [L1 T1].
  destruct (m st) as [[a|e] st1]; simpl in *; [lia|].
  destruct (Hh e st1). lia.
Qed.

Ltac spends_free :=
  first [ assumption
        | apply spends_ret | apply spends_raise | apply spends_lift
        | apply spends_get_info | apply spends_get_history | apply spends_log
        | apply spends_modify_info | apply spends_record_action ].

Ltac spends_step :=
  lazymatch goal with
  | |- spends ?L ?T (bind (call_llm _ _) _) =>
      let l2 := eval cbn in (Nat.pred L) in
      apply (@spends_bind_at _ _ _ _ 1 0 l2 T);
      [apply spends_call_llm | intros ? | cbn; lia | cbn; lia]
  | |- spends ?L ?T (bind (call_tool _) _) =>
      let t2 := eval cbn in (Nat.pred T) in
      apply (@spends_bind_at _ _ _ _ 0 1 L t2);
      [apply spends_call_tool | intros ? | cbn; lia | cbn; lia]
  | |- spends ?L ?T (bind _ _) =>
      apply (@spends_bind_at _ _ _ _ 0 0 L T);
      [spends_free | intros ? | cbn; lia | cbn; lia]
  | |- spends _ _ (if ?b then _ else _) => destruct b
  | |- spends _ _ (match ?x with _ => _ end) => destruct x
  | |- _ => spends_free
  end.

Lemma spends_log_all l t lines : spends l t (log_all lines).
Proof. induction lines as [|m ms IH]; simpl; repeat spends_step. Qed.

Lemma spends_log_issues l t issues : spends l t (log_issues issues).
Proof. induction issues as [|issue rest IH]; simpl; repeat spends_step. Qed.

Lemma spends_weather_for_prompt l t degraded : spends l t (weather_for_prompt degraded).
Proof. unfold weather_for_prompt. repeat spends_step. Qed.

Lemma spends_decide_action llm : spends 1 0 (decide_action llm).
Proof.
  unfold decide_action.
  do 8 spends_step.
  match goal with
  | |- context [resolve_action ?x ?y ?z] =>
      destruct (resolve_action x y z) as [[action input] lines]
  end.
  apply (@spends_bind_at _ _ _ _ 0 0 0 0);
    [apply spends_log_all|intros _; apply spends_ret|lia|lia].
Qed.

Lemma spends_execute_geocode geocode input : spends 0 1 (_execute_geocode geocode input).
Proof. unfold _execute_geocode. repeat spends_step. Qed.

Lemma spends_execute_weather get_weather input :
  spends 0 1 (_execute_weather get_weather input).
Proof. unfold _execute_weather. repeat spends_step. Qed.

Lemma spends_plan_try llm model_validate req : spends 1 0 (plan_try llm model_validate req).
Proof. unfold plan_try. repeat spends_step. Qed.

Lemma spends_plan_attempts llm model_validate req attempts :
  spends (length attempts) 0 (plan_attempts llm model_validate attempts req).
Proof.
  induction attempts as [|attempt rest IH]; simpl; [apply spends_ret|].
  apply (@spends_catch_at _ _ _ 1 0 (length rest) 0);
    [apply spends_plan_try|intros e|lia|lia].
  repeat spends_step.
Qed.

Lemma spends_execute_plan cfg llm model_validate :
  spends 2 0 (_execute_plan cfg llm model_validate).
Proof.
  unfold _execute_plan.
  apply (@spends_bind_at _ _ _ _ 0 0 2 0); [apply spends_log|intros _|lia|lia].
  apply (@spends_bind_at _ _ _ _ 0 0 2 0);
    [apply spends_weather_for_prompt|intros ws|lia|lia].
  apply (@spends_bind_at _ _ _ _ 0 0 2 0); [apply spends_get_info|intros info|lia|lia].
  apply (spends_plan_attempts llm model_validate _ [0; 1]%Z).
Qed.

Lemma spends_self_correct cfg llm itinerary : spends 2 0 (_self_correct cfg llm itinerary).
Proof.
  unfold _self_correct, self_correct_prelude.
  apply (@spends_bind_at _ _ _ _ 0 0 2 0); [|intros ws|lia|lia].
  { apply (@spends_bind_at _ _ _ _ 0 0 0 0); [apply spends_log|intros _|lia|lia].
    apply (@spends_bind_at _ _ _ _ 0 0 0 0);
      [apply spends_weather_for_prompt|intros ws|lia|lia].
    repeat spends_step. }
  apply (@spends_catch_at _ _ _ 2 0 0 0); [|intros e; repeat spends_step|lia|lia].
  unfold self_correct_try.
  do 6 spends_step; [repeat spends_step|].
  do 3 spends_step.
  apply (@spends_bind_at _ _ _ _ 0 0 1 0); [apply spends_log_issues|intros _|lia|lia].
  repeat spends_step.
Qed.

Section Budget.
Variable cfg : Config.
Variable llm : nat -> JsonRequest -> Res Json.
Variable geocode : nat -> Json -> Res (option GeoResult).
Variable get_weather : nat -> Json -> Json -> Json -> Json -> Res (list WeatherDay).
Variable model_validate : Json -> Res Json.

Local Abbreviation plan_cost := (if enable_self_correction cfg then 4 else 2)%nat.

Lemma spends_execute_action i action input :
  spends plan_cost 1
         (execute_action cfg llm geocode get_weather model_validate i action input).
Proof.
  unfold execute_action.
  destruct (action_is action GEOCODE).
  { apply (@spends_bind_at _ _ _ _ 0 1 0 0);
      [apply spends_execute_geocode|intros r; repeat spends_step|lia|lia]. }
  destruct (action_is action WEATHER).
  { apply (@spends_bind_at _ _ _ _ 0 1 0 0);
      [apply spends_execute_weather|intros r; repeat spends_step|lia|lia]. }
  destruct (action_is action PLAN).
  { destruct (enable_self_correction cfg).
    - apply (@spends_bind_at _ _ _ _ 2 0 2 0);
        [apply spends_execute_plan|intros r|lia|lia].
      apply (@spends_bind_at _ _ _ _ 2 0 0 0);
        [apply spends_self_correct|intros r2|lia|lia].
      intros st; simpl; lia.
    - apply (@spends_bind_at _ _ _ _ 2 0 0 0);
        [apply spends_execute_plan|intros r|lia|lia].
      apply (@spends_bind_at _ _ _ _ 0 0 0 0);
        [apply spends_ret|intros r2|lia|lia].
      intros st; simpl; lia. }
  destruct (action_is action FINISH).
  { apply (@spends_bind_at _ _ _ _ 0 0 0 0); [apply spends_log|intros _|lia|lia].
    intros st; simpl; lia. }
  repeat spends_step.
Qed.

(** An action after which the loop goes on made no call to the client. *)
Lemma execute_action_continue i action input st :
  fst (execute_action cfg llm geocode get_weather model_validate i action input st) = Ok None ->
  (llm_calls (snd (execute_action cfg llm geocode get_weather model_validate
                                  i action input st)) <= llm_calls st)%nat.
Proof.
  unfold execute_action.
  destruct (action_is action GEOCODE).
  { intros _.
    assert (S0 : spends 0 1 (result <- _execute_geocode geocode input ;;
                             record_action action input result ;;; @ret (option Bundle) None)).
    { apply (@spends_bind_at _ _ _ _ 0 1 0 0);
        [apply spends_execute_geocode|intros r; repeat spends_step|lia|lia]. }
    destruct (S0 st). lia. }
  destruct (action_is action WEATHER).
  { intros _.
    assert (S0 : spends 0 1 (result <- _execute_weather get_weather input ;;
                             record_action action input result ;;; @ret (option Bundle) None)).
    { apply (@spends_bind_at _ _ _ _ 0 1 0 0);
        [apply spends_execute_weather|intros r; repeat spends_step|lia|lia]. }
    destruct (S0 st). lia. }
  destruct (action_is action PLAN).
  { unfold bind.
    destruct (_execute_plan cfg llm model_validate st) as [[r|e] st1]; [|discriminate].
    destruct (enable_self_correction cfg); [|discriminate].
    destruct (_self_correct cfg llm r st1) as [[r2|e2] st2]; discriminate. }
  destruct (action_is action FINISH); [discriminate|].
  intros _. simpl. lia.
Qed.

Lemma iteration_step_budget i st :
  let r := iteration_step cfg llm geocode get_weather model_validate i st in
  (llm_calls (snd r)
   <= llm_calls st + 1 + match fst r with Continue => 0 | Return _ => plan_cost end)%nat
  /\ (tool_calls (snd r) <= tool_calls st + 1)%nat.
Proof.
  unfold iteration_step, iteration_try, bind.
  set (st0 := with_logs (logs st ++ [LogIteration (i + 1)]) st).
  assert (L0 : llm_calls st0 = llm_calls st) by reflexivity.
  assert (T0 : tool_calls st0 = tool_calls st) by reflexivity.
  clearbody st0.
  destruct (spends_decide_action llm st0) as [L1 T1].
  destruct (decide_action llm st0) as [[[a inp]|e] st1]; cbn [fst snd] in *.
  - destruct (spends_execute_action i a inp st1) as [L2 T2].
    pose proof (execute_action_continue i a inp st1) as C.
    destruct (execute_action cfg llm geocode get_weather model_validate i a inp st1)
      as [[[b|]|e] st2]; cbv beta iota zeta;
      cbn [fst snd llm_calls tool_calls with_logs] in *.
    + split; lia.
    + specialize (C eq_refl). split; lia.
    + split; lia.
  - cbv beta iota zeta. cbn [fst snd llm_calls tool_calls with_logs]. split; lia.
Qed.

Lemma react_loop_budget range :
  forall st,
    let r := react_loop cfg llm geocode get_weather model_validate range st in
    (llm_calls (snd r)
     <= llm_calls st + length range
        + match fst r with None => 0 | Some _ => plan_cost end)%nat
    /\ (tool_calls (snd r) <= tool_calls st + length range)%nat.
Proof.
  induction range as [|i rest IH]; intros st; simpl; [lia|].
  destruct (iteration_step_budget i st) as [L1 T1].
  destruct (iteration_step cfg llm geocode get_weather model_validate i st)
    as [[|b] st1]; cbn [fst snd] in *.
  - destruct (IH st1) as [L2 T2]. split; lia.
  - split; lia.
Qed.

End Budget.

(** X15: the calls of a run are bounded by its configuration.  With
    [n] the maximum number of iterations, a run calls the LLM client at
    most [n + 4] times with self-correction and [n + 2] times without
    it, and it calls the tools at most [n] times.  Over any stretch of
    the loop, from any state, the same bounds hold with the length of
    the stretch, and a stretch that runs out without returning called
    the client at most once per iteration. *)
Theorem plan_trip_call_budget cfg llm geocode get_weather model_validate
        (a : TripArgs) (st : Agent) (range : list nat) (st0 : Agent) :
  let run := plan_trip cfg llm geocode get_weather model_validate a st in
  let n := Z.to_nat (max_iterations cfg) in
  let stretch := react_loop cfg llm geocode get_weather model_validate range st0 in
  (llm_calls (snd run)
   <= llm_calls st + n + (if enable_self_correction cfg then 4 else 2))%nat
  /\ (tool_calls (snd run) <= tool_calls st + n)%nat
  /\ (llm_calls (snd stretch)
      <= llm_calls st0 + length range
         + match fst stretch with
           | None => 0
           | Some _ => if enable_self_correction cfg then 4 else 2
           end)%nat
  /\ (tool_calls (snd stretch) <= tool_calls st0 + length range)%nat.
Proof.
  intros run n stretch.
  destruct (react_loop_budget cfg llm geocode get_weather model_validate range st0)
    as [L T].
  destruct (react_loop_budget cfg llm geocode get_weather model_validate
                              (seq 0 n) (reset a st)) as [L0 T0].
  rewrite length_seq in L0, T0.
  subst run. unfold plan_trip. fold n.
  destruct (react_loop cfg llm geocode get_weather model_validate (seq 0 n) (reset a st))
    as [[b|] st1]; cbn [fst snd llm_calls tool_calls reset with_logs] in *.
  - repeat split; try assumption; lia.
  - repeat split; try assumption; destruct (enable_self_correction cfg); lia.
Qed.

(** The bound on the calls to the client is reached: one iteration that
    plans, with a first plan request that fails, a second that
    succeeds, a critique that asks for a correction and the correction. *)
Example call_budget_reached :
  let cfg := {| max_iterations := 1; enable_self_correction := true;
                max_tokens_plan := 8000; max_tokens_critic := 2000;
                max_tokens_corrector := 8000 |} in
  let llm := Scenario.scripted
               [Ok (Scenario.decision PLAN (JObj []));
                Raise (mkExn ValueError (MsgText (py "bad")));
                Ok Scenario.empty_plan; Ok Scenario.critique_invalid;
                Ok Scenario.empty_plan] in
  llm_calls (snd (plan_trip cfg llm Scenario.geocode_paris Scenario.weather_sunny
                            Schema.model_validate Scenario.trip new_agent)) = 5%nat.
Proof. vm_compute. reflexivity. Qed.

(* ===================================================================== *)
(** * The bundle a run returns *)
(* ===================================================================== *)

Lemma itinerary_kept_refl st : itinerary_kept st st.
Proof. reflexivity. Qed.

Lemma itinerary_kept_trans a b c :
  itinerary_kept a b -> itinerary_kept b c -> itinerary_kept a c.
Proof. unfold itinerary_kept. congruence. Qed.

Section Shapes.
Variable cfg : Config.
Variable llm : nat -> JsonRequest -> Res Json.
Variable geocode : nat -> Json -> Res (option GeoResult).
Variable get_weather : nat -> Json -> Json -> Json -> Json -> Res (list WeatherDay).
Variable model_validate : Json -> Res Json.

Lemma itinerary_kept_execute_geocode input st :
  itinerary_kept st (snd (_execute_geocode geocode input st)).
Proof.
  apply (@keeps_execute_geocode _ itinerary_kept_refl itinerary_kept_trans);
    intros; reflexivity.
Qed.

Lemma itinerary_kept_execute_weather input st :
  itinerary_kept st (snd (_execute_weather get_weather input st)).
Proof.
  apply (@keeps_execute_weather _ itinerary_kept_refl itinerary_kept_trans);
    intros; reflexivity.
Qed.

(** The bundle an action returns is the one of PLAN, made at that
    iteration, or the one of FINISH; an action that is not PLAN leaves
    the stored itinerary as it is. *)
Lemma execute_action_shape i action input st :
  match execute_action cfg llm geocode get_weather model_validate i action input st with
  | (Ok None, st') => itinerary_kept st st'
  | (Ok (Some b), st') =>
      (exists it, b = plan_bundle i it st')
      \/ (b = finish_bundle st' /\ itinerary_kept st st')
  | (Raise e, st') => True
  end.
Proof.
  unfold execute_action.
  destruct (action_is action GEOCODE).
  { unfold bind. pose proof (itinerary_kept_execute_geocode input st) as K.
    destruct (_execute_geocode geocode input st) as [[r|e] st1]; [|exact I].
    exact K. }
  destruct (action_is action WEATHER).
  { unfold bind. pose proof (itinerary_kept_execute_weather input st) as K.
    destruct (_execute_weather get_weather input st) as [[r|e] st1]; [|exact I].
    exact K. }
  destruct (action_is action PLAN).
  { unfold bind.
    destruct (_execute_plan cfg llm model_validate st) as [[r|e] st1]; [|exact I].
    destruct (enable_self_correction cfg).
    - destruct (_self_correct cfg llm r st1) as [[r2|e2] st2]; [|exact I].
      left. eexists. reflexivity.
    - left. eexists. reflexivity. }
  destruct (action_is action FINISH).
  { right. split; reflexivity. }
  reflexivity.
Qed.

Lemma iteration_step_shape i st :
  match iteration_step cfg llm geocode get_weather model_validate i st with
  | (Continue, st') => itinerary_kept st st'
  | (Return b, st') =>
      (exists it, b = plan_bundle i it st')
      \/ (b = finish_bundle st' /\ itinerary_kept st st')
      \/ (exists e, b = abort_bundle e st')
  end.
Proof.
  unfold iteration_step, iteration_try, bind.
  set (st0 := with_logs (logs st ++ [LogIteration (i + 1)]) st).
  assert (C0 : collected_info st0 = collected_info st) by reflexivity.
  clearbody st0.
  pose proof (@keeps_decide_action _ untouched_refl untouched_trans untouched_log
                                   untouched_llm llm st0) as [C1 _].
  destruct (decide_action llm st0) as [[[a inp]|e] st1]; cbn [fst snd] in *.
  - pose proof (execute_action_shape i a inp st1) as X.
    destruct (execute_action cfg llm geocode get_weather model_validate i a inp st1)
      as [[[b|]|e] st2].
    + destruct X as [X|[X K]]; [left; exact X|right; left].
      split; [exact X|]. unfold itinerary_kept in *. congruence.
    + unfold itinerary_kept in *. congruence.
    + right; right. eexists. reflexivity.
  - right; right. eexists. reflexivity.
Qed.

Lemma react_loop_shape n :
  forall k st,
    length (action_history st) = k ->
    ci_itinerary (collected_info st) = None ->
    match react_loop cfg llm geocode get_weather model_validate (seq k n) st with
    | (None, st') =>
        ci_itinerary (collected_info st') = None
        /\ length (action_history st') = (k + n)%nat
    | (Some b, st') =>
        (exists i it, (k <= i < k + n)%nat /\ b = plan_bundle i it st'
                      /\ length (action_history st') = i)
        \/ (b = finish_bundle st' /\ ci_itinerary (collected_info st') = None)
        \/ (exists e, b = abort_bundle e st')
    end.
Proof.
  induction n as [|n IH]; intros k st H N; simpl.
  - split; [exact N|lia].
  - pose proof (iteration_step_shape k st) as X.
    destruct (iteration_step_spec cfg llm geocode get_weather model_validate k st)
      as [Y _].
    destruct (iteration_step cfg llm geocode get_weather model_validate k st)
      as [[|b] st1].
    + destruct Y as [r Y].
      assert (H1 : length (action_history st1) = S k).
      { rewrite Y, length_app. simpl. lia. }
      assert (N1 : ci_itinerary (collected_info st1) = None).
      { unfold itinerary_kept in X. congruence. }
      specialize (IH (S k) st1 H1 N1).
      destruct (react_loop cfg llm geocode get_weather model_validate (seq (S k) n) st1)
        as [[b|] st2].
      * destruct IH as [[i [it [Hi Hb]]]|IH]; [left|right; exact IH].
        exists i, it. split; [lia|exact Hb].
      * destruct IH as [IH1 IH2]. split; [exact IH1|lia].
    + destruct Y as [Y _].
      destruct X as [[it X]|[[X K]|X]].
      * left. exists k, it. split; [lia|]. split; [exact X|congruence].
      * right; left. split; [exact X|]. unfold itinerary_kept in K. congruence.
      * right; right. exact X.
Qed.

End Shapes.

(** X16: the bundle of a run.  It reports success exactly when it
    carries no error.  Metrics come with the bundle of a PLAN only: they
    then count one iteration more than the actions recorded in the
    history, which are those of the iterations before, and at most the
    configured maximum.  A bundle without metrics (FINISH, an exception,
    the loop run out) carries the empty itinerary: within a run, only
    PLAN returns one. *)
Theorem plan_trip_bundle_shape cfg llm geocode get_weather model_validate
        (a : TripArgs) (st : Agent) :
  let run := plan_trip cfg llm geocode get_weather model_validate a st in
  let b := fst run in
  (b_success b = true <-> b_error b = None)
  /\ (forall m, b_metrics b = Some m ->
        b_success b = true
        /\ iterations m = (actions_count m + 1)%nat
        /\ actions_count m = length (action_history (snd run))
        /\ (iterations m <= Z.to_nat (max_iterations cfg))%nat)
  /\ (b_metrics b = None -> b_itinerary b = JObj []).
Proof.
  intros run b. subst b run. unfold plan_trip.
  pose proof (@react_loop_shape cfg llm geocode get_weather model_validate
                (Z.to_nat (max_iterations cfg)) 0%nat (reset a st) eq_refl eq_refl) as X.
  destruct (react_loop cfg llm geocode get_weather model_validate
                       (seq 0 (Z.to_nat (max_iterations cfg))) (reset a st))
    as [[b|] st1]; cbn [fst snd].
  - destruct X as [[i [it [Hi [Hb Hl]]]]|[[Hb N]|[e Hb]]]; subst b.
    + cbn. split; [split; reflexivity|]. split; [|discriminate].
      intros m E. inversion E; subst m; cbn. repeat split; lia.
    + cbn. split; [split; reflexivity|]. split; [discriminate|].
      intros _. unfold get_itinerary. rewrite N. reflexivity.
    + cbn. split; [split; discriminate|]. split; [discriminate|reflexivity].
  - destruct X as [N _]. cbn.
    split; [split; discriminate|]. split; [discriminate|].
    intros _. unfold get_itinerary. cbn. rewrite N. reflexivity.
Qed.

(* ===================================================================== *)
(** * Unusable action input *)
(* ===================================================================== *)

(** X17: the tools are not called on unusable input.  A WEATHER for
    which one of the four parameters is missing or falsy (a latitude or
    longitude of zero is) and a GEOCODE whose input has no city, or a
    falsy one, log one line and return [None]: no tool is called and
    nothing is stored.  An input that is not an object makes both raise
    an attribute error, again before any call. *)
Theorem tools_not_called_on_unusable_input geocode get_weather (st : Agent) :
  (forall f k,
      In k [py "lat"; py "lon"; py "start_date"; py "end_date"] ->
      truthy (match dict_lookup k f with Some x => x | None => JNull end) = false ->
      _execute_weather get_weather (JObj f) st
      = (Ok JNull, with_logs (logs st ++ [LogMissingWeatherParameters]) st))
  /\ (forall f,
         truthy (match dict_lookup (py "city") f with Some x => x | None => JNull end) = false ->
         _execute_geocode geocode (JObj f) st
         = (Ok JNull, with_logs (logs st ++ [LogNoCity]) st))
  /\ (forall input,
         (forall g, input <> JObj g) ->
         (exists e, _execute_weather get_weather input st = (Raise e, st)
                    /\ exn_class e = AttributeError)
         /\ (exists e, _execute_geocode geocode input st = (Raise e, st)
                       /\ exn_class e = AttributeError)).
Proof.
  split; [|split].
  - intros f k K F.
    unfold _execute_weather, bind, lift, py_get, _log, ret. cbn [fst snd].
    assert (X : truthy (match dict_lookup (py "lat") f with Some x => x | None => JNull end)
                && truthy (match dict_lookup (py "lon") f with Some x => x | None => JNull end)
                && truthy (match dict_lookup (py "start_date") f with
                           | Some x => x | None => JNull end)
                && truthy (match dict_lookup (py "end_date") f with
                           | Some x => x | None => JNull end) = false).
    { simpl in K. destruct K as [<-|[<-|[<-|[<-|[]]]]]; rewrite F;
        rewrite ?andb_false_r; reflexivity. }
    rewrite X. reflexivity.
  - intros f C. unfold _execute_geocode, bind, lift, py_get, _log, ret. cbn [fst snd].
    rewrite C. reflexivity.
  - intros input N. split.
    + unfold _execute_weather, bind, lift, py_get.
      destruct input; try (eexists; split; reflexivity).
      exfalso. exact (N _ eq_refl).
    + unfold _execute_geocode, bind, lift, py_get.
      destruct input; try (eexists; split; reflexivity).
      exfalso. exact (N _ eq_refl).
Qed.

Lemma tools_not_called_on_unusable_input_witness :
  let weather_input := [(py "lat", JInt 0); (py "lon", JFloat 65 (-1));
                        (py "start_date", JStr (py "2025-12-20"));
                        (py "end_date", JStr (py "2025-12-22"))] in
  let geocode_input := [(py "city", JStr []);
                        (py "lat", JInt 48); (py "lon", JInt 2);
                        (py "start_date", JStr (py "2025-12-20"));
                        (py "end_date", JStr (py "2025-12-22"))] in
  _execute_weather Scenario.weather_sunny (JObj weather_input) new_agent
  = (Ok JNull, with_logs (logs new_agent ++ [LogMissingWeatherParameters]) new_agent)
  /\ _execute_geocode Scenario.geocode_paris (JObj geocode_input) new_agent
     = (Ok JNull, with_logs (logs new_agent ++ [LogNoCity]) new_agent).
Proof.
  intros weather_input geocode_input.
  destruct (@tools_not_called_on_unusable_input Scenario.geocode_paris Scenario.weather_sunny
              new_agent) as [W [G _]].
  split.
  - apply (W weather_input (py "lat")); [left; reflexivity|reflexivity].
  - apply (G geocode_input). reflexivity.
Defined.

(* ===================================================================== *)
(** * The tools *)
(* ===================================================================== *)

Lemma item_or_array l i d : Tools.item_or (JArr l) i d = Ok (nth i l d).
Proof.
  unfold Tools.item_or. cbn [py_len Schema.res_bind].
  destruct (Nat.ltb_spec i (length l)) as [L|L].
  - cbn [Tools.py_index].
    destruct (nth_error l i) as [x|] eqn:E.
    + rewrite (nth_error_nth _ _ d E). reflexivity.
    + apply nth_error_None in E. lia.
  - rewrite nth_overflow by lia. reflexivity.
Qed.

Lemma and_gt_comparable v n :
  if comparable v
  then exists b, Tools.and_gt v n = Ok b
  else exists e, Tools.and_gt v n = Raise e /\ exn_class e = TypeError.
Proof.
  destruct v as [|b|k|m e|s|l|f].
  - cbn. eexists. reflexivity.
  - unfold comparable. cbn [Tools.number_compare]. rewrite orb_true_r.
    unfold Tools.and_gt, Tools.py_gt. cbn [Tools.number_compare].
    destruct (truthy _); eexists; reflexivity.
  - unfold comparable. cbn [Tools.number_compare]. rewrite orb_true_r.
    unfold Tools.and_gt, Tools.py_gt. cbn [Tools.number_compare].
    destruct (truthy _); eexists; reflexivity.
  - unfold comparable. cbn [Tools.number_compare]. rewrite orb_true_r.
    unfold Tools.and_gt, Tools.py_gt. cbn [Tools.number_compare].
    destruct (truthy _); eexists; reflexivity.
  - destruct s; cbn; eexists; try split; reflexivity.
  - destruct l; cbn; eexists; try split; reflexivity.
  - destruct f; cbn; eexists; try split; reflexivity.
Qed.

Lemma and_lt_comparable v n :
  comparable v = true -> exists b, Tools.and_lt v n = Ok b.
Proof.
  destruct v as [|b|k|m e|s|l|f].
  - intros _. cbn. eexists. reflexivity.
  - intros _. unfold Tools.and_lt, Tools.py_lt. cbn [Tools.number_compare].
    destruct (truthy _); eexists; reflexivity.
  - intros _. unfold Tools.and_lt, Tools.py_lt. cbn [Tools.number_compare].
    destruct (truthy _); eexists; reflexivity.
  - intros _. unfold Tools.and_lt, Tools.py_lt. cbn [Tools.number_compare].
    destruct (truthy _); eexists; reflexivity.
  - destruct s; cbn; [intros _; eexists; reflexivity|discriminate].
  - destruct l; cbn; [intros _; eexists; reflexivity|discriminate].
  - destruct f; cbn; [intros _; eexists; reflexivity|discriminate].
Qed.

(** [_generate_description] returns exactly when the maximal
    temperature, the rain probability and the wind speed can be
    compared; the minimal temperature is not looked at. *)
Lemma generate_description_comparable a b c d :
  if comparable a && comparable c && comparable d
  then Tools._generate_description a b c d = Ok (described a b c d)
  else exists e, Tools._generate_description a b c d = Raise e
                 /\ exn_class e = TypeError.
Proof.
  unfold described, Tools._generate_description.
  pose proof (and_gt_comparable a 25) as A.
  destruct (comparable a) eqn:Ca; cbn [andb].
  2:{ destruct A as [e [-> E]]. exists e. split; [reflexivity|exact E]. }
  destruct A as [hot ->]. cbn [Schema.res_bind].
  destruct (and_lt_comparable a 10 Ca) as [cold Cold].
  assert (T : exists temperature,
             (if hot then Ok (py "Chaud")
              else Schema.res_bind (Tools.and_lt a 10)
                     (fun cold => Ok (if cold then py "Froid" else Tools.Tempere)))
             = Ok temperature).
  { destruct hot; [eexists; reflexivity|]. rewrite Cold. eexists. reflexivity. }
  destruct T as [temperature ->]. cbn [Schema.res_bind].
  pose proof (and_gt_comparable c 70) as C70.
  pose proof (and_gt_comparable c 40) as C40.
  destruct (comparable c) eqn:Cc; cbn [andb].
  2:{ destruct C70 as [e [-> E]]. exists e. split; [reflexivity|exact E]. }
  destruct C70 as [likely ->]. destruct C40 as [risk C40]. cbn [Schema.res_bind].
  assert (R : exists rain,
             (if likely then Ok (py "Pluie probable")
              else Schema.res_bind (Tools.and_gt c 40)
                     (fun rain_risk =>
                        Ok (if rain_risk then py "Risque de pluie" else py "Sec")))
             = Ok rain).
  { destruct likely; [eexists; reflexivity|]. rewrite C40. eexists. reflexivity. }
  destruct R as [rain ->]. cbn [Schema.res_bind].
  pose proof (and_gt_comparable d 30) as D.
  destruct (comparable d) eqn:Cd.
  - destruct D as [windy ->]. reflexivity.
  - destruct D as [e [-> E]]. exists e. split; [reflexivity|exact E].
Qed.

Lemma weather_loop_rows (tmax tmin pp ws : list Json) (dates : list Json) :
  forall i,
    (forall j, (i <= j < i + length dates)%nat ->
               comparable (nth j tmax JNull) && comparable (nth j pp (JInt 0))
               && comparable (nth j ws (JInt 0)) = true) ->
    Tools.weather_loop Tools._generate_description dates i
                       (JArr tmax) (JArr tmin) (JArr pp) (JArr ws)
    = Ok (map (weather_row described tmax tmin pp ws)
              (combine (seq i (length dates)) dates)).
Proof.
  induction dates as [|date rest IH]; intros i H; [reflexivity|].
  cbn [Tools.weather_loop]. rewrite !item_or_array. cbn [Schema.res_bind].
  pose proof (generate_description_comparable
                (nth i tmax JNull) (nth i tmin JNull) (nth i pp (JInt 0))
                (nth i ws (JInt 0))) as G.
  rewrite (H i) in G by (simpl; lia). rewrite G. cbn [Schema.res_bind].
  rewrite IH by (intros j L; apply H; simpl; lia). reflexivity.
Qed.

Lemma weather_loop_raises (tmax tmin pp ws : list Json) (dates : list Json) :
  forall i j,
    (i <= j < i + length dates)%nat ->
    comparable (nth j tmax JNull) && comparable (nth j pp (JInt 0))
    && comparable (nth j ws (JInt 0)) = false ->
    exists e,
      Tools.weather_loop Tools._generate_description dates i
                         (JArr tmax) (JArr tmin) (JArr pp) (JArr ws) = Raise e
      /\ exn_class e = TypeError.
Proof.
  induction dates as [|date rest IH]; intros i j L H; [simpl in L; lia|].
  cbn [Tools.weather_loop]. rewrite !item_or_array. cbn [Schema.res_bind].
  pose proof (generate_description_comparable
                (nth i tmax JNull) (nth i tmin JNull) (nth i pp (JInt 0))
                (nth i ws (JInt 0))) as G.
  destruct (comparable (nth i tmax JNull) && comparable (nth i pp (JInt 0))
            && comparable (nth i ws (JInt 0))) eqn:Here.
  - rewrite G. cbn [Schema.res_bind].
    assert (Lj : (S i <= j < S i + length rest)%nat).
    { destruct (Nat.eq_dec i j) as [->|]; [congruence|simpl in L; lia]. }
    destruct (IH (S i) j Lj H) as [e [-> E]]. exists e. split; [reflexivity|exact E].
  - destruct G as [e [-> E]]. exists e. split; [reflexivity|exact E].
Qed.

(** X18: the weather tool.  A request that raises, and a response
    whose status is not 200, whatever its body, give the empty list.
    From a response with status 200 whose [daily] columns are arrays,
    the tool builds one entry per date, in the order of the dates, each
    with the values at the position of the date in the columns and their
    description; a column that is too short gives [None] for a
    temperature and [0] for the rain probability and the wind speed.
    It does so exactly when, at the positions of the dates, the maximal
    temperature, the rain probability and the wind speed are falsy or
    numbers: one that is a non-empty string, list or object makes the
    tool raise a type error.  A column that is [null] makes it raise a
    type error as soon as there is one date. *)
Theorem get_weather_entries :
  let tool := Tools.get_weather Tools._generate_description in
  tool Tools.HttpFails = Ok []
  /\ (forall status data, status <> 200%Z -> tool (Tools.HttpResponse status data) = Ok [])
  /\ (forall g f dates tmax tmin pp ws,
         dict_lookup (py "daily") g = Some (JObj f) ->
         dict_lookup (py "time") f = Some (JArr dates) ->
         dict_lookup (py "temperature_2m_max") f = Some (JArr tmax) ->
         dict_lookup (py "temperature_2m_min") f = Some (JArr tmin) ->
         dict_lookup (py "precipitation_probability_max") f = Some (JArr pp) ->
         dict_lookup (py "wind_speed_10m_max") f = Some (JArr ws) ->
         let usable := fun i => comparable (nth i tmax JNull)
                                && comparable (nth i pp (JInt 0))
                                && comparable (nth i ws (JInt 0)) in
         ((forall i, (i < length dates)%nat -> usable i = true) ->
          tool (Tools.HttpResponse 200 (JObj g))
          = Ok (map (weather_row described tmax tmin pp ws)
                    (combine (seq 0 (length dates)) dates)))
         /\ (forall i, (i < length dates)%nat -> usable i = false ->
                       exists e, tool (Tools.HttpResponse 200 (JObj g)) = Raise e
                                 /\ exn_class e = TypeError))
  /\ (forall g f date dates,
         dict_lookup (py "daily") g = Some (JObj f) ->
         dict_lookup (py "time") f = Some (JArr (date :: dates)) ->
         dict_lookup (py "temperature_2m_max") f = Some JNull ->
         exists e, tool (Tools.HttpResponse 200 (JObj g)) = Raise e
                   /\ exn_class e = TypeError).
Proof.
  intros tool. subst tool. split; [reflexivity|]. split; [|split].
  - intros status data N. unfold Tools.get_weather.
    destruct (Z.eqb_spec status 200); [contradiction|reflexivity].
  - intros g f dates tmax tmin pp ws D T H1 H2 H3 H4 usable.
    assert (U : Tools.get_weather Tools._generate_description
                                  (Tools.HttpResponse 200 (JObj g))
                = Tools.weather_loop Tools._generate_description dates 0
                                     (JArr tmax) (JArr tmin) (JArr pp) (JArr ws)).
    { unfold Tools.get_weather. cbn [Z.eqb Pos.eqb negb py_get Schema.res_bind].
      rewrite D. cbn [py_get Schema.res_bind]. rewrite T, H1, H2, H3, H4.
      reflexivity. }
    rewrite U. split.
    + intros A. apply weather_loop_rows. intros j L. apply A. lia.
    + intros i L B. apply (@weather_loop_raises tmax tmin pp ws dates 0%nat i); [lia|exact B].
  - intros g f date dates D T H1.
    unfold Tools.get_weather. cbn [Z.eqb Pos.eqb negb py_get Schema.res_bind].
    rewrite D. cbn [py_get Schema.res_bind]. rewrite T, H1.
    cbn [py_iter Schema.res_bind]. eexists. split; reflexivity.
Qed.

Lemma get_weather_entries_witness :
  let f := [(py "time", JArr [JStr (py "2025-12-20"); JStr (py "2025-12-21")]);
            (py "temperature_2m_max", JArr [JFloat 95 (-1)]);
            (py "temperature_2m_min", JArr [JInt 3; JInt 4]);
            (py "precipitation_probability_max", JArr [JInt 80]);
            (py "wind_speed_10m_max", JArr [JInt 12; JInt 31; JInt 7])] in
  Tools.get_weather Tools._generate_description
                    (Tools.HttpResponse 200 (JObj [(py "daily", JObj f)]))
  = Ok [ {| w_date := JStr (py "2025-12-20"); w_temp_min := JInt 3;
            w_temp_max := JFloat 95 (-1);
            w_precipitation_probability := JInt 80; w_wind_speed := JInt 12;
            w_description := JStr (py "Froid - Pluie probable") |};
         {| w_date := JStr (py "2025-12-21"); w_temp_min := JInt 4; w_temp_max := JNull;
            w_precipitation_probability := JInt 0; w_wind_speed := JInt 31;
            w_description := JStr (Tools.Tempere ++ py " - Sec - Venteux") |} ].
Proof.
  intros f.
  destruct get_weather_entries as [_ [_ [E _]]].
  destruct (E [(py "daily", JObj f)] f
              [JStr (py "2025-12-20"); JStr (py "2025-12-21")]
              [JFloat 95 (-1)] [JInt 3; JInt 4] [JInt 80] [JInt 12; JInt 31; JInt 7]
              eq_refl eq_refl eq_refl eq_refl eq_refl eq_refl) as [R _].
  rewrite R.
  - vm_compute. reflexivity.
  - intros i L. destruct i as [|[|i]]; [reflexivity|reflexivity|simpl in L; lia].
Defined.

(** The description of a day: numbers above or below the thresholds,
    values that are missing, and a value that cannot be compared. *)
Example generate_description_examples :
  Tools._generate_description (JInt 30) JNull (JInt 55) (JFloat 305 (-1))
  = Ok (JStr (py "Chaud - Risque de pluie - Venteux"))
  /\ Tools._generate_description JNull JNull (JInt 0) (JInt 0)
     = Ok (JStr (Tools.Tempere ++ py " - Sec"))
  /\ Tools._generate_description (JInt 25) (JInt 20) (JInt 70) (JInt 30)
     = Ok (JStr (Tools.Tempere ++ py " - Risque de pluie"))
  /\ Tools._generate_description (JStr (py "30")) JNull (JInt 0) (JInt 0)
     = Raise (Tools.not_supported (py ">")).
Proof. vm_compute. repeat split. Qed.

(** X19: a tool whose request fails does not make the action raise.
    When the request of the geocoding tool raises or gets an error
    status, or its response lists no result, a GEOCODE with a city logs
    that the city was not found and returns [None], and no geocode
    result is stored.  When the request of the weather tool raises or
    gets an error status, a WEATHER with its four parameters stores the
    empty weather list with the unavailable mark, and returns the empty
    list. *)
Theorem tool_failure_is_not_raised (describe : Json -> Json -> Json -> Json -> Res Json)
        (reply : Tools.HttpReply) (f : list (text * Json)) (st : Agent)
        (city lat lon start_date end_date : Json) :
  request_failed reply
  \/ (exists status g, reply = Tools.HttpResponse status (JObj g)
                       /\ (dict_lookup (py "results") g = None
                           \/ dict_lookup (py "results") g = Some (JArr []))) ->
  (dict_lookup (py "city") f = Some city -> truthy city = true ->
   let r := _execute_geocode (fun _ _ => Tools.geocode reply) (JObj f) st in
   fst r = Ok JNull
   /\ logs (snd r) = logs st ++ [LogCityNotFound city]
   /\ collected_info (snd r) = collected_info st
   /\ tool_calls (snd r) = S (tool_calls st))
  /\ (request_failed reply ->
      dict_lookup (py "lat") f = Some lat -> truthy lat = true ->
      dict_lookup (py "lon") f = Some lon -> truthy lon = true ->
      dict_lookup (py "start_date") f = Some start_date -> truthy start_date = true ->
      dict_lookup (py "end_date") f = Some end_date -> truthy end_date = true ->
      let r := _execute_weather (fun _ _ _ _ _ => Tools.get_weather describe reply)
                                (JObj f) st in
      fst r = Ok (JArr [])
      /\ ci_weather (collected_info (snd r)) = Some []
      /\ ci_weather_unavailable (collected_info (snd r)) = true
      /\ tool_calls (snd r) = S (tool_calls st)).
Proof.
  intros F. split.
  - intros C Tc.
    assert (G : Tools.geocode reply = Ok None).
    { destruct F as [[->|[status [data [-> E]]]]|[status [g [-> E]]]].
      - reflexivity.
      - unfold Tools.geocode. rewrite E. reflexivity.
      - unfold Tools.geocode. destruct (Tools.is_error_status status); [reflexivity|].
        cbn [py_get Schema.res_bind]. destruct E as [-> | ->]; reflexivity. }
    unfold _execute_geocode, bind, lift, py_get, call_tool, _log, ret. cbn [fst snd].
    rewrite C, Tc. cbn [negb fst snd]. rewrite G. cbn. repeat split.
  - intros RF La Tla Lo Tlo Sd Tsd Ed Ted.
    assert (G : Tools.get_weather describe reply = Ok []).
    { destruct RF as [->|[status [data [-> E]]]]; [reflexivity|].
      unfold Tools.get_weather, Tools.is_error_status in *.
      destruct (Z.eqb_spec status 200) as [->|N]; [discriminate E|reflexivity]. }
    unfold _execute_weather, bind, lift, py_get, call_tool, _log, modify_info, ret.
    cbn [fst snd]. rewrite La, Lo, Sd, Ed, Tla, Tlo, Tsd, Ted. cbn [andb negb fst snd].
    rewrite G. cbn. repeat split.
Qed.

Lemma tool_failure_is_not_raised_witness :
  let f := [(py "city", JStr (py "Paris"))] in
  let r := _execute_geocode (fun _ _ => Tools.geocode Tools.HttpFails) (JObj f) new_agent in
  fst r = Ok JNull
  /\ logs (snd r) = logs new_agent ++ [LogCityNotFound (JStr (py "Paris"))]
  /\ collected_info (snd r) = collected_info new_agent
  /\ tool_calls (snd r) = S (tool_calls new_agent).
Proof.
  intros f.
  apply (proj1 (@tool_failure_is_not_raised (fun _ _ _ _ => Ok JNull) Tools.HttpFails f
                  new_agent (JStr (py "Paris")) JNull JNull JNull JNull
                  (or_introl (or_introl eq_refl))));
    reflexivity.
Defined.

(* ===================================================================== *)
(** * The schema *)
(* ===================================================================== *)

Ltac peel H :=
  match type of H with
  | Schema.res_bind ?r _ = Ok _ =>
      let E := fresh "E" in
      destruct r eqn:E; [cbn [Schema.res_bind] in H|discriminate H]
  end.

Ltac lookups :=
  repeat match goal with
         | |- context [dict_lookup ?k ?L] =>
             let r := eval vm_compute in (dict_lookup k L) in
             change (dict_lookup k L) with r
         end.

Lemma required_str_ok f k a : Schema.required_str f k = Ok a -> exists s, a = JStr s.
Proof.
  unfold Schema.required_str.
  destruct (dict_lookup k f) as [[]|]; try discriminate.
  intros H. inversion H. eexists. reflexivity.
Qed.

Lemma optional_str_ok f k a :
  Schema.optional_str f k = Ok a -> a = JNull \/ exists s, a = JStr s.
Proof.
  unfold Schema.optional_str.
  destruct (dict_lookup k f) as [[]|]; try discriminate; intros H; inversion H;
    [left; reflexivity|right; eexists; reflexivity|left; reflexivity].
Qed.

Lemma validate_all_fixed check :
  (forall x y, check x = Ok y -> check y = Ok y) ->
  forall l l', Schema.validate_all check l = Ok l' ->
               Schema.validate_all check l' = Ok l' /\ length l' = length l.
Proof.
  intros C. induction l as [|x l IH]; intros l' H; simpl in H.
  - inversion H. split; reflexivity.
  - peel H. peel H. inversion H; subst. simpl.
    rewrite (C _ _ E). destruct (IH _ eq_refl) as [-> L]. simpl. split; [reflexivity|lia].
Qed.

Lemma list_field_ok check required f k a :
  (forall x y, check x = Ok y -> check y = Ok y) ->
  Schema.list_field check required f k = Ok a ->
  exists l, a = JArr l /\ Schema.validate_all check l = Ok l
            /\ (forall given, dict_lookup k f = Some (JArr given) -> length l = length given).
Proof.
  intros C. unfold Schema.list_field.
  destruct (dict_lookup k f) as [[]|]; try discriminate.
  - intros H. peel H. inversion H; subst.
    destruct (@validate_all_fixed _ C _ _ E) as [V L].
    eexists. repeat split; [exact V|]. intros given G. inversion G; subst. exact L.
  - destruct required; [discriminate|]. intros H. inversion H.
    exists []. repeat split. intros given G. discriminate G.
Qed.

Lemma validate_activity_fixed v v' :
  Schema.validate_activity v = Ok v' -> Schema.validate_activity v' = Ok v'.
Proof.
  destruct v; try discriminate. unfold Schema.validate_activity at 1. intros H.
  do 4 peel H.
  destruct (dict_lookup (py "indoor") fields) as [[]|]; try discriminate H.
  cbn [Schema.res_bind] in H. peel H. inversion H; subst. clear H.
  destruct (@required_str_ok _ _ _ E) as [s1 ->].
  destruct (@required_str_ok _ _ _ E0) as [s2 ->].
  destruct (@required_str_ok _ _ _ E1) as [s3 ->].
  destruct (@required_str_ok _ _ _ E2) as [s4 ->].
  unfold Schema.validate_activity, Schema.required_str, Schema.optional_str.
  destruct (@optional_str_ok _ _ _ E3) as [->|[s5 ->]]; lookups; reflexivity.
Qed.

Lemma activity_field_fixed f k a :
  Schema.activity_field f k = Ok a -> Schema.validate_activity a = Ok a.
Proof.
  unfold Schema.activity_field. destruct (dict_lookup k f); [|discriminate].
  apply validate_activity_fixed.
Qed.

Lemma validate_day_plan_fixed v v' :
  Schema.validate_day_plan v = Ok v' -> Schema.validate_day_plan v' = Ok v'.
Proof.
  destruct v; try discriminate. unfold Schema.validate_day_plan at 1. intros H.
  destruct (dict_lookup (py "day_number") fields) as [[]|]; try discriminate H.
  cbn [Schema.res_bind] in H. do 6 peel H. inversion H; subst. clear H.
  destruct (@required_str_ok _ _ _ E) as [s1 ->].
  pose proof (@activity_field_fixed _ _ _ E0) as M.
  pose proof (@activity_field_fixed _ _ _ E1) as A.
  pose proof (@activity_field_fixed _ _ _ E2) as Ev.
  destruct (@list_field_ok _ _ _ _ _ validate_activity_fixed E3) as [alts [-> [V _]]].
  unfold Schema.validate_day_plan, Schema.required_str, Schema.optional_str,
    Schema.activity_field, Schema.list_field.
  destruct (@optional_str_ok _ _ _ E4) as [->|[s5 ->]]; lookups;
    cbn [Schema.res_bind]; rewrite M, A, Ev; cbn [Schema.res_bind]; rewrite V;
    reflexivity.
Qed.

Lemma a_string_fixed v v' : Schema.a_string v = Ok v' -> Schema.a_string v' = Ok v'.
Proof. destruct v; try discriminate. intros H. inversion H. reflexivity. Qed.

(** X20: the dumped itinerary, for input whose values have exactly the
    declared types.  When validation accepts a value, what it returns is
    an object with exactly the keys [daily_plans], [justifications] and
    [checklist], in this order, each a list; the list of days has one
    entry per day given; and the returned value validates to itself. *)
Theorem model_validate_fixed (v v' : Json) :
  Schema.model_validate v = Ok v' ->
  Schema.model_validate v' = Ok v'
  /\ exists days justifications checklist,
      v' = JObj [(py "daily_plans", JArr days);
                 (py "justifications", JArr justifications);
                 (py "checklist", JArr checklist)]
      /\ forall f given, v = JObj f ->
                         dict_lookup (py "daily_plans") f = Some (JArr given) ->
                         length days = length given.
Proof.
  destruct v; try discriminate. unfold Schema.model_validate at 1. intros H.
  do 3 peel H. inversion H; subst. clear H.
  destruct (@list_field_ok _ _ _ _ _ validate_day_plan_fixed E) as [days [-> [V1 L]]].
  destruct (@list_field_ok _ _ _ _ _ a_string_fixed E0) as [js [-> [V2 _]]].
  destruct (@list_field_ok _ _ _ _ _ a_string_fixed E1) as [cs [-> [V3 _]]].
  split.
  - unfold Schema.model_validate, Schema.list_field. lookups. cbn [Schema.res_bind].
    rewrite V1. cbn [Schema.res_bind]. rewrite V2. cbn [Schema.res_bind].
    rewrite V3. reflexivity.
  - exists days, js, cs. split; [reflexivity|].
    intros f given Ef G. inversion Ef; subst. apply L, G.
Qed.

Lemma model_validate_fixed_witness :
  Schema.model_validate Scenario.empty_plan_dumped = Ok Scenario.empty_plan_dumped
  /\ exists days justifications checklist,
      Scenario.empty_plan_dumped
      = JObj [(py "daily_plans", JArr days);
              (py "justifications", JArr justifications);
              (py "checklist", JArr checklist)]
      /\ forall f given, Scenario.empty_plan = JObj f ->
                         dict_lookup (py "daily_plans") f = Some (JArr given) ->
                         length days = length given.
Proof.
  apply (@model_validate_fixed Scenario.empty_plan Scenario.empty_plan_dumped).
  reflexivity.
Defined.

(* ===================================================================== *)
(** * Scenarios *)
(* ===================================================================== *)

Example remove_ex1 :
  _remove_trailing_commas (pyq "{'a': [1, 2, ], 'b': 3,, }") = pyq "{'a': [1, 2 ], 'b': 3 }".
Proof. vm_compute. reflexivity. Qed.

Example reader_ex1 :
  JsonReader.json_loads (pyq " {'a': [1, -20, {'b': null}], 'c': 'x\ny', 'a': true} ")
  = Some (JObj [(py "a", JBool true); (py "c", JStr [120; 10; 121])]).
Proof. vm_compute. reflexivity. Qed.

Example reader_ex2 : JsonReader.json_loads (pyq "{'a':1,}") = None.
Proof. vm_compute. reflexivity. Qed.

Example reader_ex3 :
  JsonReader.json_loads (pyq "[{'a':1},{'b':2}]")
  = Some (JArr [JObj [(py "a", JInt 1)]; JObj [(py "b", JInt 2)]]).
Proof. vm_compute. reflexivity. Qed.

Example generate_json_ex1 :
  generate_json JsonReader.json_loads (fun _ _ => Ok (pyq "Sure! {'a':1,}"))
                [] None 7 8000 1
  = Ok (JObj [(py "a", JInt 1)]).
Proof. vm_compute. reflexivity. Qed.

(** A fenced reply: the fence is stripped and the object parsed. *)
Example generate_json_fenced :
  generate_json JsonReader.json_loads
                (fun _ _ => Ok (py "```json" ++ [LF] ++ pyq "{'cities':['Paris','Lyon']}"
                                   ++ [LF] ++ py "```"))
                [] None 7 8000 1
  = Ok (JObj [(py "cities", JArr [JStr (py "Paris"); JStr (py "Lyon")])]).
Proof. vm_compute. reflexivity. Qed.

(** A raw line feed inside a string value is escaped, then parsed back. *)
Example generate_json_raw_newline :
  generate_json JsonReader.json_loads
                (fun _ _ => Ok (pyq "{'a': 'line1" ++ [LF] ++ pyq "line2'}"))
                [] None 7 8000 1
  = Ok (JObj [(py "a", JStr (py "line1" ++ [LF] ++ py "line2"))]).
Proof. vm_compute. reflexivity. Qed.

(** A truncated reply completed by one continuation. *)
Example generate_json_continuation :
  generate_json JsonReader.json_loads
                (fun n _ => match n with
                            | O => Ok (pyq "{'daily_plans':[{'day_number':1,")
                            | _ => Ok (pyq "'date':'2025-01-01'}]}")
                            end)
                [] None 7 8000 1
  = Ok (JObj [(py "daily_plans",
               JArr [JObj [(py "day_number", JInt 1);
                           (py "date", JStr (py "2025-01-01"))]])]).
Proof. vm_compute. reflexivity. Qed.

(** A reply that no stage can parse raises the parse failure, with the
    original reply and the last repaired candidate. *)
Example generate_json_failure :
  generate_json JsonReader.json_loads (fun _ _ => Ok (pyq "{'a': tru,}"))
                [] None 7 8000 0
  = Raise (mkExn (JSONParseError (pyq "{'a': tru,}") (pyq "{'a': tru}"))
                 (MsgJSONParse 8000)).
Proof. vm_compute. reflexivity. Qed.

(** An empty weather result marks the weather unavailable; the WEATHER
    proposed next is overridden to PLAN and the run succeeds. *)
Example run_without_weather :
  let run := plan_trip default_config
               (Scenario.scripted
                  [Ok (Scenario.decision GEOCODE (JObj [(py "city", JStr (py "Paris"))]));
                   Ok (Scenario.decision GEOCODE (JObj [(py "city", JStr (py "Paris"))]));
                   Ok (Scenario.decision WEATHER (JObj []));
                   Ok Scenario.empty_plan;
                   Ok (JObj [(py "is_valid", JBool true)])])
               Scenario.geocode_paris Scenario.weather_none Schema.model_validate
               Scenario.trip new_agent in
  b_success (fst run) = true
  /\ b_itinerary (fst run) = Scenario.empty_plan_dumped
  /\ b_weather (fst run) = []
  /\ ci_weather_unavailable (collected_info (snd run)) = true
  /\ b_metrics (fst run) = Some {| iterations := 3; actions_count := 2 |}.
Proof. vm_compute. repeat split. Qed.

(** Five connection errors, then nothing more is sent. *)
Example generate_mistral_gives_up :
  _generate_mistral 300 2000 (fun _ => RaisesConnectionError (py "reset"))
  = (Some (Raise (mkExn RuntimeError (MsgNetwork 5 (py "reset")))), [3; 6; 9; 12]%Z).
Proof. reflexivity. Qed.

(** Two connection errors, then a reply. *)
Example generate_mistral_recovers :
  _generate_mistral 300 2000
    (fun attempt => if (attempt <? 2)%Z then RaisesConnectionError (py "reset")
                    else Replied (py " ok "))
  = (Some (Ok (py "ok")), [3; 6]%Z).
Proof. reflexivity. Qed.
